(** * Tornado Warning Monitor ([server.js]): embedding and verified properties

    The server polls a storm-based-warning GeoJSON feed and a mesoscale
    discussion RSS feed, keeps the list of active tornado warnings, and posts
    every newly seen item to a webhook.  This file embeds the functions of
    [server.js] as Rocq definitions and proves properties of them.

    Conventions of the embedding:
    - a JavaScript string is a [string]; one character stands for one code
      unit, so [String.length] is [.length] and [substring 0 n] is
      [.substring(0, n)];
    - a JavaScript number is an IEEE-754 binary64 value, [spec_float] with
      precision 53 and maximal exponent 1024;
    - a [Date] is its time value, [option Z]: milliseconds since the epoch,
      [None] for an invalid date (time value NaN);
    - the module-level variables [tornadoWarnings], [lastUpdate] and
      [lastMdIds] are fields of an explicit process state threaded through
      the handlers; network calls are answered by an oracle indexed by the
      number of calls made so far, and every request and every outcome line
      is appended to a trace;
    - a handler runs to its end before the next one starts: cycles that
      overlap in time are outside the model;
    - the body of an answer of the feed is the JSON value received, well
      formed or not: [features] may be missing or no array, a record may
      be [null] or no object, and a geometry is kept as the JSON value it
      is, so that the extractor throws where [parseTornadoWarnings]
      throws; the members of [properties] are scalars and an identifier
      is a string.  A feed document, with typed geometries, is the
      special case of a well-formed body;
    - exceptions carry the messages of V8; the argument lists of
      [Math.min(...lons)] and the like are taken to be within the limit
      of the engine, whose [RangeError] beyond it is left out;
    - diagnostic [console.log] lines are left out. *)

From Stdlib Require Import ZArith List String Ascii Bool Lia SpecFloat DecimalString.
From stdpp Require Import base option gmap sets list strings.

Local Open Scope Z_scope.

(** ** Strings *)

Module JSString.

(** [s.includes(sub)] *)
Fixpoint includes (sub s : string) : bool :=
  String.prefix sub s ||
  match s with
  | EmptyString => false
  | String _ s' => includes sub s'
  end.

(** [s.substring(0, n)] *)
Definition substring0 (n : nat) (s : string) : string := String.substring 0 n s.

(** Decimal rendering of an integer, as [Number.prototype.toString] gives
    for integral values. *)
Definition of_Z (z : Z) : string := NilZero.string_of_int (Z.to_int z).

Fixpoint replicate0 (n : nat) : string :=
  match n with
  | O => EmptyString
  | S n' => String "0" (replicate0 n')
  end.

(** [s.padStart(w, '0')] *)
Definition padStart0 (w : nat) (s : string) : string :=
  replicate0 (w - String.length s) +:+ s.

Definition is_digit (c : ascii) : bool :=
  let n := N_of_ascii c in (48 <=? n)%N && (n <=? 57)%N.

Definition digit_of (c : ascii) : option Z :=
  if is_digit c then Some (Z.of_N (N_of_ascii c) - 48) else None.

(** Reads exactly [k] decimal digits. *)
Fixpoint read_digits (k : nat) (acc : Z) (s : string) : option (Z * string) :=
  match k with
  | O => Some (acc, s)
  | S k' =>
      match s with
      | String c s' =>
          match digit_of c with
          | Some d => read_digits k' (10 * acc + d) s'
          | None => None
          end
      | EmptyString => None
      end
  end.

End JSString.

(** ** The [Date] object of the runtime

    [server.js] relies on three services of the JavaScript runtime: parsing
    a string into a time value ([new Date(s)]), the UTC field accessors, and
    [toISOString].  They are modelled after ECMA-262 (section "Date
    Objects").  The standard fixes the result of parsing only for the Date
    Time String Format; what an engine does with any other string is left to
    its own heuristics, which the model takes as the parameter
    [legacy_parse].  The local time zone adjustment is a parameter too. *)

Module JSDate.
Import JSString.

Class Runtime := {
  (** the engine's fallback for strings outside the Date Time String Format *)
  legacy_parse : string -> option Z;
  (** offset of local time from UTC, in milliseconds, at a local time value *)
  local_tza : Z -> Z;
  (** [Number.prototype.toString] *)
  number_to_string : spec_float -> string;
  (** the conversion of a string to a number (StringToNumber) *)
  string_to_number : string -> spec_float
}.

Definition msPerDay : Z := 86400000.
Definition msPerHour : Z := 3600000.
Definition msPerMinute : Z := 60000.
Definition msPerSecond : Z := 1000.

Definition Day (t : Z) : Z := t / msPerDay.

Definition isLeap (y : Z) : bool :=
  (y mod 4 =? 0) && (negb (y mod 100 =? 0) || (y mod 400 =? 0)).

Definition DayFromYear (y : Z) : Z :=
  365 * (y - 1970) + (y - 1969) / 4 - (y - 1901) / 100 + (y - 1601) / 400.

(** The year containing day number [d]: the estimate from the mean year
    length is off by at most one. *)
Definition YearFromDay (d : Z) : Z :=
  let y := 1970 + (d * 400) / 146097 in
  if DayFromYear (y + 1) <=? d then y + 1
  else if d <? DayFromYear y then y - 1
  else y.

Definition YearFromTime (t : Z) : Z := YearFromDay (Day t).

(** Number of days before month [m] (0-based) in a year. *)
Definition monthStart (leap : bool) (m : Z) : Z :=
  let l := if leap then 1 else 0 in
  match m with
  | 0 => 0
  | 1 => 31
  | 2 => 59 + l
  | 3 => 90 + l
  | 4 => 120 + l
  | 5 => 151 + l
  | 6 => 181 + l
  | 7 => 212 + l
  | 8 => 243 + l
  | 9 => 273 + l
  | 10 => 304 + l
  | 11 => 334 + l
  | _ => 365 + l
  end.

Definition DayWithinYear (t : Z) : Z := Day t - DayFromYear (YearFromTime t).

Fixpoint monthOfDay (fuel : nat) (leap : bool) (m dayInYear : Z) : Z :=
  match fuel with
  | O => m
  | S fuel' =>
      if dayInYear <? monthStart leap (m + 1) then m
      else monthOfDay fuel' leap (m + 1) dayInYear
  end.

Definition MonthFromTime (t : Z) : Z :=
  monthOfDay 11 (isLeap (YearFromTime t)) 0 (DayWithinYear t).

Definition DateFromTime (t : Z) : Z :=
  DayWithinYear t - monthStart (isLeap (YearFromTime t)) (MonthFromTime t) + 1.

Definition HourFromTime (t : Z) : Z := (t / msPerHour) mod 24.
Definition MinFromTime (t : Z) : Z := (t / msPerMinute) mod 60.
Definition SecFromTime (t : Z) : Z := (t / msPerSecond) mod 60.
Definition msFromTime (t : Z) : Z := t mod msPerSecond.

Definition MakeTime (h m s ms : Z) : Z :=
  h * msPerHour + m * msPerMinute + s * msPerSecond + ms.

(** [month] is 0-based, [date] is 1-based *)
Definition MakeDay (year month date : Z) : Z :=
  let ym := year + month / 12 in
  let mn := month mod 12 in
  DayFromYear ym + monthStart (isLeap ym) mn + date - 1.

Definition MakeDate (day time : Z) : Z := day * msPerDay + time.

Definition TimeClip (t : Z) : option Z :=
  if Z.abs t <=? 8640000000000000 then Some t else None.

(** *** The Date Time String Format *)

Inductive iso_result :=
| NotISO                (* the string is not in the format *)
| ISOIllegal            (* in the format, with an element out of range *)
| ISOTime (t : Z) (utc : bool).
    (* a time value; [utc = false] when it is a local time *)

Definition parse_year (s : string) : option (bool * Z * string) :=
  match s with
  | String "+" s' => '(y, r) ← read_digits 6 0 s'; Some (true, y, r)
  | String "-" s' => '(y, r) ← read_digits 6 0 s'; Some (negb (y =? 0), - y, r)
  | _ => '(y, r) ← read_digits 4 0 s; Some (true, y, r)
  end.

(** [-MM] and [-DD], each optional; an absent element defaults to 1 *)
Definition parse_month_day (s : string) : option (Z * Z * string) :=
  match s with
  | String "-" s1 =>
      '(mo, r1) ← read_digits 2 0 s1;
      match r1 with
      | String "-" s2 => '(d, r2) ← read_digits 2 0 s2; Some (mo, d, r2)
      | _ => Some (mo, 1, r1)
      end
  | _ => Some (1, 1, s)
  end.

(** [HH:mm], [HH:mm:ss] or [HH:mm:ss.sss] *)
Definition parse_time (s : string) : option (Z * Z * Z * Z * string) :=
  '(h, r1) ← read_digits 2 0 s;
  match r1 with
  | String ":" s2 =>
      '(mi, r2) ← read_digits 2 0 s2;
      match r2 with
      | String ":" s3 =>
          '(se, r3) ← read_digits 2 0 s3;
          match r3 with
          | String "." s4 => '(ms, r4) ← read_digits 3 0 s4; Some (h, mi, se, ms, r4)
          | _ => Some (h, mi, se, 0, r3)
          end
      | _ => Some (h, mi, 0, 0, r2)
      end
  | _ => None
  end.

(** The UTC offset, in minutes east of Greenwich: [Z], [+HH:mm], [-HH:mm]
    or absent.  The second component tells whether the offset hour and
    minute are in range. *)
Definition parse_offset (s : string) : option (option (Z * bool)) :=
  match s with
  | EmptyString => Some None
  | String "Z" EmptyString => Some (Some (0, true))
  | String c s1 =>
      if (Ascii.eqb c "+" || Ascii.eqb c "-")%bool then
        '(h, r1) ← read_digits 2 0 s1;
        match r1 with
        | String ":" s2 =>
            '(mi, r2) ← read_digits 2 0 s2;
            match r2 with
            | EmptyString =>
                let off := h * 60 + mi in
                Some (Some (if Ascii.eqb c "+" then off else - off,
                            (h <=? 23) && (mi <=? 59)))
            | _ => None
            end
        | _ => None
        end
      else None
  end.

Definition time_in_range (h mi se ms : Z) : bool :=
  ((h <=? 23) && (mi <=? 59) && (se <=? 59))
  || ((h =? 24) && (mi =? 0) && (se =? 0) && (ms =? 0)).

Definition parse_iso (s : string) : iso_result :=
  match parse_year s with
  | None => NotISO
  | Some (yok, y, r0) =>
      match parse_month_day r0 with
      | None => NotISO
      | Some (mo, d, r1) =>
          let date_ok := yok && (1 <=? mo) && (mo <=? 12) && (1 <=? d) && (d <=? 31) in
          let day := MakeDay y (mo - 1) d in
          match r1 with
          | EmptyString =>
              if date_ok then ISOTime (MakeDate day 0) true else ISOIllegal
          | String "T" r2 =>
              match parse_time r2 with
              | None => NotISO
              | Some (h, mi, se, ms, r3) =>
                  match parse_offset r3 with
                  | None => NotISO
                  | Some off =>
                      let t := MakeDate day (MakeTime h mi se ms) in
                      if date_ok && time_in_range h mi se ms then
                        match off with
                        | None => ISOTime t false
                        | Some (o, ook) =>
                            if ook then ISOTime (t - o * msPerMinute) true
                            else ISOIllegal
                        end
                      else ISOIllegal
                  end
              end
          | _ => NotISO
          end
      end
  end.

Section WithRuntime.
Context `{Runtime}.

(** [Date.parse(s)] *)
Definition parse (s : string) : option Z :=
  match parse_iso s with
  | NotISO => legacy_parse s
  | ISOIllegal => None
  | ISOTime t true => TimeClip t
  | ISOTime t false => TimeClip (t - local_tza t)
  end.

(** [new Date(s)], as its time value *)
Definition new_Date (s : string) : option Z := parse s.
End WithRuntime.

Definition pad (w : nat) (z : Z) : string := padStart0 w (of_Z z).

(** [d.toISOString()] for a valid date with time value [t] *)
Definition toISOString (t : Z) : string :=
  let y := YearFromTime t in
  let ys :=
    if (0 <=? y) && (y <=? 9999) then pad 4 y
    else (if 0 <=? y then "+" else "-") +:+ pad 6 (Z.abs y) in
  ys +:+ "-" +:+ pad 2 (MonthFromTime t + 1) +:+ "-" +:+ pad 2 (DateFromTime t)
     +:+ "T" +:+ pad 2 (HourFromTime t) +:+ ":" +:+ pad 2 (MinFromTime t)
     +:+ ":" +:+ pad 2 (SecFromTime t) +:+ "." +:+ pad 3 (msFromTime t) +:+ "Z".

End JSDate.

(** ** JSON values of the feed *)

Module JSValue.
Import JSDate.

(** A thrown JavaScript exception, with its [message] *)
Inductive exn :=
| Error (message : string)
| TypeError (message : string).

Definition message_of (e : exn) : string :=
  match e with Error m | TypeError m => m end.

Definition b64_sub : spec_float -> spec_float -> spec_float := SFsub 53 1024.
Definition b64_add : spec_float -> spec_float -> spec_float := SFadd 53 1024.
Definition b64_ltb : spec_float -> spec_float -> bool := SFltb.

Definition is_nan (x : spec_float) : bool :=
  match x with S754_nan => true | _ => false end.
Definition is_zero (x : spec_float) : bool :=
  match x with S754_zero _ => true | _ => false end.
Definition is_pos_zero (x : spec_float) : bool :=
  match x with S754_zero false => true | _ => false end.
Definition is_neg_zero (x : spec_float) : bool :=
  match x with S754_zero true => true | _ => false end.

(** A scalar member of a JSON object.  A member that is missing reads as
    [VUndefined]. *)
Inductive value :=
| VUndefined
| VNull
| VBool (b : bool)
| VNum (x : spec_float)
| VStr (s : string).

(** ToBoolean: what [if (v)] and [v && ...] test *)
Definition truthy (v : value) : bool :=
  match v with
  | VUndefined | VNull => false
  | VBool b => b
  | VNum x => negb (is_zero x || is_nan x)
  | VStr s => negb (String.eqb s "")
  end.

(** ToString: what a template literal does with [${v}] *)
Definition to_string `{Runtime} (v : value) : string :=
  match v with
  | VUndefined => "undefined"
  | VNull => "null"
  | VBool true => "true"
  | VBool false => "false"
  | VNum x => number_to_string x
  | VStr s => s
  end.

(** The integral part of a finite number *)
Definition trunc (x : spec_float) : option Z :=
  match x with
  | S754_zero _ => Some 0
  | S754_finite s m e =>
      let v := if 0 <=? e then Z.pos m * 2 ^ e else Z.pos m / 2 ^ (- e) in
      Some (if s then - v else v)
  | _ => None
  end.

(** [new Date(v)] for a scalar [v]: a string is parsed, anything else is
    converted to a number and taken as the time value. *)
Definition new_Date_of `{Runtime} (v : value) : option Z :=
  match v with
  | VStr s => new_Date s
  | VNum x => t ← trunc x; TimeClip t
  | VBool true => Some 1
  | VBool false | VNull => Some 0
  | VUndefined => None
  end.

(** An object read as a map from member names to values *)
Definition get (o : gmap string value) (k : string) : value :=
  default VUndefined (o !! k).

End JSValue.

(** ** [validateAndFormatTimestamp] *)

Module Timestamp.
Import JSString JSDate JSValue.

(** [/^\d{4}-\d{2}-\d{2}$/] *)
Definition is_date_only (s : string) : bool :=
  match read_digits 4 0 s with
  | Some (_, String "-" s1) =>
      match read_digits 2 0 s1 with
      | Some (_, String "-" s2) =>
          match read_digits 2 0 s2 with
          | Some (_, EmptyString) => true
          | _ => false
          end
      | _ => false
      end
  | _ => false
  end.

Section WithRuntime.
Context `{Runtime}.

(** The string handed to [new Date] by the branch that [timestamp] selects *)
Definition date_source (timestamp : string) : string :=
  if includes "T" timestamp && includes "Z" timestamp then timestamp
  else if includes "T" timestamp && negb (includes "Z" timestamp) then timestamp +:+ "Z"
  else if is_date_only timestamp then timestamp +:+ "T00:00:00Z"
  else timestamp.

Definition validateAndFormatTimestamp (timestamp : string) : exn + string :=
  let date := new_Date (date_source timestamp) in
  match date with
  | None => inl (Error ("Invalid timestamp format: " +:+ timestamp))
  | Some t => inr (toISOString t)
  end.
End WithRuntime.

End Timestamp.

(** ** The feed and [parseTornadoWarnings] *)

Module Feed.
Import JSString JSDate JSValue.

(** *** Well-formed documents

    A document as the feed is meant to deliver it: an object whose
    [features], when present, is an array of objects, each with a string
    [id], with [properties] that are an object of scalars or missing, and
    with a geometry whose [coordinates], when present, are nested arrays
    of positions, each position an array of numbers. *)

(** A GeoJSON position: [c[0]] is the longitude, [c[1]] the latitude *)
Definition position := list spec_float.

(** [c[i]] converted to a number: a missing element is [undefined], NaN *)
Definition coord (i : nat) (c : position) : spec_float := nth i c S754_nan.

(** A GeoJSON geometry, by its [type]; [coordinates] may be missing *)
Inductive geometry :=
| Polygon (coordinates : option (list (list position)))
| MultiPolygon (coordinates : option (list (list (list position))))
| OtherGeometry (type : string) (has_coordinates : bool).

Record feature := {
  f_id : string;
  f_properties : option (gmap string value);
  f_geometry : option geometry
}.

(** The response body of the feed: [features] may be missing *)
Record feed_document := { features : option (list feature) }.

(** *** The body of an answer, well-formed or not

    [axios] hands over whatever the server sent: the parsed JSON value,
    or the text itself when the answer is not JSON.  A geometry is kept
    as the JSON value it is; of the other members the code reads, the
    ill-typed cases are the ones with a behaviour of their own. *)

Unset Elimination Schemes.
Inductive json :=
| JNull
| JBool (b : bool)
| JNum (x : spec_float)
| JStr (s : string)
| JArr (items : list json)
| JObj (members : list (string * json)).
    (* the members of an object, each name once *)
Set Elimination Schemes.

(** An element of the [features] array *)
Inductive record :=
| NullRecord
    (* [null]: reading [feature.properties] throws *)
| OtherRecord
    (* a number, a string, a boolean or an array: [feature.properties]
       is [undefined] *)
| ObjectRecord (id : string) (properties : option (gmap string value))
               (geometry : option json).
    (* an object; [properties] is [None] when the member is missing or
       falsy, and the empty map for a truthy value that is not an object;
       [geometry] is [None] when the member is missing *)

(** The member [features] of an object body *)
Inductive features_member :=
| NoFeatures
    (* missing or falsy *)
| NotAnArray (length : value)
    (* truthy and not an array, so without [filter]: a string, a number,
       [true] or an object; [length] is its member [length] *)
| Records (records : list record).

(** A truthy body: an object, or any other JSON value or text, on which
    [features] reads as [undefined] *)
Inductive feed_body :=
| ObjectBody (features : features_member)
| OtherBody (j : json).

(** Reading JSON values as the code does *)

(** ToBoolean *)
Definition truthy_json (j : json) : bool :=
  match j with
  | JNull => false
  | JBool b => b
  | JNum x => negb (is_zero x || is_nan x)
  | JStr s => negb (String.eqb s "")
  | JArr _ | JObj _ => true
  end.

(** [j[k]] for a member name [k]: [None] is [undefined] *)
Definition member (k : string) (j : json) : option json :=
  match j with
  | JObj members => snd <$> List.find (fun m => String.eqb (fst m) k) members
  | _ => None
  end.

(** [c[i]] for an index [i], on a value other than [null] *)
Definition element (i : nat) (c : json) : option json :=
  match c with
  | JArr items => nth_error items i
  | JStr s => (fun a => JStr (String a EmptyString)) <$> String.get i s
  | JObj _ => member (of_Z (Z.of_nat i)) c
  | _ => None
  end.

Definition join (sep : string) (l : list string) : string :=
  match l with
  | [] => ""
  | x :: l' => fold_left (fun acc y => acc +:+ sep +:+ y) l' x
  end.

Section WithRuntime.
Context `{Runtime}.

(** ToString, as [Array.prototype.join] applies it to an element: [null]
    gives the empty string *)
Fixpoint json_to_string (j : json) : string :=
  match j with
  | JNull => ""
  | JBool true => "true"
  | JBool false => "false"
  | JNum x => number_to_string x
  | JStr s => s
  | JArr items => join "," (map json_to_string items)
  | JObj _ => "[object Object]"
  end.

(** ToNumber, which [Math.min] and [Math.max] apply to each argument *)
Definition to_number (v : option json) : spec_float :=
  match v with
  | None => S754_nan
  | Some JNull => S754_zero false
  | Some (JBool true) => S754_finite false 4503599627370496 (-52)
  | Some (JBool false) => S754_zero false
  | Some (JNum x) => x
  | Some (JStr s) => string_to_number s
  | Some (JArr items) => string_to_number (json_to_string (JArr items))
  | Some (JObj _) => S754_nan
  end.
End WithRuntime.

(** [l.flat()]: the elements that are arrays are replaced by their
    elements *)
Definition flat1 (l : list json) : list json :=
  concat (map (fun x => match x with JArr items => items | _ => [x] end) l).

(** A well-formed document as a body *)
Definition encode_position (p : position) : json := JArr (map JNum p).

Definition encode_ring (ring : list position) : json := JArr (map encode_position ring).

Definition is_polygon_type (type : string) : bool :=
  String.eqb type "Polygon" || String.eqb type "MultiPolygon".

Definition encode_geometry (g : geometry) : json :=
  match g with
  | Polygon None => JObj [("type", JStr "Polygon")]
  | Polygon (Some rings) =>
      JObj [("type", JStr "Polygon"); ("coordinates", JArr (map encode_ring rings))]
  | MultiPolygon None => JObj [("type", JStr "MultiPolygon")]
  | MultiPolygon (Some polys) =>
      JObj [("type", JStr "MultiPolygon");
            ("coordinates", JArr (map (fun rings => JArr (map encode_ring rings)) polys))]
  | OtherGeometry type has_coordinates =>
      JObj ((if is_polygon_type type then [] else [("type", JStr type)])
              ++ (if has_coordinates then [("coordinates", JArr [])] else []))
  end.

Definition encode_feature (f : feature) : record :=
  ObjectRecord (f_id f) (f_properties f) (encode_geometry <$> f_geometry f).

Definition document (d : feed_document) : feed_body :=
  ObjectBody match features d with
             | None => NoFeatures
             | Some fs => Records (map encode_feature fs)
             end.

Record bbox := { xmin : spec_float; ymin : spec_float; xmax : spec_float; ymax : spec_float }.

(** [Math.min(...l)] *)
Definition Math_min (l : list spec_float) : spec_float :=
  if existsb is_nan l then S754_nan
  else fold_left
         (fun lowest x =>
            if (is_neg_zero x && is_pos_zero lowest) || b64_ltb x lowest then x else lowest)
         l (S754_infinity false).

(** [Math.max(...l)] *)
Definition Math_max (l : list spec_float) : spec_float :=
  if existsb is_nan l then S754_nan
  else fold_left
         (fun highest x =>
            if (is_pos_zero x && is_neg_zero highest) || b64_ltb highest x then x else highest)
         l (S754_infinity true).

(** The positions [getBoundingBox] collects: [coordinates.flat()] of a
    polygon, [coordinates.flat(2)] of a multi-polygon *)
Definition flat_coords (g : geometry) : option (list position) :=
  match g with
  | Polygon (Some rings) => Some (concat rings)
  | MultiPolygon (Some polys) => Some (concat (concat polys))
  | _ => None
  end.

(** [getBoundingBox] on a geometry whose positions have been read.  The
    spread calls [Math.min(...lons)] are taken to be within the number of
    arguments the engine accepts. *)
Definition getBoundingBox (g : option geometry) (margin : spec_float) : option bbox :=
  match g with
  | None => None
  | Some g =>
      match flat_coords g with
      | None => None
      | Some coords =>
          let lats := map (coord 1) coords in
          let lons := map (coord 0) coords in
          Some {| xmin := b64_sub (Math_min lons) margin;
                  ymin := b64_sub (Math_min lats) margin;
                  xmax := b64_add (Math_max lons) margin;
                  ymax := b64_add (Math_max lats) margin |}
      end
  end.

(** The literal [0.2]: the binary64 number nearest to two tenths *)
Definition margin_0_2 : spec_float := S754_finite false 7205759403792794 (-55).

(** [fs.map(step)], stopping at the first exception *)
Fixpoint map_result {A B} (step : A -> exn + B) (fs : list A) : exn + list B :=
  match fs with
  | [] => inr []
  | f :: fs' =>
      match step f with
      | inl e => inl e
      | inr w =>
          match map_result step fs' with
          | inl e => inl e
          | inr ws => inr (w :: ws)
          end
      end
  end.

(** [fs.filter(step)], stopping at the first exception *)
Fixpoint filter_result {A} (step : A -> exn + bool) (fs : list A) : exn + list A :=
  match fs with
  | [] => inr []
  | f :: fs' =>
      match step f with
      | inl e => inl e
      | inr keep =>
          match filter_result step fs' with
          | inl e => inl e
          | inr kept => inr (if keep then f :: kept else kept)
          end
      end
  end.

Section Reading.
Context `{Runtime}.

(** [coords.map(c => c[1])] and [coords.map(c => c[0])], with the
    conversion to a number that [Math.min] and [Math.max] apply to what
    was read: reading an element of [null] throws. *)
Definition read_position (c : json) : exn + position :=
  match c with
  | JNull => inl (TypeError "Cannot read properties of null (reading '1')")
  | _ => inr [to_number (element 0 c); to_number (element 1 c)]
  end.

(** [geometry.coordinates.flat()]: only an array has the method. *)
Definition flat (coordinates : json) : exn + list json :=
  match coordinates with
  | JArr items => inr (flat1 items)
  | _ => inl (TypeError "geometry.coordinates.flat is not a function")
  end.

(** [geometry.coordinates.flat(2)] *)
Definition flat2 (coordinates : json) : exn + list json :=
  match coordinates with
  | JArr items => inr (flat1 (flat1 items))
  | _ => inl (TypeError "geometry.coordinates.flat is not a function")
  end.

(** The part of [getBoundingBox] that reads the geometry: the tests of
    [geometry], [coordinates] and [type], the flattening and the reading
    of the positions.  [inr None] is the [return null] of the function;
    otherwise the positions read are handed on as one ring. *)
Definition read_geometry (geom : option json) : exn + option geometry :=
  match geom with
  | None => inr None
  | Some g =>
      match member "coordinates" g with
      | None => inr None
      | Some coordinates =>
          if negb (truthy_json g) || negb (truthy_json coordinates) then inr None
          else
            match member "type" g with
            | Some (JStr type) =>
                if String.eqb type "Polygon" then
                  match flat coordinates with
                  | inl e => inl e
                  | inr coords =>
                      match map_result read_position coords with
                      | inl e => inl e
                      | inr positions => inr (Some (Polygon (Some [positions])))
                      end
                  end
                else if String.eqb type "MultiPolygon" then
                  match flat2 coordinates with
                  | inl e => inl e
                  | inr coords =>
                      match map_result read_position coords with
                      | inl e => inl e
                      | inr positions => inr (Some (MultiPolygon (Some [[positions]])))
                      end
                  end
                else inr None
            | _ => inr None
            end
      end
  end.
End Reading.

Record WarningEvent := {
  id : string;
  properties : gmap string value;
  geometry_of : option json;
  wfo : value;
  eventid : value;
  status : value;
  issued : value;
  expires : value;
  polygonBegin : value;
  polygonEnd : value;
  windtag : value;
  hailtag : value;
  tornadotag : value;
  isPDS : value;
  isEmergency : value;
  productSignature : value;
  href : value;
  radmapImageUrl : option string;
  plotImageUrl : option string;
  nwstextUrl : option string
}.

Section WithRuntime.
Context `{Runtime}.

(** [YYYYMMDDHHMM] in UTC, or the empty string *)
Definition formatTimestampForRadMap (ts : value) : string :=
  if negb (truthy ts) then ""
  else
    match new_Date_of ts with
    | None => ""
    | Some d =>
        let pad := fun n => padStart0 2 (of_Z n) in
        of_Z (YearFromTime d) +:+ pad (MonthFromTime d + 1) +:+ pad (DateFromTime d)
          +:+ pad (HourFromTime d) +:+ pad (MinFromTime d)
    end.

Definition radmap_url (b : bbox) (ts : string) : string :=
  "https://mesonet.agron.iastate.edu/GIS/radmap.php?layers[]=nexrad&layers[]=sbw&layers[]=places&layers[]=interstates&layers[]=uscounties&bbox="
    +:+ number_to_string (xmin b) +:+ "," +:+ number_to_string (ymin b) +:+ ","
    +:+ number_to_string (xmax b) +:+ "," +:+ number_to_string (ymax b)
    +:+ "&width=800&height=600&ts=" +:+ ts +:+ "&title=Tornado%20Warning".

Definition nwstext_url (product_id : value) : string :=
  "https://mesonet.agron.iastate.edu/json/nwstext.py?product_id=" +:+ to_string product_id.

Definition plot_url (p : gmap string value) : string :=
  "https://mesonet.agron.iastate.edu/plotting/auto/plot/208/network:WFO::wfo:"
    +:+ to_string (get p "wfo") +:+ "::year:" +:+ to_string (get p "year")
    +:+ "::phenomenav:" +:+ to_string (get p "phenomena")
    +:+ "::significancev:" +:+ to_string (get p "significance")
    +:+ "::etn:" +:+ to_string (get p "eventid")
    +:+ "::opt:single::n:auto::_r:88::dpi:200.png".

(** The test of the [filter] callback on the properties of a record *)
Definition is_tornado_warning (properties : option (gmap string value)) : bool :=
  match properties with
  | None => false
  | Some p =>
      match get p "ps" with
      | VStr s => String.eqb s "Tornado Warning"
      | _ => false
      end
  end.

(** The callback of the [filter] call: reading [feature.properties]
    throws on [null]. *)
Definition filter_step (r : record) : exn + bool :=
  match r with
  | NullRecord => inl (TypeError "Cannot read properties of null (reading 'properties')")
  | OtherRecord => inr false
  | ObjectRecord _ properties _ => inr (is_tornado_warning properties)
  end.

(** The condition guarding the plot-image URL *)
Definition plot_guard (p : gmap string value) : bool :=
  truthy (get p "wfo") && truthy (get p "year") && truthy (get p "phenomena")
    && truthy (get p "significance") && truthy (get p "eventid").

(** The body of the [map] callback once the geometry has been read: for a
    record with identifier [i], properties [p] and geometry [geom], which
    reads as [read] *)
Definition to_warning_of (i : string) (p : gmap string value)
    (geom : option json) (read : option geometry) : WarningEvent :=
  let bbox := getBoundingBox read margin_0_2 in
  let issued := get p "issue" in
  let radmapUrl :=
    match bbox with
    | Some b => if truthy issued then Some (radmap_url b (formatTimestampForRadMap issued)) else None
    | None => None
    end in
  let nwstextUrl :=
    if truthy (get p "product_id") then Some (nwstext_url (get p "product_id")) else None in
  let plotImageUrl := if plot_guard p then Some (plot_url p) else None in
  {| id := i;
     properties := p;
     geometry_of := geom;
     wfo := get p "wfo";
     eventid := get p "eventid";
     status := get p "status";
     issued := get p "issue";
     expires := get p "expire_utc";
     polygonBegin := get p "polygon_begin";
     polygonEnd := get p "polygon_end";
     windtag := get p "windtag";
     hailtag := get p "hailtag";
     tornadotag := get p "tornadotag";
     isPDS := get p "is_pds";
     isEmergency := get p "is_emergency";
     productSignature := get p "product_signature";
     href := get p "href";
     radmapImageUrl := radmapUrl;
     plotImageUrl := plotImageUrl;
     nwstextUrl := nwstextUrl |}.

(** The body of the [map] callback for a well-formed record [f] that has
    properties [p] *)
Definition to_warning (f : feature) (p : gmap string value) : WarningEvent :=
  to_warning_of (f_id f) p (encode_geometry <$> f_geometry f) (f_geometry f).

(** The callback of the [map] call.  Reading the geometry may throw;
    reading [feature.properties.issue] throws on a record without
    properties, which the filter never keeps. *)
Definition map_step (r : record) : exn + WarningEvent :=
  match r with
  | NullRecord => inl (TypeError "Cannot read properties of null (reading 'geometry')")
  | OtherRecord => inl (TypeError "Cannot read properties of undefined (reading 'issue')")
  | ObjectRecord i properties geom =>
      match read_geometry geom with
      | inl e => inl e
      | inr read =>
          match properties with
          | None => inl (TypeError "Cannot read properties of undefined (reading 'issue')")
          | Some p => inr (to_warning_of i p geom read)
          end
      end
  end.

(** [parseTornadoWarnings]: nothing to extract without data or without
    features; otherwise the [filter] call and then the [map] call, each
    of which ends at the first exception of its callback, and calling
    [filter] itself throws when [features] is no array. *)
Definition parseTornadoWarnings (geoJsonData : option feed_body) : exn + list WarningEvent :=
  match geoJsonData with
  | None => inr []
  | Some (OtherBody _) => inr []
  | Some (ObjectBody NoFeatures) => inr []
  | Some (ObjectBody (NotAnArray _)) =>
      inl (TypeError "geoJsonData.features.filter is not a function")
  | Some (ObjectBody (Records fs)) =>
      match filter_result filter_step fs with
      | inl e => inl e
      | inr tornadoWarnings => map_result map_step tornadoWarnings
      end
  end.

(** [data.features ? data.features.length : 0] *)
Definition features_length (data : feed_body) : value :=
  match data with
  | ObjectBody (Records fs) => VNum (binary_normalize 53 1024 (Z.of_nat (length fs)) 0 false)
  | ObjectBody (NotAnArray length) => length
  | ObjectBody NoFeatures | OtherBody _ => VNum (S754_zero false)
  end.
End WithRuntime.

End Feed.

(** ** The process: state, network and the exception monad *)

Module Process.
Import JSString JSDate JSValue Timestamp Feed.

(** The body of the raw-text service: [products] is [None] when the
    member is missing or is not an array; [data] is [None] when missing. *)
Record product := { data : option string }.
Record nwstext := { products : option (list product) }.

(** An item of the discussion feed as [xml2js] delivers it.  [guid[0]] is
    a plain string for an element without attributes and an object with
    the text under [_] otherwise; [None] stands for a missing child. *)
Inductive guid_node :=
| GuidText (s : string)
| GuidAttr (text : option string).

Record md_item := {
  guid : option guid_node;
  link : option string;
  title : option string;
  description : option string
}.

(** The outcome of fetching and parsing the RSS document, up to
    [result.rss.channel[0].item] *)
Inductive rss_result :=
| RssParseError (message : string)
    (* the parser rejects the text *)
| RssEmpty
    (* the text is empty: the parser gives [null] *)
| RssNoRss
    (* the root element is not [rss] *)
| RssNoChannel
    (* the [rss] element has no [channel] child *)
| RssItems (items : option (list md_item)).
    (* the [item] children of the first channel, [None] when it has none *)

(** A multipart form: the [content] field and the optional [file] field
    with its file name *)
Record form := { content : string; file : option (string * string) }.

Inductive request :=
| GetFeed (url : string)
| GetText (url : string)
| GetBinary (url : string)
| GetRss (url : string)
| Post (url : string) (f : form).

(** The outside world.  The index is the number of network calls the
    process has made before; an answer [inl e] is a rejected promise. *)
Record world := {
  clock : nat -> Z;
  get_feed : nat -> string -> exn + option feed_body;
    (* [response.data]; [None] when it is falsy *)
  get_text : nat -> string -> exn + option nwstext;
  get_binary : nat -> string -> exn + string;
  get_rss : nat -> string -> exn + rss_result;
  post : nat -> string -> form -> exn + unit
}.

(** What a run leaves behind: the network calls made, and the outcome
    lines the loops print for each item they handle *)
Inductive event :=
| Call (r : request)
| SentWarning (id : string)
| FailedWarning (id : string) (message : string)
| SentMD (guid : string)
| ErrorMD (message : string).

Record state := {
  tornadoWarnings : list WarningEvent;
  lastUpdate : option string;
  lastMdIds : gset string;
  calls : nat;
  trace : list event
}.

Definition initial : state :=
  {| tornadoWarnings := []; lastUpdate := None; lastMdIds := ∅; calls := 0; trace := [] |}.

Definition M (A : Type) : Type := state -> (exn + A) * state.

#[export] Instance M_ret : MRet M := fun A (a : A) s => (inr a, s).
#[export] Instance M_bind : MBind M := fun A B (k : A -> M B) (m : M A) s =>
  match m s with
  | (inl e, s') => (inl e, s')
  | (inr a, s') => k a s'
  end.

Definition throw {A} (e : exn) : M A := fun s => (inl e, s).

(** [try { body } catch (err) { handler(err) }] *)
Definition try_catch {A} (body : M A) (handler : exn -> M A) : M A := fun s =>
  match body s with
  | (inl e, s') => handler e s'
  | r => r
  end.

Definition lift {A} (r : exn + A) : M A := fun s => (r, s).

Definition read {A} (f : state -> A) : M A := fun s => (inr (f s), s).

Definition log (e : event) : M unit := fun s =>
  (inr tt, {| tornadoWarnings := tornadoWarnings s; lastUpdate := lastUpdate s;
              lastMdIds := lastMdIds s; calls := calls s; trace := trace s ++ [e] |}).

(** A network call: it is recorded, counted and answered by the world. *)
Definition call {A} (r : request) (answer : nat -> exn + A) : M A := fun s =>
  (answer (calls s),
   {| tornadoWarnings := tornadoWarnings s; lastUpdate := lastUpdate s;
      lastMdIds := lastMdIds s; calls := S (calls s); trace := trace s ++ [Call r] |}).

Definition set_warnings (ws : list WarningEvent) : M unit := fun s =>
  (inr tt, {| tornadoWarnings := ws; lastUpdate := lastUpdate s;
              lastMdIds := lastMdIds s; calls := calls s; trace := trace s |}).

Definition set_lastUpdate (t : string) : M unit := fun s =>
  (inr tt, {| tornadoWarnings := tornadoWarnings s; lastUpdate := Some t;
              lastMdIds := lastMdIds s; calls := calls s; trace := trace s |}).

Definition add_md_id (g : string) : M unit := fun s =>
  (inr tt, {| tornadoWarnings := tornadoWarnings s; lastUpdate := lastUpdate s;
              lastMdIds := {[ g ]} ∪ lastMdIds s; calls := calls s; trace := trace s |}).

(** [for (const x of l) { body(x) }] *)
Fixpoint for_of {A} (l : list A) (body : A -> M unit) : M unit :=
  match l with
  | [] => mret tt
  | x :: l' => body x ≫= fun _ => for_of l' body
  end.

Definition nl : string := String (ascii_of_nat 10) EmptyString.
Definition dquote : ascii := ascii_of_nat 34.
(** U+200B, in UTF-8 *)
Definition zwsp : string :=
  String (ascii_of_nat 226) (String (ascii_of_nat 128) (String (ascii_of_nat 139) EmptyString)).

Definition API_BASE_URL : string := "https://mesonet.agron.iastate.edu/geojson/sbw.geojson".
Definition WARNING_WEBHOOK : string := "https://hook.us2.make.com/encxha5954hndv65p98is9prvx53qtua".
Definition MD_WEBHOOK : string := "https://hook.us2.make.com/2lfo732u8mwrpaabjdesea44s8iccn0c".
Definition MD_RSS_URL : string := "https://www.spc.noaa.gov/products/spcmdrss.xml".

(** The raw text of the first product, or the empty string *)
Definition text_of (r : option nwstext) : string :=
  match r with
  | Some {| products := Some (p :: _) |} => default "" (data p)
  | _ => ""
  end.

(** [${textData.substring(0,1800)}${textData.length>1800?'...':''}] *)
Definition raw_text_part (textData : string) : string :=
  substring0 1800 textData +:+ (if (1800 <? String.length textData)%nat then "..." else "").

(** *** The two regular expressions of the discussion loop *)

Fixpoint drop_prefix (p s : string) : option string :=
  match p, s with
  | EmptyString, _ => Some s
  | String a p', String b s' => if Ascii.eqb a b then drop_prefix p' s' else None
  | String _ _, EmptyString => None
  end.

(** The longest prefix free of [c], and the rest *)
Fixpoint span_not (c : ascii) (s : string) : string * string :=
  match s with
  | EmptyString => (EmptyString, EmptyString)
  | String a s' =>
      if Ascii.eqb a c then (EmptyString, s)
      else let '(u, r) := span_not c s' in (String a u, r)
  end.

Definition img_prefix : string := "<img src=" +:+ String dquote EmptyString.

(** A match of the pattern at the very start of [s]: the capture group *)
Definition img_at (s : string) : option string :=
  r ← drop_prefix img_prefix s;
  match span_not dquote r with
  | (String a u, String _ _) => Some (String a u)
  | _ => None
  end.

(** [desc.match(...)[1]] for the pattern that reads [<img src=], a double
    quote, one or more characters other than a double quote (the capture
    group) and a double quote: the leftmost match *)
Fixpoint img_match (s : string) : option string :=
  match img_at s with
  | Some u => Some u
  | None =>
      match s with
      | EmptyString => None
      | String _ s' => img_match s'
      end
  end.

(** [desc.replace(/<[^>]+>/g, '')].  [inside] holds the text read since
    an opening bracket that may still turn out to start a tag: a closing
    bracket with something in between ends the tag and the text is
    dropped, the end of the string gives the text back. *)
Fixpoint strip_tags_from (inside : option string) (s : string) : string :=
  match s with
  | EmptyString => default EmptyString inside
  | String c s' =>
      match inside with
      | None =>
          if Ascii.eqb c "<" then strip_tags_from (Some "<") s'
          else String c (strip_tags_from None s')
      | Some buf =>
          if Ascii.eqb c ">" then
            if String.eqb buf "<" then "<>" +:+ strip_tags_from None s'
            else strip_tags_from None s'
          else strip_tags_from (Some (buf +:+ String c EmptyString)) s'
      end
  end.

Definition strip_tags (s : string) : string := strip_tags_from None s.

Definition is_space (c : ascii) : bool :=
  let n := N_of_ascii c in
  ((9 <=? n) && (n <=? 13))%N || (n =? 32)%N || (n =? 160)%N.

Fixpoint trim_start (s : string) : string :=
  match s with
  | String c s' => if is_space c then trim_start s' else s
  | EmptyString => EmptyString
  end.

Fixpoint trim_end (s : string) : string :=
  match s with
  | String c s' =>
      match trim_end s' with
      | EmptyString => if is_space c then EmptyString else String c EmptyString
      | r => String c r
      end
  | EmptyString => EmptyString
  end.

Definition strip_and_trim (desc : string) : string := trim_end (trim_start (strip_tags desc)).

(** *** What a route answers: the status and the JSON envelope *)

Inductive response_body :=
| RangeBody (count : nat) (start end_ : string) (warnings : list WarningEvent)
| SimulateBody (sent failed count : nat)
| AllBody (count : value) (lastUpdate : string) (data : feed_body)
| ErrorBody (error : string).

Record http_response := { status_code : Z; body : response_body }.

Section WithWorld.
Context `{Runtime} (w : world).

Definition now : M Z := read (fun s => clock w (calls s)).

Definition axios_get_feed (url : string) : M (option feed_body) :=
  call (GetFeed url) (fun n => get_feed w n url).
Definition axios_get_text (url : string) : M (option nwstext) :=
  call (GetText url) (fun n => get_text w n url).
Definition axios_get_binary (url : string) : M string :=
  call (GetBinary url) (fun n => get_binary w n url).
Definition axios_get_rss (url : string) : M rss_result :=
  call (GetRss url) (fun n => get_rss w n url).
Definition axios_post (url : string) (f : form) : M unit :=
  call (Post url f) (fun n => post w n url f).

Definition getCurrentUTCTimestamp : M string :=
  t ← now; mret (toISOString t).

Definition fetchCurrentWarnings : M (option feed_body) :=
  try_catch
    (currentTime ← getCurrentUTCTimestamp;
     let url := API_BASE_URL +:+ "?ts=" +:+ currentTime in
     axios_get_feed url)
    (fun error => mret None).

Definition fetchWarningsForTimeRange (startTime endTime : string) : M (option feed_body) :=
  try_catch
    (formattedStartTime ← lift (validateAndFormatTimestamp startTime);
     formattedEndTime ← lift (validateAndFormatTimestamp endTime);
     let url := API_BASE_URL +:+ "?sts=" +:+ formattedStartTime +:+ "&ets=" +:+ formattedEndTime in
     axios_get_feed url)
    (fun error => mret None).

Definition warning_content (warning : WarningEvent) (textData : string) : string :=
  "**Tornado Warning**" +:+ nl +:+ "WFO: " +:+ to_string (wfo warning) +:+ nl
    +:+ "Event ID: " +:+ to_string (eventid warning) +:+ nl
    +:+ "Status: " +:+ to_string (status warning) +:+ nl
    +:+ "Expires: " +:+ to_string (expires warning) +:+ nl +:+ nl
    +:+ "**Raw Text:**" +:+ nl +:+ zwsp +:+ nl +:+ raw_text_part textData.

(** The statements inside the [try] of both warning loops, up to and
    including the POST *)
Definition send_warning (warning : WarningEvent) : M unit :=
  textData ←
    match nwstextUrl warning with
    | Some url => textResp ← axios_get_text url; mret (text_of textResp)
    | None => mret ""
    end;
  imageBuffer ←
    match plotImageUrl warning with
    | Some url => imageResp ← axios_get_binary url; mret (Some imageResp)
    | None => mret None
    end;
  let f := {| content := warning_content warning textData;
              file := (fun b => (b, "plot.png")) <$> imageBuffer |} in
  axios_post WARNING_WEBHOOK f.

Definition has (ids : gset string) (x : string) : bool := bool_decide (x ∈ ids).

(** [newTornadoWarnings.filter(w => !prevIds.has(w.id))] *)
Definition trulyNew (prev new : list WarningEvent) : list WarningEvent :=
  let prevIds : gset string := list_to_set (map id prev) in
  List.filter (fun w => negb (has prevIds (id w))) new.

(** The body of the loop over the new warnings: the [try] and its
    [catch], each ending in its outcome line *)
Definition dispatch_new (warning : WarningEvent) : M unit :=
  try_catch
    (send_warning warning;; log (SentWarning (id warning)))
    (fun err => log (FailedWarning (id warning) (message_of err))).

Definition monitorTornadoWarnings : M unit :=
  currentData ← fetchCurrentWarnings;
  match currentData with
  | Some data =>
      newTornadoWarnings ← lift (parseTornadoWarnings (Some data));
      previous ← read tornadoWarnings;
      for_of (trulyNew previous newTornadoWarnings) dispatch_new;;
      set_warnings newTornadoWarnings;;
      t ← now;
      set_lastUpdate (toISOString t)
  | None => mret tt
  end.

(** *** The discussion cycle *)

(** [item.guid[0]._ || item.link[0]] *)
Definition item_guid (item : md_item) : exn + string :=
  match guid item with
  | None => inl (TypeError "Cannot read properties of undefined (reading '0')")
  | Some g =>
      let text := match g with GuidAttr (Some t) => t | _ => "" end in
      if negb (String.eqb text "") then inr text
      else
        match link item with
        | None => inl (TypeError "Cannot read properties of undefined (reading '0')")
        | Some l => inr l
        end
  end.

(** [item.title[0]] *)
Definition item_title (item : md_item) : exn + string :=
  match title item with
  | None => inl (TypeError "Cannot read properties of undefined (reading '0')")
  | Some t => inr t
  end.

Definition md_content (title textContent : string) : string :=
  "**Mesoscale Discussion**" +:+ nl +:+ title +:+ nl +:+ nl +:+ textContent.

(** The part of the loop body after the identifier has been recorded *)
Definition send_md (item : md_item) (g : string) : M unit :=
  let desc := match description item with
              | Some d => if String.eqb d "" then None else Some d
              | None => None
              end in
  let imageUrl := desc ≫= img_match in
  let textContent := default "" (strip_and_trim <$> desc) in
  t ← lift (item_title item);
  let content := md_content t textContent in
  file ←
    match imageUrl with
    | Some url => imageResp ← axios_get_binary url; mret (Some (imageResp, "md.png"))
    | None => mret None
    end;
  axios_post MD_WEBHOOK {| content := content; file := file |};;
  log (SentMD g).

Definition md_loop_body (item : md_item) : M unit :=
  g ← lift (item_guid item);
  seen ← read (fun s => has (lastMdIds s) g);
  if seen : bool then (mret tt : M unit)
  else add_md_id g;; send_md item g.

(** [monitorMesoscaleDiscussions]: one [try] around the fetch, the
    parser, the reading of [result.rss.channel[0].item], which throws
    when a link of that chain is missing, and the loop over the items. *)
Definition monitorMesoscaleDiscussions : M unit :=
  try_catch
    (result ← axios_get_rss MD_RSS_URL;
     items ←
       match result with
       | RssParseError m => throw (Error m)
       | RssEmpty => throw (TypeError "Cannot read properties of null (reading 'rss')")
       | RssNoRss => throw (TypeError "Cannot read properties of undefined (reading 'channel')")
       | RssNoChannel => throw (TypeError "Cannot read properties of undefined (reading '0')")
       | RssItems items => mret (default [] items)
       end;
     for_of items md_loop_body)
    (fun err => log (ErrorMD (message_of err))).

(** *** The routes *)

(** [for (const warning of warnings) { try { ...; sent++ } catch { failed++ } }] *)
Fixpoint simulate_loop (warnings : list WarningEvent) (sent failed : nat) : M (nat * nat) :=
  match warnings with
  | [] => mret (sent, failed)
  | warning :: rest =>
      counts ← try_catch
                 (send_warning warning;; mret (S sent, failed))
                 (fun err => mret (sent, S failed));
      simulate_loop rest (fst counts) (snd counts)
  end.

Definition missing (param : option string) : bool :=
  match param with
  | None => true
  | Some v => String.eqb v ""
  end.

Definition missing_params : http_response :=
  {| status_code := 400;
     body := ErrorBody "Both start and end parameters are required (ISO8601 format)" |}.

(** [data ? parseTornadoWarnings(data) : []] *)
Definition warnings_of (data : option feed_body) : M (list WarningEvent) :=
  match data with
  | Some d => lift (parseTornadoWarnings (Some d))
  | None => mret []
  end.

(** [POST /api/simulate-tornado-warnings] *)
Definition simulate_route (start end_ : option string) : M http_response :=
  if missing start || missing end_ then mret missing_params
  else
    let start := default "" start in
    let end_ := default "" end_ in
    try_catch
      (data ← fetchWarningsForTimeRange start end_;
       warnings ← warnings_of data;
       counts ← simulate_loop warnings 0%nat 0%nat;
       mret {| status_code := 200;
               body := SimulateBody (fst counts) (snd counts) (length warnings) |})
      (fun error => mret {| status_code := 500; body := ErrorBody (message_of error) |}).

(** [GET /api/tornado-warnings/range] *)
Definition range_route (start end_ : option string) : M http_response :=
  if missing start || missing end_ then mret missing_params
  else
    let start := default "" start in
    let end_ := default "" end_ in
    try_catch
      (data ← fetchWarningsForTimeRange start end_;
       warnings ← warnings_of data;
       mret {| status_code := 200;
               body := RangeBody (length warnings) start end_ warnings |})
      (fun error => mret {| status_code := 500; body := ErrorBody (message_of error) |}).

(** [GET /api/all-warnings] *)
Definition all_warnings_route : M http_response :=
  try_catch
    (data ← fetchCurrentWarnings;
     match data with
     | None => mret {| status_code := 500; body := ErrorBody "Failed to fetch data from API" |}
     | Some d =>
         t ← now;
         mret {| status_code := 200;
                 body := AllBody (features_length d) (toISOString t) d |}
     end)
    (fun error => mret {| status_code := 500; body := ErrorBody (message_of error) |}).

(** *** The life of the process

    The scheduler fires the two cycles and clients call the routes, in
    any order; a handler runs to its end before the next one starts.
    The routes that only read the state are left out.  A tornado cycle
    that ends in an exception is a rejected promise that nobody handles:
    the state stays as the cycle left it, and where the engine ends the
    process on such a rejection the life of the process is the run up to
    there. *)
Inductive action :=
| TornadoTick
| DiscussionTick
| SimulateRequest (start end_ : option string)
| RangeRequest (start end_ : option string)
| AllWarningsRequest.

Definition perform (a : action) (s : state) : state :=
  match a with
  | TornadoTick => snd (monitorTornadoWarnings s)
  | DiscussionTick => snd (monitorMesoscaleDiscussions s)
  | SimulateRequest start end_ => snd (simulate_route start end_ s)
  | RangeRequest start end_ => snd (range_route start end_ s)
  | AllWarningsRequest => snd (all_warnings_route s)
  end.

Definition run (actions : list action) (s : state) : state :=
  fold_left (fun s a => perform a s) actions s.
End WithWorld.

End Process.


(** ** Notions used to state the properties *)

Module Spec.
Import JSString JSDate JSValue Timestamp Feed Process.

(** An engine without parsing heuristics of its own, running in UTC,
    which prints the integral part of a number and reads a string of
    decimal digits as that integer: the engine at which the general
    results below are instantiated. *)
#[export] Instance plain_runtime : Runtime :=
  {| legacy_parse := fun _ => None;
     local_tza := fun _ => 0;
     number_to_string := fun x => default "NaN" (of_Z <$> trunc x);
     string_to_number := fun s =>
       match NilZero.int_of_string s with
       | Some n => binary_normalize 53 1024 (Z.of_int n) 0 false
       | None => S754_nan
       end |}.

#[export] Instance spec_float_eq_dec : EqDecision spec_float.
Proof. solve_decision. Defined.

#[export] Instance value_eq_dec : EqDecision value.
Proof. solve_decision. Defined.

(** The records of a body: the elements of its [features] array *)
Definition records (body : option feed_body) : list record :=
  match body with
  | Some (ObjectBody (Records fs)) => fs
  | _ => []
  end.

(** The record is an object whose phenomenon label is exactly
    [Tornado Warning]. *)
Definition labelled_tornado (r : record) : Prop :=
  match r with
  | ObjectRecord _ properties _ => properties ≫= (.!! "ps") = Some (VStr "Tornado Warning")
  | _ => False
  end.

#[export] Instance labelled_tornado_dec (r : record) : Decision (labelled_tornado r).
Proof. destruct r; apply _. Defined.

(** The event [w] carries the identifier, properties and geometry of the
    record. *)
Definition extracted_from (r : record) (w : WarningEvent) : Prop :=
  match r with
  | ObjectRecord i properties geom =>
      id w = i ∧ properties = Some (Feed.properties w) ∧ geometry_of w = geom
  | _ => False
  end.



(** The geometry of the record cannot be read: reading it throws [e]. *)
Definition unreadable `{Runtime} (r : record) (e : exn) : Prop :=
  match r with
  | ObjectRecord _ _ geom => read_geometry geom = inl e
  | _ => False
  end.

(** The five identification properties behind the plot image *)
Definition plot_keys : list string := ["wfo"; "year"; "phenomena"; "significance"; "eventid"].

(** The positions of a polygon or multi-polygon, ring after ring *)
Inductive positions_of : geometry -> list position -> Prop :=
| positions_polygon rings : positions_of (Polygon (Some rings)) (concat rings)
| positions_multi polys : positions_of (MultiPolygon (Some polys)) (concat (concat polys)).

Definition b64_leb : spec_float -> spec_float -> bool := SFleb.

Definition is_number (x : spec_float) : Prop := x ≠ S754_nan.

(** [m] is the minimum (maximum) of the numbers [l]. *)
Definition is_min (m : spec_float) (l : list spec_float) : Prop :=
  m ∈ l ∧ ∀ x, x ∈ l → b64_leb m x = true.
Definition is_max (m : spec_float) (l : list spec_float) : Prop :=
  m ∈ l ∧ ∀ x, x ∈ l → b64_leb x m = true.

(** The steps of the two folds in [Math_min] and [Math_max] *)
Definition min_step (lowest x : spec_float) : spec_float :=
  if (is_neg_zero x && is_pos_zero lowest) || b64_ltb x lowest then x else lowest.
Definition max_step (highest x : spec_float) : spec_float :=
  if (is_pos_zero x && is_neg_zero highest) || b64_ltb highest x then x else highest.

Definition longitudes (coords : list position) : list spec_float := map (coord 0) coords.
Definition latitudes (coords : list position) : list spec_float := map (coord 1) coords.

(** The binary64 number of an integer *)
Definition b64_of_Z (z : Z) : spec_float := binary_normalize 53 1024 z 0 false.

(** A rectangle from 94 to 93 degrees west and from 41 to 42 degrees
    north, as a closed ring *)
Definition rectangle : list (list position) :=
  [[ [b64_of_Z (-94); b64_of_Z 41]; [b64_of_Z (-93); b64_of_Z 41];
     [b64_of_Z (-93); b64_of_Z 42]; [b64_of_Z (-94); b64_of_Z 42];
     [b64_of_Z (-94); b64_of_Z 41] ]].

(** The events a stretch of trace reports an outcome for, sent or failed *)
Definition dispatched (tr : list event) : list string :=
  omap (fun e => match e with
                 | SentWarning i | FailedWarning i _ => Some i
                 | _ => None
                 end) tr.

(** What the trace gained between two states *)
Definition new_events (s s' : state) : list event := drop (length (trace s)) (trace s').

(** The requests for the raw text and the plot image of an event, as far
    as it has the URLs *)
Definition fetches (e : WarningEvent) : list request :=
  match nwstextUrl e with Some url => [GetText url] | None => [] end
    ++ match plotImageUrl e with Some url => [GetBinary url] | None => [] end.

(** The form carries the summary lines of [e], followed by some raw text. *)
Definition form_of `{Runtime} (e : WarningEvent) (f : form) : Prop :=
  ∃ text, content f = warning_content e text.

(** The world rejects a request for a text or an image, with message
    [m]. *)
Definition rejects_fetch (w : world) (m : string) : Prop :=
  ∃ n url e, (get_text w n url = inl e ∨ get_binary w n url = inl e) ∧ m = message_of e.

(** What the dispatch of [e] adds to the trace: the requests for its text
    and image, the POST of its form to the webhook and the line that it
    was sent; or the same with a rejected POST and the line that it
    failed; or, when one of the two requests is rejected, the requests
    up to that one, no POST, and the line that it failed. *)
Inductive dispatch_trace `{Runtime} (w : world) (e : WarningEvent) : list event -> Prop :=
| dispatch_sent f :
    form_of e f →
    dispatch_trace w e (map Call (fetches e)
                          ++ [Call (Post WARNING_WEBHOOK f); SentWarning (id e)])
| dispatch_rejected f m :
    form_of e f →
    dispatch_trace w e (map Call (fetches e)
                          ++ [Call (Post WARNING_WEBHOOK f); FailedWarning (id e) m])
| dispatch_unfetched done rest m :
    fetches e = done ++ rest → done ≠ [] → rejects_fetch w m →
    dispatch_trace w e (map Call done ++ [FailedWarning (id e) m]).


(** The raw text a dispatch started in state [s] fetches for [warning] *)
Definition fetched_text (w : world) (s : state) (warning : WarningEvent) : string :=
  match nwstextUrl warning with
  | Some url =>
      match get_text w (calls s) url with
      | inr r => text_of r
      | inl _ => ""
      end
  | None => ""
  end.

(** The request the tornado cycle issues in state [s], and its answer *)
Definition feed_url (w : world) (s : state) : string :=
  API_BASE_URL +:+ "?ts=" +:+ toISOString (clock w (calls s)).
Definition feed_answer (w : world) (s : state) : exn + option feed_body :=
  get_feed w (calls s) (feed_url w s).

(** The fetch failed, or it brought an empty body. *)
Definition no_data (answer : exn + option feed_body) : Prop :=
  match answer with
  | inr (Some _) => False
  | _ => True
  end.




(** *** Timestamps written out *)

(** [pad k n] reads back as [n] and has no letter [T] or [Z]. *)
Definition reads_back (k : nat) (n : Z) : bool :=
  match read_digits k 0 (pad k n) with
  | Some (v, EmptyString) => v =? n
  | _ => false
  end
  && negb (includes "T" (pad k n)) && negb (includes "Z" (pad k n)).

Definition plain_digits (k : nat) (n : Z) : Prop :=
  read_digits k 0 (pad k n) = Some (n, EmptyString)
  ∧ includes "T" (pad k n) = false ∧ includes "Z" (pad k n) = false.

(** A date as [YYYY-MM-DD] and a time of day as [HH:mm:ss] *)
Definition iso_date (y mo d : Z) : string :=
  pad 4 y +:+ "-" +:+ pad 2 mo +:+ "-" +:+ pad 2 d.
Definition iso_time (h mi se : Z) : string :=
  pad 2 h +:+ ":" +:+ pad 2 mi +:+ ":" +:+ pad 2 se.

Definition legal_date (y mo d : Z) : Prop :=
  0 <= y <= 9999 ∧ 1 <= mo <= 12 ∧ 1 <= d <= 31.
Definition legal_time (h mi se : Z) : Prop :=
  0 <= h <= 23 ∧ 0 <= mi <= 59 ∧ 0 <= se <= 59.

(** The time value of a date and a time of day in UTC *)
Definition utc_time (y mo d h mi se : Z) : Z :=
  MakeDate (MakeDay y (mo - 1) d) (MakeTime h mi se 0).

(** *** Sample inputs *)

(** A feed record labelled as a tornado warning, with nothing else *)
Definition tornado_record (i : string) : feature :=
  {| f_id := i;
     f_properties := Some {[ "ps" := VStr "Tornado Warning" ]};
     f_geometry := None |}.

Definition feed_of (ids : list string) : feed_document :=
  {| features := Some (tornado_record <$> ids) |}.

(** The feed lists A and B when first asked and B and C from then on;
    every other request succeeds. *)
Definition world_AB_BC : world :=
  {| clock := fun _ => 0;
     get_feed := fun n _ =>
       inr (Some (document (feed_of (if (n =? 0)%nat then ["A"; "B"] else ["B"; "C"]))));
     get_text := fun _ _ => inr None;
     get_binary := fun _ _ => inr "";
     get_rss := fun _ _ => inr (RssItems None);
     post := fun _ _ _ => inr tt |}.

(** A body that lists a tornado warning and then [null], and a world
    whose feed always sends it *)
Definition body_with_null : feed_body :=
  ObjectBody (Records [encode_feature (tornado_record "A"); NullRecord]).

Definition world_with_null : world :=
  {| clock := fun _ => 0;
     get_feed := fun _ _ => inr (Some body_with_null);
     get_text := fun _ _ => inr None;
     get_binary := fun _ _ => inr "";
     get_rss := fun _ _ => inr (RssItems None);
     post := fun _ _ _ => inr tt |}.



Definition discussion (g : string) (t : string) : md_item :=
  {| guid := Some (GuidAttr (Some g)); link := Some g; title := Some t;
     description := None |}.

(** The discussion feed has two items; the first POST of the process is
    rejected. *)
Definition world_md_fail : world :=
  {| clock := fun _ => 0;
     get_feed := fun _ _ => inr None;
     get_text := fun _ _ => inr None;
     get_binary := fun _ _ => inr "";
     get_rss := fun _ _ =>
       inr (RssItems (Some [discussion "md-1" "MD 1"; discussion "md-2" "MD 2"]));
     post := fun n _ _ => if (n =? 1)%nat then inl (Error "socket hang up") else inr tt |}.

(** A record with all five identification properties, the event number
    being zero *)
Definition record_with_event_zero : gmap string value :=
  list_to_map [("ps", VStr "Tornado Warning"); ("wfo", VStr "DMX");
               ("year", VNum (b64_of_Z 2024)); ("phenomena", VStr "TO");
               ("significance", VStr "W"); ("eventid", VNum (b64_of_Z 0))].

(** A raw text of 1801 characters, a world that serves it, and a warning
    that has a raw-text URL and no plot-image URL *)
Definition long_text : string := replicate0 1801.

Definition world_long_text : world :=
  {| clock := fun _ => 0;
     get_feed := fun _ _ => inr None;
     get_text := fun _ _ => inr (Some {| products := Some [ {| data := Some long_text |} ] |});
     get_binary := fun _ _ => inr "";
     get_rss := fun _ _ => inr (RssItems None);
     post := fun _ _ _ => inr tt |}.

Definition warning_with_text : WarningEvent :=
  to_warning (tornado_record "A")
    {[ "ps" := VStr "Tornado Warning"; "product_id" := VStr "202405261900-KDMX-WFUS53-TORDMX" ]}.

(** The relations between the state before and after a computation that
    the handlers are shown to respect *)
Definition same_store (s s' : state) : Prop :=
  tornadoWarnings s' = tornadoWarnings s ∧ lastUpdate s' = lastUpdate s
  ∧ lastMdIds s' = lastMdIds s.

(** only network calls happened *)
Definition only_calls (s s' : state) : Prop :=
  same_store s s' ∧ ∃ tr, trace s' = trace s ++ tr ∧ dispatched tr = [].

(** the seen-set did not shrink *)
Definition md_grows (s s' : state) : Prop := lastMdIds s ⊆ lastMdIds s'.

(** From a state that has [g] in the seen-set: [g] stays there and no
    discussion with that identifier is reported sent. *)
Definition stays_seen (g : string) (s s' : state) : Prop :=
  g ∈ lastMdIds s →
  g ∈ lastMdIds s' ∧ ∃ tr, trace s' = trace s ++ tr ∧ SentMD g ∉ tr.

(** A computation respects [R] when [R] relates every state to the state
    the computation leaves, whether it returns or throws. *)
Definition preserves (R : relation state) {A} (m : M A) : Prop :=
  ∀ s, R s (snd (m s)).

End Spec.

(** ** The routes that only read the state *)

Module Readers.
Import JSValue Feed Process.

(** The envelope of [GET /api/tornado-warnings] *)
Record tracked_report := {
  report_count : nat;
  report_lastUpdate : option string;
  report_warnings : list WarningEvent
}.

(** The envelope of [GET /health]; [uptime] is what [process.uptime()]
    gives *)
Record health_report := {
  health_uptime : spec_float;
  health_lastUpdate : option string;
  health_currentWarnings : nat
}.

(** [GET /api/tornado-warnings] *)
Definition tornado_warnings_route : M tracked_report :=
  read (fun s => {| report_count := length (tornadoWarnings s);
                    report_lastUpdate := lastUpdate s;
                    report_warnings := tornadoWarnings s |}).

(** [GET /health] *)
Definition health_route (uptime : spec_float) : M health_report :=
  read (fun s => {| health_uptime := uptime;
                    health_lastUpdate := lastUpdate s;
                    health_currentWarnings := length (tornadoWarnings s) |}).

End Readers.

(** ** Further notions: calendar dates, markup, the discussion cycle *)

Module Notions.
Import JSString JSDate JSValue Timestamp Feed Process Spec.

(** The number of days of month [mo] (1 to 12) of year [y] *)
Definition days_in_month (y mo : Z) : Z :=
  monthStart (isLeap y) mo - monthStart (isLeap y) (mo - 1).

(** A date of the calendar, in the years 0 to 9999 *)
Definition real_date (y mo d : Z) : Prop :=
  0 <= y <= 9999 ∧ 1 <= mo <= 12 ∧ 1 <= d <= days_in_month y mo.

(** The character [c] does not occur in [s]. *)
Fixpoint free_of (c : ascii) (s : string) : bool :=
  match s with
  | EmptyString => true
  | String a s' => negb (Ascii.eqb a c) && free_of c s'
  end.

(** Every character of [s] is white space. *)
Fixpoint all_space (s : string) : bool :=
  match s with
  | EmptyString => true
  | String c s' => is_space c && all_space s'
  end.

Definition starts_with_space (s : string) : bool :=
  match s with
  | String c _ => is_space c
  | EmptyString => false
  end.

Fixpoint ends_with_space (s : string) : bool :=
  match s with
  | EmptyString => false
  | String c EmptyString => is_space c
  | String _ s' => ends_with_space s'
  end.

(** The event was extracted from a record labelled as a tornado warning. *)
Definition is_tornado_event (e : WarningEvent) : Prop :=
  get (properties e) "ps" = VStr "Tornado Warning".

(** The tracked list and the time of the last update are as before. *)
Definition keeps_tracked (s s' : state) : Prop :=
  tornadoWarnings s' = tornadoWarnings s ∧ lastUpdate s' = lastUpdate s.

(** The seen-set is as before. *)
Definition keeps_seen (s s' : state) : Prop := lastMdIds s' = lastMdIds s.



(** *** Further sample inputs *)

(** The feed has the same discussion at both ends of three items, and
    every request succeeds. *)
Definition repeated_discussions : list md_item :=
  [discussion "md-1" "MD 1"; discussion "md-2" "MD 2"; discussion "md-1" "MD 1"].

Definition world_md_repeat : world :=
  {| clock := fun _ => 0;
     get_feed := fun _ _ => inr None;
     get_text := fun _ _ => inr None;
     get_binary := fun _ _ => inr "";
     get_rss := fun _ _ => inr (RssItems (Some repeated_discussions));
     post := fun _ _ _ => inr tt |}.

(** A state in which both discussions of that feed have been seen *)
Definition seen_both : state :=
  {| tornadoWarnings := []; lastUpdate := None; lastMdIds := {[ "md-1"; "md-2" ]};
     calls := 0; trace := [] |}.

(** A discussion whose description is a paragraph with an image, some
    text and a trailing blank *)
Definition image_address : string := "https://www.spc.noaa.gov/products/md/mcd0001.png".

Definition discussion_with_image : md_item :=
  {| guid := Some (GuidAttr (Some "md-7")); link := Some "md-7"; title := Some "MD 7";
     description :=
       Some ("<p>" +:+ img_prefix +:+ image_address
               +:+ String dquote "></p>Storms likely. ") |}.

(** A warning that has a raw-text address and a plot-image address *)
Definition record_with_event_12 : gmap string value :=
  list_to_map [("ps", VStr "Tornado Warning"); ("wfo", VStr "DMX");
               ("year", VNum (b64_of_Z 2024)); ("phenomena", VStr "TO");
               ("significance", VStr "W"); ("eventid", VNum (b64_of_Z 12));
               ("product_id", VStr "202405261900-KDMX-WFUS53-TORDMX")].

Definition warning_with_plot : WarningEvent :=
  to_warning (tornado_record "A") record_with_event_12.


(** Nothing can be reached: every request is rejected. *)
Definition world_offline : world :=
  {| clock := fun _ => 0;
     get_feed := fun _ _ => inl (Error "getaddrinfo ENOTFOUND");
     get_text := fun _ _ => inl (Error "getaddrinfo ENOTFOUND");
     get_binary := fun _ _ => inl (Error "getaddrinfo ENOTFOUND");
     get_rss := fun _ _ => inl (Error "getaddrinfo ENOTFOUND");
     post := fun _ _ _ => inl (Error "getaddrinfo ENOTFOUND") |}.

End Notions.

(** ** The calendar of the [Date] model *)

Section Calendar.
Import JSDate.

Lemma YearFromDay_spec (d : Z) :
  DayFromYear (YearFromDay d) <= d < DayFromYear (YearFromDay d + 1).
Proof.
  unfold YearFromDay.
  set (y := 1970 + d * 400 / 146097).
  destruct (Z.leb_spec (DayFromYear (y + 1)) d) as [H1|H1].
  - split; [assumption|]. unfold DayFromYear in *. subst y.
    Z.div_mod_to_equations. lia.
  - destruct (Z.ltb_spec d (DayFromYear y)) as [H2|H2].
    + split; [|replace (y - 1 + 1) with y by lia; assumption].
      unfold DayFromYear in *. subst y. Z.div_mod_to_equations. lia.
    + split; assumption.
Qed.

Lemma year_length (y : Z) :
  DayFromYear (y + 1) - DayFromYear y = if isLeap y then 366 else 365.
Proof.
  unfold DayFromYear, isLeap.
  destruct (Z.eqb_spec (y mod 4) 0), (Z.eqb_spec (y mod 100) 0), (Z.eqb_spec (y mod 400) 0);
    simpl; Z.div_mod_to_equations; lia.
Qed.

Lemma DayWithinYear_range (t : Z) :
  0 <= DayWithinYear t < if isLeap (YearFromTime t) then 366 else 365.
Proof.
  unfold DayWithinYear, YearFromTime.
  pose proof (YearFromDay_spec (Day t)) as Hy.
  pose proof (year_length (YearFromDay (Day t))) as Hl.
  destruct (isLeap (YearFromDay (Day t))); lia.
Qed.

Lemma monthOfDay_spec (leap : bool) (diy : Z) :
  0 <= diy < (if leap then 366 else 365) →
  let m := monthOfDay 11 leap 0 diy in
  0 <= m <= 11 ∧ monthStart leap m <= diy < monthStart leap (m + 1).
Proof.
  intros Hd. unfold monthOfDay.
  repeat match goal with
         | |- context [?a <? ?b] => destruct (Z.ltb_spec a b)
         end; destruct leap; simpl in *; lia.
Qed.

(** The UTC fields of a time value are in range. *)
Lemma fields_in_range (t : Z) :
  0 <= MonthFromTime t <= 11 ∧ 1 <= DateFromTime t <= 31
  ∧ 0 <= HourFromTime t <= 23 ∧ 0 <= MinFromTime t <= 59
  ∧ 0 <= SecFromTime t <= 59 ∧ 0 <= msFromTime t <= 999.
Proof.
  pose proof (DayWithinYear_range t) as Hd.
  pose proof (monthOfDay_spec (isLeap (YearFromTime t)) (DayWithinYear t) Hd) as [Hm Hs].
  unfold DateFromTime, MonthFromTime in *.
  set (m := monthOfDay 11 (isLeap (YearFromTime t)) 0 (DayWithinYear t)) in *.
  split; [lia|]. split.
  - assert (Hcase : m = 0 ∨ m = 1 ∨ m = 2 ∨ m = 3 ∨ m = 4 ∨ m = 5 ∨ m = 6 ∨ m = 7
                    ∨ m = 8 ∨ m = 9 ∨ m = 10 ∨ m = 11) by lia.
    destruct (isLeap (YearFromTime t));
      repeat (destruct Hcase as [Hcase | Hcase]; [rewrite Hcase in *; simpl in *; lia|]);
      rewrite Hcase in *; simpl in *; lia.
  - unfold HourFromTime, MinFromTime, SecFromTime, msFromTime,
      msPerHour, msPerMinute, msPerSecond.
    Z.div_mod_to_equations. lia.
Qed.

(** The UTC fields of a time value make up that time value. *)
Lemma fields_compose (t : Z) :
  MakeDate (MakeDay (YearFromTime t) (MonthFromTime t) (DateFromTime t))
           (MakeTime (HourFromTime t) (MinFromTime t) (SecFromTime t) (msFromTime t)) = t.
Proof.
  pose proof (DayWithinYear_range t) as Hd.
  pose proof (monthOfDay_spec (isLeap (YearFromTime t)) (DayWithinYear t) Hd) as [Hm Hs].
  unfold MakeDate, MakeDay, MakeTime, DateFromTime, MonthFromTime in *.
  set (m := monthOfDay 11 (isLeap (YearFromTime t)) 0 (DayWithinYear t)) in *.
  replace (m / 12) with 0 by (Z.div_mod_to_equations; lia).
  replace (m mod 12) with m by (Z.div_mod_to_equations; lia).
  rewrite Z.add_0_r.
  unfold DayWithinYear, HourFromTime, MinFromTime, SecFromTime, msFromTime, Day,
    msPerDay, msPerHour, msPerMinute, msPerSecond in *.
  Z.div_mod_to_equations. lia.
Qed.

End Calendar.

(** ** Properties of the extractor *)

Section Extractor.
Import JSString JSDate JSValue Timestamp Feed Process Spec.
Context `{Runtime}.

Lemma is_tornado_warning_spec (i : string) (properties : option (gmap string value))
    (geom : option json) :
  is_tornado_warning properties = true ↔ labelled_tornado (ObjectRecord i properties geom).
Proof.
  unfold is_tornado_warning, labelled_tornado, get.
  destruct properties as [p|]; simpl; [|split; discriminate].
  destruct (p !! "ps") as [[| | |x|s]|]; simpl; try (split; discriminate).
  rewrite String.eqb_eq. split; congruence.
Qed.

Lemma filter_step_spec (r : record) :
  r ≠ NullRecord → filter_step r = inr (bool_decide (labelled_tornado r)).
Proof.
  intros Hr. destruct r as [| |i properties geom]; [done | reflexivity|].
  simpl filter_step. f_equal.
  destruct (is_tornado_warning properties) eqn:E.
  - symmetry. apply bool_decide_eq_true. by apply is_tornado_warning_spec.
  - symmetry. apply bool_decide_eq_false. intros Hl.
    apply (is_tornado_warning_spec i properties geom) in Hl. congruence.
Qed.

Lemma filter_tornado (fs : list record) :
  NullRecord ∉ fs → filter_result filter_step fs = inr (filter labelled_tornado fs).
Proof.
  induction fs as [|r fs IH]; intros Hnull; [reflexivity|].
  apply not_elem_of_cons in Hnull as [Hr Hfs].
  simpl. rewrite (filter_step_spec r) by congruence. rewrite (IH Hfs), filter_cons.
  destruct (decide (labelled_tornado r)) as [Hl|Hl].
  - by rewrite bool_decide_eq_true_2.
  - by rewrite bool_decide_eq_false_2.
Qed.

Lemma filter_null (fs : list record) :
  NullRecord ∈ fs →
  filter_result filter_step fs
  = inl (TypeError "Cannot read properties of null (reading 'properties')").
Proof.
  induction fs as [|r fs IH]; intros Hnull; [by apply elem_of_nil in Hnull|].
  assert (Hr : r = NullRecord ∨ r ≠ NullRecord) by (destruct r; auto).
  destruct Hr as [->|Hr]; [reflexivity|].
  apply elem_of_cons in Hnull as [Heq|Hin]; [congruence|].
  simpl. rewrite (filter_step_spec r Hr), (IH Hin). reflexivity.
Qed.

Lemma null_or_not (fs : list record) : NullRecord ∈ fs ∨ NullRecord ∉ fs.
Proof.
  induction fs as [|r fs [IH|IH]].
  - right. apply not_elem_of_nil.
  - left. by apply list_elem_of_further.
  - destruct r; [left; apply list_elem_of_here | right..];
      apply not_elem_of_cons; by split.
Qed.

Lemma map_step_labelled (r : record) :
  labelled_tornado r →
  match map_step r with
  | inr w => extracted_from r w
  | inl e => unreadable r e
  end.
Proof.
  destruct r as [| |i properties geom]; try done. simpl. intros Hl.
  destruct (read_geometry geom) as [e|read]; [reflexivity|].
  destruct properties as [p|]; [|discriminate]. simpl. auto.
Qed.

Lemma map_result_extracts (fs : list record) (ws : list WarningEvent) :
  Forall labelled_tornado fs → map_result map_step fs = inr ws →
  Forall2 extracted_from fs ws.
Proof.
  intros Hl. revert ws. induction Hl as [|r fs Hr _ IH]; intros ws; simpl.
  - intros [= <-]. constructor.
  - pose proof (map_step_labelled r Hr) as Hstep.
    destruct (map_step r) as [e|w]; [discriminate|].
    destruct (map_result map_step fs) as [e|ws']; [discriminate|].
    intros [= <-]. constructor; [assumption | by apply IH].
Qed.



Lemma filter_labelled (fs : list record) : Forall labelled_tornado (filter labelled_tornado fs).
Proof. apply list.Forall_forall. intros r Hr. by apply list_elem_of_filter in Hr as [? _]. Qed.


Lemma parse_extracts (body : option feed_body) (ws : list WarningEvent) :
  parseTornadoWarnings body = inr ws →
  Forall2 extracted_from (filter labelled_tornado (records body)) ws.
Proof.
  intros Hparse. destruct body as [[[|len|fs]|j]|]; simpl in *;
    try (injection Hparse as <-; constructor); try discriminate.
  destruct (null_or_not fs) as [Hnull|Hnull].
  - rewrite (filter_null fs Hnull) in Hparse. discriminate.
  - rewrite (filter_tornado fs Hnull) in Hparse.
    eapply map_result_extracts; [apply filter_labelled | exact Hparse].
Qed.


Lemma plot_guard_spec (p : gmap string value) :
  plot_guard p = true ↔ Forall (fun k => truthy (get p k) = true) plot_keys.
Proof.
  unfold plot_guard, plot_keys. rewrite !andb_true_iff.
  split.
  - intros [[[[? ?] ?] ?] ?]. repeat constructor; assumption.
  - intros Hall. repeat (apply Forall_cons in Hall as [? Hall]). tauto.
Qed.

Lemma get_delete (p : gmap string value) (k : string) : get (delete k p) k = VUndefined.
Proof. unfold get. by rewrite lookup_delete_eq. Qed.

(** C4, as the code has it.  The plot-image URL is emitted exactly when
    each of the five identification properties has a truthy value; it is
    then the full URL with the five values, and otherwise absent.
    Removing any one of the five from a record leaves the URL absent. *)
Theorem plotImageUrl_iff_all_truthy (f : feature) (p : gmap string value) :
  ((plotImageUrl (to_warning f p) = Some (plot_url p)
      ∧ Forall (fun k => truthy (get p k) = true) plot_keys)
   ∨ (plotImageUrl (to_warning f p) = None
      ∧ Exists (fun k => truthy (get p k) = false) plot_keys))
  ∧ Forall (fun k => plotImageUrl (to_warning f (delete k p)) = None) plot_keys.
Proof.
  split.
  - simpl. destruct (plot_guard p) eqn:E.
    + left. split; [reflexivity|]. by apply plot_guard_spec.
    + right. split; [reflexivity|].
      unfold plot_guard in E. unfold plot_keys.
      repeat (match goal with
              | |- Exists _ (?k :: _) =>
                  destruct (truthy (get p k)) eqn:?;
                    [apply Exists_cons_tl | by apply Exists_cons_hd]
              end).
      discriminate E.
  - unfold plot_keys. repeat constructor; simpl;
      unfold plot_guard; rewrite get_delete; simpl;
      rewrite ?andb_false_r; reflexivity.
Qed.


(** *** Well-formed documents are read as they are *)

Lemma to_number_element (i : nat) (p : position) :
  to_number (element i (encode_position p)) = coord i p.
Proof.
  unfold encode_position, element, coord. revert i.
  induction p as [|x p IH]; intros [|i]; simpl; try reflexivity. apply IH.
Qed.

Lemma map_result_cons {A B} (step : A -> exn + B) (f : A) (fs : list A) :
  map_result step (f :: fs)
  = match step f with
    | inl e => inl e
    | inr w => match map_result step fs with inl e => inl e | inr ws => inr (w :: ws) end
    end.
Proof. reflexivity. Qed.

Lemma read_position_encode (p : position) :
  read_position (encode_position p) = inr [coord 0 p; coord 1 p].
Proof.
  unfold read_position. rewrite !to_number_element. reflexivity.
Qed.

Lemma read_positions_encode (ps : list position) :
  map_result read_position (map encode_position ps)
  = inr (map (fun p => [coord 0 p; coord 1 p]) ps).
Proof.
  induction ps as [|p ps IH]; [reflexivity|].
  change (map encode_position (p :: ps)) with (encode_position p :: map encode_position ps).
  by rewrite map_result_cons, read_position_encode, IH.
Qed.

Lemma flat1_rings (rings : list (list position)) :
  flat1 (map encode_ring rings) = map encode_position (concat rings).
Proof.
  unfold flat1. induction rings as [|ring rings IH]; [reflexivity|].
  simpl. by rewrite IH, map_app.
Qed.

Lemma flat1_polys (polys : list (list (list position))) :
  flat1 (map (fun rings => JArr (map encode_ring rings)) polys)
  = map encode_ring (concat polys).
Proof.
  unfold flat1. induction polys as [|rings polys IH]; [reflexivity|].
  simpl. by rewrite IH, map_app.
Qed.

Lemma coords_read (i : nat) (ps : list position) :
  map (coord i) (map (fun p => [coord 0 p; coord 1 p]) ps ++ []) = map (coord i) ps
  ∨ (2 ≤ i)%nat.
Proof.
  destruct i as [|[|i]]; [left | left | right; lia];
    rewrite app_nil_r, map_map; reflexivity.
Qed.

Lemma box_of_read (ps : list position) (margin : spec_float) (g : geometry) :
  flat_coords g = Some (map (fun p => [coord 0 p; coord 1 p]) ps ++ []) →
  getBoundingBox (Some g) margin
  = Some {| xmin := b64_sub (Math_min (map (coord 0) ps)) margin;
            ymin := b64_sub (Math_min (map (coord 1) ps)) margin;
            xmax := b64_add (Math_max (map (coord 0) ps)) margin;
            ymax := b64_add (Math_max (map (coord 1) ps)) margin |}.
Proof.
  intros Hflat. unfold getBoundingBox. rewrite Hflat.
  destruct (coords_read 0 ps) as [->|?]; [|lia].
  destruct (coords_read 1 ps) as [->|?]; [|lia]. reflexivity.
Qed.

Lemma read_geometry_encode (g : option geometry) :
  ∃ read, read_geometry (encode_geometry <$> g) = inr read
          ∧ ∀ margin, getBoundingBox read margin = getBoundingBox g margin.
Proof.
  destruct g as [[[rings|]|[polys|]|type [|]]|]; simpl;
    try (exists None; split; reflexivity).
  - rewrite flat1_rings, read_positions_encode.
    eexists. split; [reflexivity|]. intros margin.
    by rewrite (box_of_read (concat rings)).
  - rewrite flat1_polys, flat1_rings, read_positions_encode.
    eexists. split; [reflexivity|]. intros margin.
    by rewrite (box_of_read (concat (concat polys))).
  - exists None. split; [|reflexivity]. unfold is_polygon_type.
    destruct (String.eqb type "Polygon") eqn:E1; [reflexivity|].
    destruct (String.eqb type "MultiPolygon") eqn:E2; [reflexivity|].
    simpl. by rewrite E1, E2.
  - exists None. split; [|reflexivity].
    by destruct (is_polygon_type type).
Qed.

(** On a well-formed record the [map] callback gives [to_warning]. *)
Lemma map_step_encode (f : feature) (p : gmap string value) :
  f_properties f = Some p → map_step (encode_feature f) = inr (to_warning f p).
Proof.
  intros Hp. unfold encode_feature, map_step. rewrite Hp.
  destruct (read_geometry_encode (f_geometry f)) as (read & -> & Hbox).
  unfold to_warning, to_warning_of. by rewrite Hbox.
Qed.

Lemma document_no_null (fs : list feature) : NullRecord ∉ map encode_feature fs.
Proof.
  induction fs as [|f fs IH]; [apply not_elem_of_nil|].
  apply not_elem_of_cons. by split.
Qed.

Lemma map_result_documents (fs : list feature) :
  Forall labelled_tornado (map encode_feature fs) →
  ∃ ws, map_result map_step (map encode_feature fs) = inr ws.
Proof.
  induction fs as [|f fs IH]; intros Hl; [by eexists|].
  apply Forall_cons in Hl as [Hf Hl]. simpl in Hf.
  destruct (f_properties f) as [p|] eqn:Hp; [|discriminate].
  change (map encode_feature (f :: fs)) with (encode_feature f :: map encode_feature fs).
  rewrite map_result_cons, (map_step_encode f p Hp).
  destruct (IH Hl) as (ws & ->). by eexists.
Qed.

Lemma filter_documents (fs : list feature) :
  ∃ kept, filter labelled_tornado (map encode_feature fs) = map encode_feature kept.
Proof.
  induction fs as [|f fs (kept & IH)]; [by exists []|].
  simpl map. rewrite filter_cons, IH.
  destruct (decide (labelled_tornado (encode_feature f))); [by exists (f :: kept) | by exists kept].
Qed.

(** The extractor returns on every well-formed document. *)
Lemma parse_document (doc : feed_document) :
  ∃ ws, parseTornadoWarnings (Some (document doc)) = inr ws.
Proof.
  destruct doc as [[fs|]]; [|by eexists]. unfold document. simpl features.
  simpl parseTornadoWarnings. rewrite (filter_tornado _ (document_no_null fs)).
  destruct (filter_documents fs) as (kept & Hkept).
  pose proof (filter_labelled (map encode_feature fs)) as Hl. rewrite Hkept in *.
  by apply map_result_documents.
Qed.

End Extractor.

(** ** Ordering of binary64 numbers *)

Section Binary64.
Import JSValue Feed Spec.

Lemma SFcompare_finite s1 m1 e1 s2 m2 e2 :
  SFcompare (S754_finite s1 m1 e1) (S754_finite s2 m2 e2) =
  Some match s1, s2 with
       | true, false => Lt
       | false, true => Gt
       | false, false =>
           match e1 ?= e2 with
           | Lt => Lt
           | Gt => Gt
           | Eq => (m1 ?= m2)%positive
           end
       | true, true =>
           match e1 ?= e2 with
           | Lt => Gt
           | Gt => Lt
           | Eq => CompOpp (m1 ?= m2)%positive
           end
       end.
Proof. reflexivity. Qed.

Ltac split_signs :=
  repeat match goal with s : bool |- _ => destruct s end.

Lemma leb_trans_finite sx mx ex sy my ey sz mz ez :
  b64_leb (S754_finite sx mx ex) (S754_finite sy my ey) = true →
  b64_leb (S754_finite sy my ey) (S754_finite sz mz ez) = true →
  b64_leb (S754_finite sx mx ex) (S754_finite sz mz ez) = true.
Proof.
  unfold b64_leb, SFleb. rewrite !SFcompare_finite.
  split_signs; try (simpl; congruence);
    destruct (Z.compare_spec ex ey), (Z.compare_spec ey ez), (Z.compare_spec ex ez);
    try lia; try congruence; subst;
    destruct (Pos.compare_spec mx my), (Pos.compare_spec my mz), (Pos.compare_spec mx mz);
    simpl; try lia; try congruence.
Qed.

Lemma leb_trans x y z : b64_leb x y = true → b64_leb y z = true → b64_leb x z = true.
Proof.
  destruct x as [sx|sx| |sx mx ex], y as [sy|sy| |sy my ey], z as [sz|sz| |sz mz ez];
    try apply leb_trans_finite;
    unfold b64_leb, SFleb; split_signs; simpl; congruence.
Qed.

Lemma ltb_leb x y : b64_ltb x y = true → b64_leb x y = true.
Proof.
  unfold b64_ltb, b64_leb, SFltb, SFleb. destruct (SFcompare x y) as [[]|]; congruence.
Qed.

Lemma SFcompare_swap x y : SFcompare y x = CompOpp <$> SFcompare x y.
Proof.
  destruct x as [sx|sx| |sx mx ex], y as [sy|sy| |sy my ey];
    try (split_signs; reflexivity).
  rewrite !SFcompare_finite. simpl.
  rewrite (Z.compare_antisym ex ey), (Pos.compare_antisym mx my).
  split_signs; try reflexivity;
    destruct (ex ?= ey); simpl; try reflexivity;
    destruct (mx ?= my)%positive; reflexivity.
Qed.

Lemma SFcompare_numbers x y : is_number x → is_number y → is_Some (SFcompare x y).
Proof. unfold is_number. intros Hx Hy. destruct x, y; try congruence; simpl; eauto. Qed.

Lemma not_ltb_leb x y : is_number x → is_number y → b64_ltb x y = false → b64_leb y x = true.
Proof.
  intros Hx Hy. unfold b64_ltb, b64_leb, SFltb, SFleb. rewrite (SFcompare_swap x y).
  destruct (SFcompare_numbers x y Hx Hy) as [c ->]. destruct c; simpl; congruence.
Qed.

Lemma leb_refl x : is_number x → b64_leb x x = true.
Proof.
  intros Hx. destruct x as [s|s| |s m e]; try (split_signs; reflexivity); [by destruct Hx|].
  unfold b64_leb, SFleb. rewrite SFcompare_finite.
  destruct s; rewrite Z.compare_refl, Pos.compare_refl; reflexivity.
Qed.

Lemma leb_infinity x : b64_leb (S754_infinity false) x = true → x = S754_infinity false.
Proof. unfold b64_leb, SFleb. destruct x as [s|s| |s m e]; split_signs; simpl; congruence. Qed.

Lemma infinity_leb x : b64_leb x (S754_infinity true) = true → x = S754_infinity true.
Proof. unfold b64_leb, SFleb. destruct x as [s|s| |s m e]; split_signs; simpl; congruence. Qed.

Lemma no_nan (l : list spec_float) : Forall is_number l → existsb is_nan l = false.
Proof.
  induction 1 as [|x l Hx _ IH]; [reflexivity|].
  simpl. rewrite IH. destruct x; try reflexivity. by destruct Hx.
Qed.

Lemma min_step_spec lowest x :
  is_number lowest → is_number x →
  (min_step lowest x = x ∨ min_step lowest x = lowest)
  ∧ b64_leb (min_step lowest x) lowest = true ∧ b64_leb (min_step lowest x) x = true.
Proof.
  intros Hl Hx. unfold min_step.
  destruct (is_neg_zero x && is_pos_zero lowest) eqn:Ez; simpl.
  - destruct x as [[]| | |]; try discriminate.
    destruct lowest as [[]| | |]; try discriminate. auto.
  - destruct (b64_ltb x lowest) eqn:Elt.
    + auto using ltb_leb, leb_refl.
    + auto using not_ltb_leb, leb_refl.
Qed.

Lemma max_step_spec highest x :
  is_number highest → is_number x →
  (max_step highest x = x ∨ max_step highest x = highest)
  ∧ b64_leb highest (max_step highest x) = true ∧ b64_leb x (max_step highest x) = true.
Proof.
  intros Hh Hx. unfold max_step.
  destruct (is_pos_zero x && is_neg_zero highest) eqn:Ez; simpl.
  - destruct x as [[]| | |]; try discriminate.
    destruct highest as [[]| | |]; try discriminate. auto.
  - destruct (b64_ltb highest x) eqn:Elt.
    + auto using ltb_leb, leb_refl.
    + auto using not_ltb_leb, leb_refl.
Qed.

Lemma fold_min (l : list spec_float) (lowest : spec_float) :
  Forall is_number l → is_number lowest →
  let m := fold_left min_step l lowest in
  is_number m ∧ (m = lowest ∨ m ∈ l)
  ∧ b64_leb m lowest = true ∧ ∀ x, x ∈ l → b64_leb m x = true.
Proof.
  intros Hl. revert lowest.
  induction Hl as [|x l Hx _ IH]; intros lowest Hlow; simpl.
  - split; [assumption|]. split; [by left|]. split; [by apply leb_refl|].
    intros x Hin. by apply elem_of_nil in Hin.
  - destruct (min_step_spec lowest x Hlow Hx) as (Hsel & Hle1 & Hle2).
    assert (Hnum : is_number (min_step lowest x)) by (destruct Hsel as [-> | ->]; assumption).
    destruct (IH _ Hnum) as (Hm & Hin & Hle & Hall).
    split; [assumption|]. split.
    + destruct Hin as [-> | Hin]; [|right; by apply list_elem_of_further].
      destruct Hsel as [-> | ->]; [right; apply list_elem_of_here | by left].
    + split; [eauto using leb_trans|].
      intros y Hy. apply elem_of_cons in Hy as [-> | Hy]; eauto using leb_trans.
Qed.

Lemma fold_max (l : list spec_float) (highest : spec_float) :
  Forall is_number l → is_number highest →
  let m := fold_left max_step l highest in
  is_number m ∧ (m = highest ∨ m ∈ l)
  ∧ b64_leb highest m = true ∧ ∀ x, x ∈ l → b64_leb x m = true.
Proof.
  intros Hl. revert highest.
  induction Hl as [|x l Hx _ IH]; intros highest Hhigh; simpl.
  - split; [assumption|]. split; [by left|]. split; [by apply leb_refl|].
    intros x Hin. by apply elem_of_nil in Hin.
  - destruct (max_step_spec highest x Hhigh Hx) as (Hsel & Hle1 & Hle2).
    assert (Hnum : is_number (max_step highest x)) by (destruct Hsel as [-> | ->]; assumption).
    destruct (IH _ Hnum) as (Hm & Hin & Hle & Hall).
    split; [assumption|]. split.
    + destruct Hin as [-> | Hin]; [|right; by apply list_elem_of_further].
      destruct Hsel as [-> | ->]; [right; apply list_elem_of_here | by left].
    + split; [eauto using leb_trans|].
      intros y Hy. apply elem_of_cons in Hy as [-> | Hy]; eauto using leb_trans.
Qed.

Lemma Math_min_is_min (l : list spec_float) :
  l ≠ [] → Forall is_number l → is_min (Math_min l) l.
Proof.
  intros Hne Hl. unfold Math_min. rewrite (no_nan l Hl).
  change (fold_left _ l ?a) with (fold_left min_step l a).
  destruct (fold_min l (S754_infinity false) Hl) as (_ & Hin & _ & Hall); [discriminate|].
  split; [|assumption].
  destruct Hin as [Heq | Hin]; [|assumption].
  destruct l as [|x l']; [done|].
  rewrite Heq in *. rewrite (leb_infinity x) at 1; [apply list_elem_of_here|].
  apply Hall, list_elem_of_here.
Qed.

Lemma Math_max_is_max (l : list spec_float) :
  l ≠ [] → Forall is_number l → is_max (Math_max l) l.
Proof.
  intros Hne Hl. unfold Math_max. rewrite (no_nan l Hl).
  change (fold_left _ l ?a) with (fold_left max_step l a).
  destruct (fold_max l (S754_infinity true) Hl) as (_ & Hin & _ & Hall); [discriminate|].
  split; [|assumption].
  destruct Hin as [Heq | Hin]; [|assumption].
  destruct l as [|x l']; [done|].
  rewrite Heq in *. rewrite (infinity_leb x) at 1; [apply list_elem_of_here|].
  apply Hall, list_elem_of_here.
Qed.

(** C5. For a polygon or multi-polygon with at least one position, all
    of them numbers, the bounding box is the least longitude and the
    least latitude, each minus the margin of 0.2, and the greatest
    longitude and the greatest latitude, each plus that margin. *)
Theorem getBoundingBox_is_padded_extent (g : geometry) (coords : list position) :
  positions_of g coords →
  coords ≠ [] →
  Forall is_number (longitudes coords) →
  Forall is_number (latitudes coords) →
  ∃ west south east north,
    is_min west (longitudes coords) ∧ is_min south (latitudes coords)
    ∧ is_max east (longitudes coords) ∧ is_max north (latitudes coords)
    ∧ getBoundingBox (Some g) margin_0_2
      = Some {| xmin := b64_sub west margin_0_2; ymin := b64_sub south margin_0_2;
                xmax := b64_add east margin_0_2; ymax := b64_add north margin_0_2 |}.
Proof.
  intros Hpos Hne Hlon Hlat.
  assert (Hlons : longitudes coords ≠ []) by (destruct coords; [done | discriminate]).
  assert (Hlats : latitudes coords ≠ []) by (destruct coords; [done | discriminate]).
  exists (Math_min (longitudes coords)), (Math_min (latitudes coords)),
         (Math_max (longitudes coords)), (Math_max (latitudes coords)).
  repeat split; try (apply Math_min_is_min; assumption);
    try (apply Math_max_is_max; assumption).
  destruct Hpos; reflexivity.
Qed.

(** The rectangle between 94 and 93 degrees west and 41 and 42 degrees
    north gets the box from 94.2 to 92.8 degrees west and from 40.8 to
    42.2 degrees north. *)
Example getBoundingBox_rectangle :
  getBoundingBox (Some (Polygon (Some rectangle))) margin_0_2
  = Some {| xmin := S754_finite true 6628735701535949 (-46);
            ymin := S754_finite false 5742089524897382 (-47);
            xmax := S754_finite true 6530219459687219 (-46);
            ymax := S754_finite false 5939122008594842 (-47) |}.
Proof. vm_compute. reflexivity. Qed.

Lemma getBoundingBox_is_padded_extent_witness :
  ∃ west south east north,
    is_min west (longitudes (concat rectangle)) ∧ is_min south (latitudes (concat rectangle))
    ∧ is_max east (longitudes (concat rectangle)) ∧ is_max north (latitudes (concat rectangle))
    ∧ getBoundingBox (Some (Polygon (Some rectangle))) margin_0_2
      = Some {| xmin := b64_sub west margin_0_2; ymin := b64_sub south margin_0_2;
                xmax := b64_add east margin_0_2; ymax := b64_add north margin_0_2 |}.
Proof.
  apply (getBoundingBox_is_padded_extent (Polygon (Some rectangle)) (concat rectangle)).
  - constructor.
  - discriminate.
  - repeat constructor; discriminate.
  - repeat constructor; discriminate.
Defined.
End Binary64.

(** ** Reasoning about computations *)

Section Computations.
Import JSString JSDate JSValue Timestamp Feed Process Spec.

Lemma bind_run {A B} (m : M A) (k : A → M B) (s : state) :
  (m ≫= k) s = match m s with
               | (inl e, s') => (inl e, s')
               | (inr a, s') => k a s'
               end.
Proof. reflexivity. Qed.

Lemma ret_run {A} (a : A) (s : state) : (mret a : M A) s = (inr a, s).
Proof. reflexivity. Qed.

Lemma call_run {A} (r : request) (answer : nat → exn + A) (s : state) :
  call r answer s = (answer (calls s), snd (call r answer s)).
Proof. reflexivity. Qed.

Lemma try_catch_run {A} (body : M A) (handler : exn → M A) (s : state) :
  try_catch body handler s = match body s with
                             | (inl e, s') => handler e s'
                             | (inr a, s') => (inr a, s')
                             end.
Proof. unfold try_catch. by destruct (body s) as [[e|a] s']. Qed.

Section Preserves.
Context (R : relation state) `{!PreOrder R}.

Lemma preserves_ret {A} (a : A) : preserves R (mret a : M A).
Proof. intros s. simpl. reflexivity. Qed.

Lemma preserves_throw {A} (e : exn) : preserves R (throw e : M A).
Proof. intros s. simpl. reflexivity. Qed.

Lemma preserves_lift {A} (r : exn + A) : preserves R (lift r).
Proof. intros s. simpl. reflexivity. Qed.

Lemma preserves_read {A} (f : state → A) : preserves R (read f).
Proof. intros s. simpl. reflexivity. Qed.

Lemma preserves_bind {A B} (m : M A) (k : A → M B) :
  preserves R m → (∀ a, preserves R (k a)) → preserves R (m ≫= k).
Proof.
  intros Hm Hk s. rewrite bind_run. specialize (Hm s).
  destruct (m s) as [[e|a] s']; simpl in *; [assumption|].
  etrans; [exact Hm | apply Hk].
Qed.

Lemma preserves_try_catch {A} (body : M A) (handler : exn → M A) :
  preserves R body → (∀ e, preserves R (handler e)) → preserves R (try_catch body handler).
Proof.
  intros Hb Hh s. rewrite try_catch_run. specialize (Hb s).
  destruct (body s) as [[e|a] s']; simpl in *; [|assumption].
  etrans; [exact Hb | apply Hh].
Qed.

Lemma preserves_for_of {A} (l : list A) (body : A → M unit) :
  (∀ x, preserves R (body x)) → preserves R (for_of l body).
Proof.
  intros Hb. induction l as [|x l IH]; simpl.
  - apply preserves_ret.
  - apply preserves_bind; [apply Hb | intros _; exact IH].
Qed.
End Preserves.

#[global] Instance same_store_preorder : PreOrder same_store.
Proof.
  split.
  - intros s. by repeat split.
  - intros s1 s2 s3 (? & ? & ?) (? & ? & ?). repeat split; congruence.
Qed.

Lemma dispatched_app (tr1 tr2 : list event) :
  dispatched (tr1 ++ tr2) = dispatched tr1 ++ dispatched tr2.
Proof. apply omap_app. Qed.

#[global] Instance only_calls_preorder : PreOrder only_calls.
Proof.
  split.
  - intros s. split; [reflexivity|]. exists []. by rewrite app_nil_r.
  - intros s1 s2 s3 [H12 (tr1 & Ht1 & Hd1)] [H23 (tr2 & Ht2 & Hd2)].
    split; [by etrans|]. exists (tr1 ++ tr2).
    rewrite Ht2, Ht1, dispatched_app, Hd1, Hd2, app_assoc. done.
Qed.

#[global] Instance md_grows_preorder : PreOrder md_grows.
Proof. split; unfold md_grows; [intros s | intros s1 s2 s3]; set_solver. Qed.

#[global] Instance stays_seen_preorder (g : string) : PreOrder (stays_seen g).
Proof.
  split.
  - intros s Hin. split; [assumption|]. exists []. rewrite app_nil_r.
    split; [reflexivity | apply not_elem_of_nil].
  - intros s1 s2 s3 H12 H23 Hin.
    destruct (H12 Hin) as (Hin2 & tr1 & Ht1 & Hn1).
    destruct (H23 Hin2) as (Hin3 & tr2 & Ht2 & Hn2).
    split; [assumption|]. exists (tr1 ++ tr2).
    split; [by rewrite Ht2, Ht1, app_assoc|].
    rewrite elem_of_app. tauto.
Qed.

Lemma stays_seen_call {A} (g : string) (r : request) (answer : nat → exn + A) :
  preserves (stays_seen g) (call r answer).
Proof.
  intros s Hin. split; [assumption|]. exists [Call r]. split; [reflexivity|].
  rewrite list_elem_of_singleton. discriminate.
Qed.

Lemma stays_seen_log (g : string) (e : event) :
  e ≠ SentMD g → preserves (stays_seen g) (log e).
Proof.
  intros Hne s Hin. split; [assumption|]. exists [e]. split; [reflexivity|].
  rewrite list_elem_of_singleton. congruence.
Qed.

Lemma stays_seen_set_warnings (g : string) (ws : list Feed.WarningEvent) :
  preserves (stays_seen g) (set_warnings ws).
Proof.
  intros s Hin. split; [assumption|]. exists []. simpl. rewrite app_nil_r.
  split; [reflexivity | apply not_elem_of_nil].
Qed.

Lemma stays_seen_set_lastUpdate (g : string) (t : string) :
  preserves (stays_seen g) (set_lastUpdate t).
Proof.
  intros s Hin. split; [assumption|]. exists []. simpl. rewrite app_nil_r.
  split; [reflexivity | apply not_elem_of_nil].
Qed.

Lemma stays_seen_add (g g' : string) : preserves (stays_seen g) (add_md_id g').
Proof.
  intros s Hin. split; [simpl; set_solver|]. exists []. simpl. rewrite app_nil_r.
  split; [reflexivity | apply not_elem_of_nil].
Qed.

Lemma new_events_app (s s' : state) (tr : list event) :
  trace s' = trace s ++ tr → new_events s s' = tr.
Proof. intros Htr. unfold new_events. by rewrite Htr, drop_app_length. Qed.

Lemma for_of_app {A} (l1 l2 : list A) (body : A → M unit) (s : state) :
  for_of (l1 ++ l2) body s
  = match for_of l1 body s with
    | (inl e, s') => (inl e, s')
    | (inr _, s') => for_of l2 body s'
    end.
Proof.
  revert s. induction l1 as [|x l1 IH]; intros s; [reflexivity|].
  simpl. rewrite !bind_run. destruct (body x s) as [[e|[]] s']; [reflexivity | apply IH].
Qed.

Lemma string_app_assoc (a b c : string) : (a +:+ b) +:+ c = a +:+ (b +:+ c).
Proof.
  induction a as [|x a IH]; [reflexivity|].
  change (String x (a +:+ b) +:+ c = String x (a +:+ (b +:+ c))).
  change (String x ((a +:+ b) +:+ c) = String x (a +:+ (b +:+ c))).
  by rewrite IH.
Qed.

Lemma string_app_nil_r (a : string) : a +:+ "" = a.
Proof.
  induction a as [|x a IH]; [reflexivity|].
  change (String x (a +:+ "") = String x a). by rewrite IH.
Qed.

(** [s.substring(0, n)] is [s] itself when [s] has at most [n] characters
    and its first [n] characters otherwise. *)
Lemma substring0_spec (n : nat) (s : string) :
  ((String.length s ≤ n)%nat ∧ substring0 n s = s)
  ∨ ((n < String.length s)%nat
     ∧ ∃ rest, s = substring0 n s +:+ rest ∧ String.length (substring0 n s) = n).
Proof.
  unfold substring0. revert s. induction n as [|n IH]; intros s.
  - destruct s as [|c s].
    + left. split; [reflexivity|reflexivity].
    + right. split; [simpl; lia|]. exists (String c s). split; reflexivity.
  - destruct s as [|c s].
    + left. split; [simpl; lia | reflexivity].
    + change (String.substring 0 (S n) (String c s))
        with (String c (String.substring 0 n s)).
      destruct (IH s) as [[Hle Heq] | [Hlt (rest & Heq & Hlen)]].
      * left. split; [simpl; lia | by rewrite Heq].
      * right. split; [simpl; lia|]. exists rest. split.
        -- change (String c s = String c (String.substring 0 n s +:+ rest)).
           by rewrite <- Heq.
        -- simpl. by rewrite Hlen.
Qed.

Lemma md_grows_same_ids {A} (m : M A) :
  (∀ s, lastMdIds (snd (m s)) = lastMdIds s) → preserves md_grows m.
Proof. intros Hm s. unfold md_grows. by rewrite Hm. Qed.

Lemma md_grows_call {A} (r : request) (answer : nat → exn + A) :
  preserves md_grows (call r answer).
Proof. by apply md_grows_same_ids. Qed.

Lemma md_grows_log (e : event) : preserves md_grows (log e).
Proof. by apply md_grows_same_ids. Qed.

Lemma only_calls_call {A} (r : request) (answer : nat → exn + A) :
  preserves only_calls (call r answer).
Proof. intros s. split; [by repeat split|]. by exists [Call r]. Qed.
End Computations.

(** Turn membership in what the trace gained into membership in the list
    of the events appended. *)
Ltac gained :=
  erewrite new_events_app;
  [| cbn [snd fst Process.call Process.trace]; rewrite <- ?app_assoc; reflexivity];
  cbn [app];
  rewrite ?elem_of_cons, ?elem_of_nil.


(** Show that a computation respects [R], given a tactic [prims] for the
    state-changing primitives. *)
Ltac respects R prims :=
  repeat first
    [ prims
    | apply (preserves_ret R)
    | apply (preserves_throw R)
    | apply (preserves_lift R)
    | apply (preserves_read R)
    | apply (preserves_bind R); [|intros ?]
    | apply (preserves_try_catch R); [|intros ?]
    | apply (preserves_for_of R); intros ?
    | match goal with
      | |- Spec.preserves _ (match ?x with _ => _ end) => destruct x
      end ].

(** ** The tornado-warning cycle *)

Section TornadoCycle.
Import JSString JSDate JSValue Timestamp Feed Process Spec.
Context `{Runtime} (w : world).

Lemma send_warning_only_calls (warning : WarningEvent) :
  preserves only_calls (send_warning w warning).
Proof. unfold send_warning. respects only_calls ltac:(apply only_calls_call). Qed.

(** The outcome line of one new warning: after the calls of the dispatch,
    exactly one line for that warning, and the loop goes on. *)
Lemma dispatch_new_run (warning : WarningEvent) (s : state) :
  ∃ s', dispatch_new w warning s = (inr tt, s')
        ∧ same_store s s'
        ∧ ∃ tr, trace s' = trace s ++ tr ∧ dispatched tr = [id warning].
Proof.
  unfold dispatch_new. rewrite try_catch_run, bind_run.
  destruct (send_warning_only_calls warning s) as [Hst (tr & Htr & Hd)].
  destruct (send_warning w warning s) as [[e|[]] s1]; simpl in *.
  - eexists. split; [reflexivity|]. split; [exact Hst|]. simpl.
    exists (tr ++ [FailedWarning (id warning) (message_of e)]).
    by rewrite Htr, app_assoc, dispatched_app, Hd.
  - eexists. split; [reflexivity|]. split; [exact Hst|]. simpl.
    exists (tr ++ [SentWarning (id warning)]).
    by rewrite Htr, app_assoc, dispatched_app, Hd.
Qed.

Lemma dispatch_loop_run (news : list WarningEvent) (s : state) :
  ∃ s', for_of news (dispatch_new w) s = (inr tt, s')
        ∧ same_store s s'
        ∧ ∃ tr, trace s' = trace s ++ tr ∧ dispatched tr = map id news.
Proof.
  revert s. induction news as [|x news IH]; intros s; simpl.
  - exists s. split; [reflexivity|]. split; [reflexivity|].
    exists []. by rewrite app_nil_r.
  - rewrite bind_run.
    destruct (dispatch_new_run x s) as (s1 & -> & Hst1 & tr1 & Ht1 & Hd1).
    destruct (IH s1) as (s2 & -> & Hst2 & tr2 & Ht2 & Hd2).
    exists s2. split; [reflexivity|]. split; [by etrans|].
    exists (tr1 ++ tr2). by rewrite Ht2, Ht1, app_assoc, dispatched_app, Hd1, Hd2.
Qed.

Lemma simulate_loop_run (ws : list WarningEvent) (sent failed : nat) (s : state) :
  ∃ sent' failed' s',
    simulate_loop w ws sent failed s = (inr (sent', failed'), s')
    ∧ (sent' + failed' = sent + failed + length ws)%nat
    ∧ only_calls s s'.
Proof.
  revert sent failed s. induction ws as [|x ws IH]; intros sent failed s; simpl.
  - exists sent, failed, s. split; [reflexivity|]. split; [lia | reflexivity].
  - rewrite bind_run, try_catch_run, bind_run.
    pose proof (send_warning_only_calls x s) as Hs.
    destruct (send_warning w x s) as [[e|[]] s1]; simpl in *.
    + destruct (IH sent (S failed) s1) as (a & b & s2 & -> & Hsum & Hs2).
      exists a, b, s2. split; [reflexivity|]. split; [lia | by etrans].
    + destruct (IH (S sent) failed s1) as (a & b & s2 & -> & Hsum & Hs2).
      exists a, b, s2. split; [reflexivity|]. split; [lia | by etrans].
Qed.


Lemma fetchCurrentWarnings_run (s : state) :
  ∃ s1, fetchCurrentWarnings w s
        = (inr match feed_answer w s with inr d => d | inl _ => None end, s1)
        ∧ same_store s s1
        ∧ trace s1 = trace s ++ [Call (GetFeed (feed_url w s))].
Proof.
  unfold fetchCurrentWarnings, feed_answer, feed_url.
  rewrite try_catch_run. unfold getCurrentUTCTimestamp, now.
  rewrite !bind_run. simpl.
  destruct (get_feed w (calls s) _) as [e|d]; simpl;
    (eexists; split; [reflexivity|]; split; [by repeat split | reflexivity]).
Qed.

Lemma monitor_no_data (s : state) :
  no_data (feed_answer w s) →
  ∃ s', monitorTornadoWarnings w s = (inr tt, s')
        ∧ same_store s s' ∧ trace s' = trace s ++ [Call (GetFeed (feed_url w s))].
Proof.
  intros Hno. unfold monitorTornadoWarnings. rewrite bind_run.
  destruct (fetchCurrentWarnings_run s) as (s1 & -> & Hst & Htr).
  exists s1. destruct (feed_answer w s) as [e|[d|]]; simpl in *; try contradiction;
    (split; [reflexivity|]; split; assumption).
Qed.

Lemma monitor_with_data (s : state) (body : feed_body) (current : list WarningEvent) :
  feed_answer w s = inr (Some body) →
  parseTornadoWarnings (Some body) = inr current →
  ∃ s', monitorTornadoWarnings w s = (inr tt, s')
        ∧ tornadoWarnings s' = current
        ∧ lastUpdate s' = Some (toISOString (clock w (calls s')))
        ∧ lastMdIds s' = lastMdIds s
        ∧ ∃ tr, trace s' = trace s ++ Call (GetFeed (feed_url w s)) :: tr
                ∧ dispatched tr = map id (trulyNew (tornadoWarnings s) current).
Proof.
  intros Hfeed Hparse. unfold monitorTornadoWarnings. rewrite bind_run.
  destruct (fetchCurrentWarnings_run s) as (s1 & -> & (Htw & Hlu & Hmd) & Htr).
  rewrite Hfeed. rewrite bind_run. unfold lift at 1. rewrite Hparse.
  rewrite bind_run. unfold read at 1. rewrite bind_run.
  destruct (dispatch_loop_run (trulyNew (tornadoWarnings s1) current) s1)
    as (s2 & -> & (Htw2 & Hlu2 & Hmd2) & tr & Htr2 & Hd).
  simpl. eexists. split; [reflexivity|]. simpl.
  split; [reflexivity|]. split; [reflexivity|]. split; [congruence|].
  exists tr. rewrite Htr2, Htr, <- app_assoc. simpl. split; [reflexivity|].
  by rewrite Hd, Htw.
Qed.

(** When the extraction throws, the cycle ends there with that
    exception: nothing is dispatched and the state is as the fetch left
    it. *)
Lemma monitor_throws (s : state) (body : feed_body) (e : exn) :
  feed_answer w s = inr (Some body) →
  parseTornadoWarnings (Some body) = inl e →
  ∃ s', monitorTornadoWarnings w s = (inl e, s')
        ∧ same_store s s' ∧ trace s' = trace s ++ [Call (GetFeed (feed_url w s))].
Proof.
  intros Hfeed Hparse. unfold monitorTornadoWarnings. rewrite bind_run.
  destruct (fetchCurrentWarnings_run s) as (s1 & -> & Hst & Htr).
  rewrite Hfeed. rewrite bind_run. unfold lift at 1. rewrite Hparse.
  exists s1. by repeat split; try apply Hst.
Qed.

(** *** What a dispatch sends *)

Lemma dispatched_calls (rs : list request) : dispatched (map Call rs) = [].
Proof. by induction rs. Qed.

Lemma dispatch_trace_outcome (e : WarningEvent) (tr : list event) :
  dispatch_trace w e tr → dispatched tr = [id e].
Proof.
  intros [f Hf | f m Hf | done rest m Hsplit Hne Hrej];
    by rewrite dispatched_app, dispatched_calls.
Qed.













Lemma raw_text_part_empty : raw_text_part "" = "".
Proof. reflexivity. Qed.

Lemma warning_content_split (warning : WarningEvent) (textData : string) :
  warning_content warning textData = warning_content warning "" +:+ raw_text_part textData.
Proof.
  unfold warning_content. rewrite raw_text_part_empty.
  rewrite !string_app_assoc. do 17 f_equal.
Qed.

Lemma send_warning_posts (warning : WarningEvent) (s : state) (url : string) (f : form) :
  Call (Post url f) ∈ new_events s (snd (send_warning w warning s)) →
  content f = warning_content warning (fetched_text w s warning).
Proof.
  unfold send_warning, fetched_text, axios_get_text, axios_get_binary, axios_post.
  rewrite bind_run.
  destruct (nwstextUrl warning) as [turl|].
  - rewrite bind_run, call_run. destruct (get_text w (calls s) turl) as [e|r]; cbv beta iota.
    { gained. intros [Hin|[]]. discriminate. }
    rewrite ret_run; cbv beta iota.
    rewrite bind_run.
    destruct (plotImageUrl warning) as [purl|].
    + rewrite bind_run, call_run.
      match goal with |- context [get_binary w ?n purl] => destruct (get_binary w n purl) as [e|b] end;
        cbv beta iota.
      { gained. intros [Hin|[Hin|[]]]; discriminate. }
      rewrite ret_run; cbv beta iota.
      gained. intros [Hin|[Hin|[Hin|[]]]]; try discriminate. by inversion Hin.
    + rewrite ret_run; cbv beta iota.
      gained. intros [Hin|[Hin|[]]]; try discriminate. by inversion Hin.
  - rewrite ret_run; cbv beta iota.
    rewrite bind_run.
    destruct (plotImageUrl warning) as [purl|].
    + rewrite bind_run, call_run.
      match goal with |- context [get_binary w ?n purl] => destruct (get_binary w n purl) as [e|b] end;
        cbv beta iota.
      { gained. intros [Hin|[]]; discriminate. }
      rewrite ret_run; cbv beta iota.
      gained. intros [Hin|[Hin|[]]]; try discriminate. by inversion Hin.
    + rewrite ret_run; cbv beta iota.
      gained. intros [Hin|[]]; try discriminate. by inversion Hin.
Qed.

(** C8. The message posted for a warning is the summary lines followed
    by the fetched raw text itself when that has at most 1800 characters,
    and otherwise by its first 1800 characters and the marker of three
    dots. *)
Theorem posted_text_is_truncated
    (warning : WarningEvent) (s : state) (url : string) (f : form) :
  Call (Post url f) ∈ new_events s (snd (send_warning w warning s)) →
  let text := fetched_text w s warning in
  ∃ shown,
    content f = warning_content warning "" +:+ shown
    ∧ (((String.length text ≤ 1800)%nat ∧ shown = text)
       ∨ ((1800 < String.length text)%nat
          ∧ ∃ kept rest,
              text = kept +:+ rest ∧ String.length kept = 1800%nat
              ∧ shown = kept +:+ "...")).
Proof.
  intros Hin text. exists (raw_text_part text).
  split; [rewrite (send_warning_posts _ _ _ _ Hin); apply warning_content_split|].
  unfold raw_text_part.
  destruct (substring0_spec 1800 text) as [[Hle Heq] | [Hlt (rest & Heq & Hlen)]].
  - left. split; [assumption|].
    rewrite Heq. replace (1800 <? String.length text)%nat with false
      by (symmetry; apply Nat.ltb_ge; exact Hle).
    apply string_app_nil_r.
  - right. split; [assumption|].
    exists (substring0 1800 text), rest. split; [assumption|]. split; [assumption|].
    replace (1800 <? String.length text)%nat with true
      by (symmetry; apply Nat.ltb_lt; exact Hlt).
    reflexivity.
Qed.

End TornadoCycle.

(** ** The discussion cycle and the life of the process *)

Section Discussion.
Import JSString JSDate JSValue Timestamp Feed Process Spec.
Context `{Runtime} (w : world).

Ltac seen_prims g :=
  first [ apply (stays_seen_call g)
        | apply (stays_seen_set_warnings g)
        | apply (stays_seen_set_lastUpdate g)
        | apply (stays_seen_add g)
        | apply (stays_seen_log g); discriminate ].

Lemma send_md_stays_seen (g g' : string) (item : md_item) :
  g' ≠ g → preserves (stays_seen g) (send_md w item g').
Proof.
  intros Hne. unfold send_md.
  respects (stays_seen g) ltac:(first [seen_prims g | apply (stays_seen_log g); congruence]).
Qed.

Lemma md_loop_body_run (item : md_item) (s : state) :
  md_loop_body w item s
  = match item_guid item with
    | inl e => (inl e, s)
    | inr g =>
        if has (lastMdIds s) g then (inr tt, s)
        else send_md w item g (snd (add_md_id g s))
    end.
Proof.
  unfold md_loop_body. rewrite bind_run.
  change (lift (item_guid item) s) with (item_guid item, s).
  destruct (item_guid item) as [e|g]; [reflexivity|].
  rewrite bind_run. change (read ?f s) with (inr (f s) : exn + bool, s).
  cbv beta iota. by destruct (has (lastMdIds s) g).
Qed.

Lemma md_loop_body_stays_seen (g : string) (item : md_item) :
  preserves (stays_seen g) (md_loop_body w item).
Proof.
  intros s. rewrite md_loop_body_run.
  destruct (item_guid item) as [e|g']; [reflexivity|].
  unfold has. destruct (bool_decide (g' ∈ lastMdIds s)) eqn:Eseen; [reflexivity|].
  apply bool_decide_eq_false in Eseen. intros Hin.
  assert (Hne : g' ≠ g) by congruence.
  destruct (stays_seen_add g g' s Hin) as (Hin1 & tr1 & Ht1 & Hn1).
  destruct (send_md_stays_seen g g' item Hne _ Hin1) as (Hin2 & tr2 & Ht2 & Hn2).
  split; [assumption|]. exists (tr1 ++ tr2).
  split; [by rewrite Ht2, Ht1, app_assoc|].
  rewrite elem_of_app. tauto.
Qed.

Lemma discussions_stay_seen (g : string) :
  preserves (stays_seen g) (monitorMesoscaleDiscussions w).
Proof.
  unfold monitorMesoscaleDiscussions.
  respects (stays_seen g) ltac:(first [seen_prims g | apply md_loop_body_stays_seen]).
Qed.

Lemma tornado_cycle_stays_seen (g : string) :
  preserves (stays_seen g) (monitorTornadoWarnings w).
Proof.
  unfold monitorTornadoWarnings, fetchCurrentWarnings.
  respects (stays_seen g) ltac:(seen_prims g).
Qed.

Lemma simulate_loop_stays_seen (g : string) (ws : list WarningEvent) (sent failed : nat) :
  preserves (stays_seen g) (simulate_loop w ws sent failed).
Proof.
  revert sent failed. induction ws as [|x ws IH]; intros sent failed; simpl.
  - by apply (preserves_ret (stays_seen g)).
  - apply (preserves_bind (stays_seen g)); [|intros counts; apply IH].
    respects (stays_seen g) ltac:(seen_prims g).
Qed.

Lemma fetch_range_stays_seen (g : string) (startTime endTime : string) :
  preserves (stays_seen g) (fetchWarningsForTimeRange w startTime endTime).
Proof.
  unfold fetchWarningsForTimeRange. respects (stays_seen g) ltac:(seen_prims g).
Qed.

Lemma perform_stays_seen (g : string) (a : action) (s : state) :
  stays_seen g s (perform w a s).
Proof.
  destruct a as [| |start end_|start end_|]; simpl.
  - apply tornado_cycle_stays_seen.
  - apply discussions_stay_seen.
  - revert s. change (preserves (stays_seen g) (simulate_route w start end_)).
    unfold simulate_route, warnings_of.
    respects (stays_seen g)
      ltac:(first [ seen_prims g | apply simulate_loop_stays_seen
                  | apply fetch_range_stays_seen ]).
  - revert s. change (preserves (stays_seen g) (range_route w start end_)).
    unfold range_route, warnings_of.
    respects (stays_seen g) ltac:(first [ seen_prims g | apply fetch_range_stays_seen ]).
  - revert s. change (preserves (stays_seen g) (all_warnings_route w)).
    unfold all_warnings_route, fetchCurrentWarnings.
    respects (stays_seen g) ltac:(seen_prims g).
Qed.

Lemma run_stays_seen (g : string) (actions : list action) (s : state) :
  stays_seen g s (run w actions s).
Proof.
  revert s. induction actions as [|a actions IH]; intros s; [reflexivity|].
  simpl. etrans; [apply perform_stays_seen | apply IH].
Qed.

Lemma send_md_md_grows (item : md_item) (g : string) :
  preserves md_grows (send_md w item g).
Proof.
  unfold send_md.
  respects md_grows ltac:(first [apply md_grows_call | apply md_grows_log]).
Qed.

(** C9.  An unseen item is processed from the state in which its
    identifier is already in the seen-set, and the identifier is there
    afterwards whether the dispatch succeeded or not.  From then on,
    whatever cycles and requests follow, the identifier stays in the
    seen-set, no discussion with that identifier is reported sent, and
    the loop body passes over any item with that identifier without a
    request.  And when processing an item throws, the cycle ends there:
    it prints the error and leaves the items after it untouched. *)
Theorem discussion_recorded_before_dispatch :
  (∀ item g s,
      item_guid item = inr g → g ∉ lastMdIds s →
      md_loop_body w item s = send_md w item g (snd (add_md_id g s))
      ∧ g ∈ lastMdIds (snd (md_loop_body w item s)))
  ∧ (∀ g s actions,
        g ∈ lastMdIds s →
        let s' := run w actions s in
        g ∈ lastMdIds s'
        ∧ (SentMD g ∉ new_events s s')
        ∧ ∀ item, item_guid item = inr g → md_loop_body w item s' = (inr tt, s'))
  ∧ (∀ s before item rest s0 e s1,
        get_rss w (calls s) MD_RSS_URL = inr (RssItems (Some (before ++ item :: rest))) →
        for_of before (md_loop_body w) (snd (axios_get_rss w MD_RSS_URL s)) = (inr tt, s0) →
        md_loop_body w item s0 = (inl e, s1) →
        monitorMesoscaleDiscussions w s
        = (inr tt, snd (log (ErrorMD (message_of e)) s1))).
Proof.
  split; [|split].
  - intros item g s Hg Hnew.
    assert (Hrun : md_loop_body w item s = send_md w item g (snd (add_md_id g s))).
    { rewrite md_loop_body_run, Hg. unfold has.
      by rewrite bool_decide_eq_false_2. }
    split; [assumption|]. rewrite Hrun.
    apply (send_md_md_grows item g (snd (add_md_id g s))). simpl. set_solver.
  - intros g s actions Hin s'. subst s'.
    destruct (run_stays_seen g actions s Hin) as (Hin' & tr & Htr & Hno).
    split; [assumption|]. split; [by rewrite (new_events_app _ _ _ Htr)|].
    intros item Hg. rewrite md_loop_body_run, Hg. unfold has.
    by rewrite bool_decide_eq_true_2.
  - intros s before item rest s0 e s1 Hrss Hbefore Hitem.
    unfold monitorMesoscaleDiscussions. rewrite try_catch_run, bind_run.
    unfold axios_get_rss in *. rewrite call_run, Hrss. cbv beta iota.
    rewrite bind_run, ret_run. cbv beta iota. simpl default.
    rewrite for_of_app, Hbefore. simpl for_of. rewrite bind_run, Hitem.
    reflexivity.
Qed.
End Discussion.

(** ** Timestamps in the Date Time String Format *)

Section IsoTimestamps.
Import JSString JSDate JSValue Timestamp Feed Process Spec.
Context `{Runtime}.


Lemma reads_back_all (k : nat) (bound : nat) :
  forallb (fun i => reads_back k (Z.of_nat i)) (seq 0 bound) = true →
  ∀ n, 0 <= n < Z.of_nat bound → plain_digits k n.
Proof.
  intros Hall n Hn. rewrite forallb_forall in Hall.
  assert (Hin : In (Z.to_nat n) (seq 0 bound)) by (apply in_seq; lia).
  specialize (Hall _ Hin). rewrite Z2Nat.id in Hall by lia.
  unfold reads_back in Hall. apply andb_true_iff in Hall as [Hall HZ].
  apply andb_true_iff in Hall as [Hall HT].
  apply negb_true_iff in HT, HZ. split; [|by split].
  destruct (read_digits k 0 (pad k n)) as [[v [|c r]]|]; try discriminate.
  apply Z.eqb_eq in Hall. by rewrite Hall.
Qed.

Lemma pad2_plain n : 0 <= n < 100 → plain_digits 2 n.
Proof. apply (reads_back_all 2 100). vm_compute. reflexivity. Qed.

Lemma pad3_plain n : 0 <= n < 1000 → plain_digits 3 n.
Proof. apply (reads_back_all 3 1000). vm_compute. reflexivity. Qed.

Lemma pad4_plain n : 0 <= n < 10000 → plain_digits 4 n.
Proof. apply (reads_back_all 4 (100 * 100)). vm_compute. reflexivity. Qed.

Lemma pad2_reads n : 0 <= n < 100 → read_digits 2 0 (pad 2 n) = Some (n, EmptyString).
Proof. intros Hn. apply (pad2_plain n Hn). Qed.

Lemma pad3_reads n : 0 <= n < 1000 → read_digits 3 0 (pad 3 n) = Some (n, EmptyString).
Proof. intros Hn. apply (pad3_plain n Hn). Qed.

Lemma pad4_reads n : 0 <= n < 10000 → read_digits 4 0 (pad 4 n) = Some (n, EmptyString).
Proof. intros Hn. apply (pad4_plain n Hn). Qed.

Lemma read_digits_app (k : nat) (acc : Z) (a rest : string) (v : Z) (r : string) :
  read_digits k acc a = Some (v, r) → read_digits k acc (a +:+ rest) = Some (v, r +:+ rest).
Proof.
  revert acc a. induction k as [|k IH]; intros acc a; simpl.
  - intros [= <- <-]. reflexivity.
  - destruct a as [|c a]; [discriminate|].
    change (String c a +:+ rest) with (String c (a +:+ rest)). simpl.
    destruct (digit_of c); [apply IH | discriminate].
Qed.

Lemma digit_not_sign (c : ascii) (d : Z) :
  digit_of c = Some d → c ≠ "+"%char ∧ c ≠ "-"%char.
Proof.
  intros Hd. split; intros ->; vm_compute in Hd; discriminate.
Qed.

Lemma parse_year_digits (s : string) (y : Z) (r : string) :
  read_digits 4 0 s = Some (y, r) → parse_year s = Some (true, y, r).
Proof.
  intros Hr. destruct s as [|c s]; [discriminate|].
  assert (Hc : c ≠ "+"%char ∧ c ≠ "-"%char).
  { simpl in Hr. destruct (digit_of c) eqn:E; [|discriminate]. by eapply digit_not_sign. }
  destruct Hc as [Hp Hm].
  unfold parse_year.
  destruct c as [[] [] [] [] [] [] [] []]; try congruence; by rewrite Hr.
Qed.


Lemma includes_here (sub rest : string) : includes sub (sub +:+ rest) = true.
Proof.
  assert (Hp : String.prefix sub (sub +:+ rest) = true).
  { induction sub as [|c sub IH]; [by destruct rest|].
    change (String c sub +:+ rest) with (String c (sub +:+ rest)). simpl.
    destruct (ascii_dec c c); [exact IH | congruence]. }
  destruct (sub +:+ rest); simpl in *; by rewrite Hp.
Qed.

Lemma includes_later (sub a b : string) : includes sub b = true → includes sub (a +:+ b) = true.
Proof.
  intros Hb. induction a as [|c a IH]; [exact Hb|].
  change (String c a +:+ b) with (String c (a +:+ b)). simpl. rewrite IH. apply orb_true_r.
Qed.

Lemma toISOString_markers (t : Z) :
  includes "T" (toISOString t) = true ∧ includes "Z" (toISOString t) = true.
Proof.
  unfold toISOString. split.
  - do 5 apply includes_later. apply includes_here.
  - do 13 apply includes_later. apply (includes_here "Z" "").
Qed.

Lemma year_bounds_time (t : Z) :
  0 <= YearFromTime t <= 9999 → Z.abs t <= 8640000000000000.
Proof.
  unfold YearFromTime. intros Hy.
  pose proof (YearFromDay_spec (Day t)) as Hd.
  assert (DayFromYear 0 <= DayFromYear (YearFromDay (Day t))).
  { unfold DayFromYear. Z.div_mod_to_equations. lia. }
  assert (DayFromYear (YearFromDay (Day t) + 1) <= DayFromYear 10000).
  { unfold DayFromYear. Z.div_mod_to_equations. lia. }
  change (DayFromYear 0) with (-719528) in *.
  change (DayFromYear 10000) with 2932897 in *.
  unfold Day, msPerDay in *. Z.div_mod_to_equations. lia.
Qed.


Lemma read_pad2 (n : Z) (rest : string) :
  0 <= n < 100 → read_digits 2 0 (pad 2 n +:+ rest) = Some (n, rest).
Proof. intros Hn. by rewrite (read_digits_app _ _ _ rest _ _ (pad2_reads n Hn)). Qed.

Lemma read_pad3 (n : Z) (rest : string) :
  0 <= n < 1000 → read_digits 3 0 (pad 3 n +:+ rest) = Some (n, rest).
Proof. intros Hn. by rewrite (read_digits_app _ _ _ rest _ _ (pad3_reads n Hn)). Qed.

Lemma read_pad4 (n : Z) (rest : string) :
  0 <= n < 10000 → read_digits 4 0 (pad 4 n +:+ rest) = Some (n, rest).
Proof. intros Hn. by rewrite (read_digits_app _ _ _ rest _ _ (pad4_reads n Hn)). Qed.

Ltac bind_some := unfold mbind, option_bind; cbv beta iota.

Lemma parse_month_day_pads (mo d : Z) (rest : string) :
  0 <= mo < 100 → 0 <= d < 100 →
  parse_month_day ("-" +:+ pad 2 mo +:+ "-" +:+ pad 2 d +:+ rest) = Some (mo, d, rest).
Proof.
  intros Hmo Hd.
  change ("-" +:+ ?x) with (String "-" x). unfold parse_month_day. cbv beta iota.
  rewrite (read_pad2 mo _ Hmo). bind_some.
  change ("-" +:+ ?x) with (String "-" x). cbv beta iota.
  rewrite (read_pad2 d _ Hd). reflexivity.
Qed.

Lemma parse_time_pads (h mi se ms : Z) (rest : string) :
  0 <= h < 100 → 0 <= mi < 100 → 0 <= se < 100 → 0 <= ms < 1000 →
  parse_time (pad 2 h +:+ ":" +:+ pad 2 mi +:+ ":" +:+ pad 2 se +:+ "." +:+ pad 3 ms +:+ rest)
  = Some (h, mi, se, ms, rest).
Proof.
  intros Hh Hmi Hse Hms. unfold parse_time.
  rewrite (read_pad2 h _ Hh). bind_some.
  change (":" +:+ ?x) with (String ":" x). cbv beta iota.
  rewrite (read_pad2 mi _ Hmi). bind_some.
  change (":" +:+ ?x) with (String ":" x). cbv beta iota.
  rewrite (read_pad2 se _ Hse). bind_some.
  change ("." +:+ ?x) with (String "." x). cbv beta iota.
  rewrite (read_pad3 ms _ Hms). reflexivity.
Qed.

Lemma parse_iso_canonical (t : Z) :
  0 <= YearFromTime t <= 9999 → parse_iso (toISOString t) = ISOTime t true.
Proof.
  intros Hy. pose proof (fields_in_range t) as (Hmo & Hd & Hh & Hmi & Hse & Hms).
  assert (Hy4 : 0 <= YearFromTime t < 10000) by lia.
  assert (Hmo2 : 0 <= MonthFromTime t + 1 < 100) by lia.
  assert (Hd2 : 0 <= DateFromTime t < 100) by lia.
  assert (Hh2 : 0 <= HourFromTime t < 100) by lia.
  assert (Hmi2 : 0 <= MinFromTime t < 100) by lia.
  assert (Hse2 : 0 <= SecFromTime t < 100) by lia.
  assert (Hms2 : 0 <= msFromTime t < 1000) by lia.
  unfold toISOString.
  replace ((0 <=? YearFromTime t) && (YearFromTime t <=? 9999)) with true
    by (symmetry; apply andb_true_iff; split; apply Z.leb_le; lia).
  unfold parse_iso.
  rewrite (parse_year_digits _ _ _ (read_pad4 (YearFromTime t) _ Hy4)).
  rewrite (parse_month_day_pads _ _ _ Hmo2 Hd2).
  change ("T" +:+ ?x) with (String "T" x). cbv beta iota.
  rewrite (parse_time_pads _ _ _ _ _ Hh2 Hmi2 Hse2 Hms2).
  change (parse_offset "Z") with (Some (Some (0, true))). cbv beta iota.
  replace (MonthFromTime t + 1 - 1) with (MonthFromTime t) by lia.
  rewrite fields_compose.
  replace (time_in_range _ _ _ _) with true
    by (symmetry; unfold time_in_range; apply orb_true_iff; left;
        rewrite !andb_true_iff; repeat split; apply Z.leb_le; lia).
  replace (true && (1 <=? MonthFromTime t + 1) && (MonthFromTime t + 1 <=? 12)
           && (1 <=? DateFromTime t) && (DateFromTime t <=? 31)) with true
    by (symmetry; rewrite !andb_true_iff; repeat split; try reflexivity; apply Z.leb_le; lia).
  cbv beta iota. f_equal. unfold msPerMinute. lia.
Qed.

(** A canonical timestamp is returned as it is. *)
Theorem canonical_timestamp_is_kept (t : Z) :
  0 <= YearFromTime t <= 9999 →
  validateAndFormatTimestamp (toISOString t) = inr (toISOString t).
Proof.
  intros Hy. unfold validateAndFormatTimestamp, date_source.
  destruct (toISOString_markers t) as [-> ->]. cbv iota beta. simpl andb. cbv iota.
  unfold new_Date, parse. rewrite (parse_iso_canonical t Hy).
  unfold TimeClip.
  replace (Z.abs t <=? 8640000000000000) with true
    by (symmetry; apply Z.leb_le, year_bounds_time, Hy).
  reflexivity.
Qed.


Lemma prefix_nil (s : string) : String.prefix "" s = true.
Proof. by destruct s. Qed.

Lemma includes_char_app (c : ascii) (a b : string) :
  includes (String c "") (a +:+ b) = includes (String c "") a || includes (String c "") b.
Proof.
  induction a as [|x a IH]; [reflexivity|].
  change (String x a +:+ b) with (String x (a +:+ b)).
  change (includes (String c "") (String x ?s))
    with (String.prefix (String c "") (String x s) || includes (String c "") s).
  rewrite IH. simpl String.prefix. rewrite !prefix_nil.
  by destruct (ascii_dec c x).
Qed.

Lemma monthStart_bound (leap : bool) (m : Z) :
  0 <= m <= 11 → 0 <= monthStart leap m <= 335.
Proof.
  intros Hm.
  assert (Hcase : m = 0 ∨ m = 1 ∨ m = 2 ∨ m = 3 ∨ m = 4 ∨ m = 5 ∨ m = 6 ∨ m = 7
                  ∨ m = 8 ∨ m = 9 ∨ m = 10 ∨ m = 11) by lia.
  destruct leap;
    repeat (destruct Hcase as [-> | Hcase]; [simpl; lia|]); subst m; simpl; lia.
Qed.

Lemma legal_time_value (y mo d h mi se : Z) :
  legal_date y mo d → legal_time h mi se →
  TimeClip (utc_time y mo d h mi se)
  = Some (utc_time y mo d h mi se).
Proof.
  intros (Hy & Hmo & Hd) (Hh & Hmi & Hse). unfold TimeClip, utc_time.
  match goal with |- (if ?c then _ else _) = _ => replace c with true; [reflexivity|] end.
  symmetry. apply Z.leb_le.
  unfold MakeDate, MakeDay, MakeTime, msPerDay, msPerHour, msPerMinute, msPerSecond.
  replace ((mo - 1) / 12) with 0 by (Z.div_mod_to_equations; lia).
  replace ((mo - 1) mod 12) with (mo - 1) by (Z.div_mod_to_equations; lia).
  rewrite Z.add_0_r.
  pose proof (monthStart_bound (isLeap y) (mo - 1) ltac:(lia)) as Hms.
  assert (-719528 <= DayFromYear y <= 2932532).
  { unfold DayFromYear. Z.div_mod_to_equations. lia. }
  lia.
Qed.


Lemma parse_time_seconds (h mi se : Z) :
  0 <= h < 100 → 0 <= mi < 100 → 0 <= se < 100 →
  parse_time (pad 2 h +:+ ":" +:+ pad 2 mi +:+ ":" +:+ pad 2 se +:+ "Z")
  = Some (h, mi, se, 0, "Z").
Proof.
  intros Hh Hmi Hse. unfold parse_time.
  rewrite (read_pad2 h _ Hh). bind_some.
  change (":" +:+ ?x) with (String ":" x). cbv beta iota.
  rewrite (read_pad2 mi _ Hmi). bind_some.
  change (":" +:+ ?x) with (String ":" x). cbv beta iota.
  rewrite (read_pad2 se _ Hse). reflexivity.
Qed.

Lemma parse_iso_date_time (y mo d h mi se : Z) :
  legal_date y mo d → legal_time h mi se →
  parse_iso (pad 4 y +:+ "-" +:+ pad 2 mo +:+ "-" +:+ pad 2 d +:+ "T"
               +:+ pad 2 h +:+ ":" +:+ pad 2 mi +:+ ":" +:+ pad 2 se +:+ "Z")
  = ISOTime (utc_time y mo d h mi se) true.
Proof.
  intros (Hy & Hmo & Hd) (Hh & Hmi & Hse).
  assert (Hy4 : 0 <= y < 10000) by lia.
  assert (Hmo2 : 0 <= mo < 100) by lia.
  assert (Hd2 : 0 <= d < 100) by lia.
  assert (Hh2 : 0 <= h < 100) by lia.
  assert (Hmi2 : 0 <= mi < 100) by lia.
  assert (Hse2 : 0 <= se < 100) by lia.
  unfold parse_iso.
  rewrite (parse_year_digits _ _ _ (read_pad4 y _ Hy4)).
  rewrite (parse_month_day_pads _ _ _ Hmo2 Hd2).
  change ("T" +:+ ?x) with (String "T" x). cbv beta iota.
  rewrite (parse_time_seconds _ _ _ Hh2 Hmi2 Hse2).
  change (parse_offset "Z") with (Some (Some (0, true))). cbv beta iota.
  replace (time_in_range _ _ _ _) with true
    by (symmetry; unfold time_in_range; apply orb_true_iff; left;
        rewrite !andb_true_iff; repeat split; apply Z.leb_le; lia).
  replace (true && (1 <=? mo) && (mo <=? 12) && (1 <=? d) && (d <=? 31)) with true
    by (symmetry; rewrite !andb_true_iff; repeat split; try reflexivity; apply Z.leb_le; lia).
  cbv beta iota. f_equal. unfold utc_time, msPerMinute. lia.
Qed.

Lemma iso_date_plain (y mo d : Z) :
  legal_date y mo d →
  includes "T" (iso_date y mo d) = false ∧ includes "Z" (iso_date y mo d) = false.
Proof.
  intros (Hy & Hmo & Hd). unfold iso_date.
  destruct (pad4_plain y ltac:(lia)) as (_ & HT4 & HZ4).
  destruct (pad2_plain mo ltac:(lia)) as (_ & HTm & HZm).
  destruct (pad2_plain d ltac:(lia)) as (_ & HTd & HZd).
  rewrite !includes_char_app, HT4, HTm, HTd, HZ4, HZm, HZd. by split.
Qed.

Lemma iso_time_plain (h mi se : Z) :
  legal_time h mi se → includes "Z" (iso_time h mi se) = false.
Proof.
  intros (Hh & Hmi & Hse). unfold iso_time.
  destruct (pad2_plain h ltac:(lia)) as (_ & _ & HZh).
  destruct (pad2_plain mi ltac:(lia)) as (_ & _ & HZm).
  destruct (pad2_plain se ltac:(lia)) as (_ & _ & HZs).
  by rewrite !includes_char_app, HZh, HZm, HZs.
Qed.

Lemma is_date_only_iso_date (y mo d : Z) :
  legal_date y mo d → is_date_only (iso_date y mo d) = true.
Proof.
  intros (Hy & Hmo & Hd). unfold is_date_only, iso_date.
  rewrite (read_pad4 y _ ltac:(lia)).
  change ("-" +:+ ?x) with (String "-" x). cbv beta iota.
  rewrite (read_pad2 mo _ ltac:(lia)).
  change ("-" +:+ ?x) with (String "-" x). cbv beta iota.
  by rewrite (pad2_reads d ltac:(lia)).
Qed.

(** The shape with the UTC marker: the string is taken as it is. *)
Theorem marked_timestamp_is_utc (y mo d h mi se : Z) :
  legal_date y mo d → legal_time h mi se →
  validateAndFormatTimestamp (iso_date y mo d +:+ "T" +:+ iso_time h mi se +:+ "Z")
  = inr (toISOString (utc_time y mo d h mi se)).
Proof.
  intros Hdate Htime. unfold validateAndFormatTimestamp, date_source.
  replace (includes "T" _) with true
    by (symmetry; apply includes_later, includes_here).
  replace (includes "Z" _) with true
    by (symmetry; do 3 apply includes_later; reflexivity).
  cbv beta iota. change (true && true) with true. cbv iota.
  unfold new_Date, parse, iso_date, iso_time.
  rewrite !string_app_assoc.
  rewrite (parse_iso_date_time y mo d h mi se Hdate Htime).
  by rewrite legal_time_value.
Qed.

(** The shape without the UTC marker: the time is taken as UTC. *)
Theorem unmarked_timestamp_is_utc (y mo d h mi se : Z) :
  legal_date y mo d → legal_time h mi se →
  validateAndFormatTimestamp (iso_date y mo d +:+ "T" +:+ iso_time h mi se)
  = inr (toISOString (utc_time y mo d h mi se)).
Proof.
  intros Hdate Htime. unfold validateAndFormatTimestamp, date_source.
  replace (includes "T" _) with true
    by (symmetry; apply includes_later, includes_here).
  replace (includes "Z" _) with false
    by (symmetry; rewrite !includes_char_app, (iso_time_plain _ _ _ Htime);
        by destruct (iso_date_plain _ _ _ Hdate) as [_ ->]).
  cbv beta iota. change (true && false) with false. change (true && negb false) with true.
  cbv iota.
  unfold new_Date, parse, iso_date, iso_time.
  rewrite !string_app_assoc.
  rewrite (parse_iso_date_time y mo d h mi se Hdate Htime).
  by rewrite legal_time_value.
Qed.

(** The bare date: midnight UTC of that day. *)
Theorem bare_date_is_utc_midnight (y mo d : Z) :
  legal_date y mo d →
  validateAndFormatTimestamp (iso_date y mo d)
  = inr (toISOString (utc_time y mo d 0 0 0)).
Proof.
  intros Hdate. unfold validateAndFormatTimestamp, date_source.
  destruct (iso_date_plain _ _ _ Hdate) as [-> ->].
  rewrite (is_date_only_iso_date _ _ _ Hdate).
  cbv beta iota. change (false && false) with false. change (false && negb false) with false.
  cbv iota.
  unfold new_Date, parse, iso_date.
  change "T00:00:00Z" with ("T" +:+ pad 2 0 +:+ ":" +:+ pad 2 0 +:+ ":" +:+ pad 2 0 +:+ "Z").
  rewrite !string_app_assoc.
  assert (Hmidnight : legal_time 0 0 0) by (repeat split; lia).
  rewrite (parse_iso_date_time y mo d 0 0 0 Hdate Hmidnight).
  by rewrite (legal_time_value y mo d 0 0 0 Hdate Hmidnight).
Qed.

End IsoTimestamps.

(** ** Timestamps and the range route *)

Section Timestamps.
Import JSString JSDate JSValue Timestamp Feed Process Spec.
Context `{Runtime} (w : world).

(** The four shapes on sample inputs: the result of each does not depend
    on the engine. *)
Example timestamp_with_utc_marker :
  validateAndFormatTimestamp "2024-05-26T19:00:00Z" = inr "2024-05-26T19:00:00.000Z".
Proof. reflexivity. Qed.

Example timestamp_without_utc_marker :
  validateAndFormatTimestamp "2024-05-26T19:00:00" = inr "2024-05-26T19:00:00.000Z".
Proof. reflexivity. Qed.

Example timestamp_bare_date :
  validateAndFormatTimestamp "2024-05-26" = inr "2024-05-26T00:00:00.000Z".
Proof. reflexivity. Qed.

Example timestamp_year_and_month :
  validateAndFormatTimestamp "2024-05" = inr "2024-05-01T00:00:00.000Z".
Proof. reflexivity. Qed.

Example timestamp_illegal_date :
  validateAndFormatTimestamp "2024-13-45"
  = inl (Error "Invalid timestamp format: 2024-13-45").
Proof. reflexivity. Qed.

(** C3, at the input [2024-05-26T19:00:00+05:00].  The string is a
    timestamp the engine parses, to 14:00 UTC of that day; it contains a
    [T] and no [Z], so the function appends a [Z] and parses the result,
    which is outside the Date Time String Format; on an engine whose own
    heuristics reject that string the function throws. *)
Theorem offset_timestamp_rejected :
  legacy_parse "2024-05-26T19:00:00+05:00Z" = None →
  new_Date "2024-05-26T19:00:00+05:00" = Some 1716732000000
  ∧ toISOString 1716732000000 = "2024-05-26T14:00:00.000Z"
  ∧ validateAndFormatTimestamp "2024-05-26T19:00:00+05:00"
    = inl (Error "Invalid timestamp format: 2024-05-26T19:00:00+05:00").
Proof.
  intros Hlegacy. split; [reflexivity|]. split; [reflexivity|].
  unfold validateAndFormatTimestamp.
  change (date_source "2024-05-26T19:00:00+05:00") with "2024-05-26T19:00:00+05:00Z".
  unfold new_Date, parse.
  change (parse_iso "2024-05-26T19:00:00+05:00Z") with NotISO.
  by rewrite Hlegacy.
Qed.

Lemma fetch_range_invalid (startTime endTime : string) (s : state) :
  (∃ e, validateAndFormatTimestamp startTime = inl e)
  ∨ (∃ e, validateAndFormatTimestamp endTime = inl e) →
  fetchWarningsForTimeRange w startTime endTime s = (inr None, s).
Proof.
  intros Hbad. unfold fetchWarningsForTimeRange.
  rewrite try_catch_run, bind_run.
  change (lift ?r s) with (r, s).
  destruct (validateAndFormatTimestamp startTime) as [e1|t1]; [reflexivity|].
  rewrite bind_run. change (lift ?r s) with (r, s).
  destruct Hbad as [[e He] | [e He]]; [discriminate|].
  by rewrite He.
Qed.

(** C6, on the code.  When the start or the end of the range is a
    timestamp that [validateAndFormatTimestamp] rejects, the range route
    makes no request and answers with status 200 and an empty list of
    warnings, and the simulate route with status 200 and zero counts: the
    error does not reach the caller. *)
Theorem range_route_hides_invalid_timestamp (start end_ : string) (s : state) :
  start ≠ "" → end_ ≠ "" →
  (∃ e, validateAndFormatTimestamp start = inl e)
  ∨ (∃ e, validateAndFormatTimestamp end_ = inl e) →
  range_route w (Some start) (Some end_) s
  = (inr {| status_code := 200; body := RangeBody 0 start end_ [] |}, s)
  ∧ simulate_route w (Some start) (Some end_) s
    = (inr {| status_code := 200; body := SimulateBody 0 0 0 |}, s).
Proof.
  intros Hs He Hbad. unfold range_route, simulate_route, missing.
  apply String.eqb_neq in Hs, He. rewrite Hs, He.
  change (false || false) with false. cbv beta iota.
  change (default "" (Some start)) with start.
  change (default "" (Some end_)) with end_.
  rewrite !try_catch_run, !bind_run.
  by rewrite (fetch_range_invalid start end_ s Hbad).
Qed.

Lemma fetch_range_valid (startTime endTime a b : string) (s : state) :
  validateAndFormatTimestamp startTime = inr a →
  validateAndFormatTimestamp endTime = inr b →
  let url := API_BASE_URL +:+ "?sts=" +:+ a +:+ "&ets=" +:+ b in
  fetchWarningsForTimeRange w startTime endTime s
  = (inr match get_feed w (calls s) url with inr d => d | inl _ => None end,
     snd (axios_get_feed w url s)).
Proof.
  intros Ha Hb url. unfold fetchWarningsForTimeRange.
  rewrite try_catch_run, bind_run. change (lift ?r s) with (r, s). rewrite Ha.
  cbv beta iota. rewrite bind_run. change (lift ?r s) with (r, s). rewrite Hb.
  cbv beta iota. fold url. unfold axios_get_feed. rewrite call_run.
  by destruct (get_feed w (calls s) url).
Qed.

(** X6.  With both timestamps accepted and a feed document received, the
    simulate route answers with status 200, and the numbers of sent and
    failed dispatches it reports add up to the number of events extracted
    from the document; the tracked list, the update time and the seen
    discussions are left as they were. *)
Theorem simulate_route_dispatches_all
    (start end_ a b : string) (doc : feed_document) (s : state) :
  start ≠ "" → end_ ≠ "" →
  validateAndFormatTimestamp start = inr a →
  validateAndFormatTimestamp end_ = inr b →
  get_feed w (calls s) (API_BASE_URL +:+ "?sts=" +:+ a +:+ "&ets=" +:+ b)
  = inr (Some (document doc)) →
  ∃ current sent failed s',
    parseTornadoWarnings (Some (document doc)) = inr current
    ∧ simulate_route w (Some start) (Some end_) s
      = (inr {| status_code := 200; body := SimulateBody sent failed (length current) |}, s')
    ∧ (sent + failed = length current)%nat
    ∧ same_store s s'.
Proof.
  intros Hs He Ha Hb Hfeed.
  destruct (parse_document doc) as (current & Hparse).
  unfold simulate_route, missing.
  apply String.eqb_neq in Hs, He. rewrite Hs, He.
  change (false || false) with false. cbv beta iota.
  change (default "" (Some start)) with start.
  change (default "" (Some end_)) with end_.
  rewrite try_catch_run, bind_run, (fetch_range_valid _ _ a b s Ha Hb), Hfeed.
  cbv beta iota. rewrite bind_run. unfold warnings_of. change (lift ?r ?s0) with (r, s0).
  rewrite Hparse. cbv beta iota. rewrite bind_run.
  destruct (simulate_loop_run w current 0 0 (snd (axios_get_feed w
              (API_BASE_URL +:+ "?sts=" +:+ a +:+ "&ets=" +:+ b) s)))
    as (sent & failed & s' & -> & Hsum & (Hst & _)).
  exists current, sent, failed, s'. split; [reflexivity|]. split; [reflexivity|].
  split; [lia|]. destruct Hst as (? & ? & ?). by repeat split.
Qed.

End Timestamps.

(** ** Calendar dates and their time values *)

Section CalendarInverse.
Import JSString JSDate JSValue Timestamp Feed Process Spec Readers Notions.

Lemma DayFromYear_mono (a b : Z) : a <= b → DayFromYear a <= DayFromYear b.
Proof. intros Hab. unfold DayFromYear. Z.div_mod_to_equations. lia. Qed.

Lemma YearFromDay_unique (y d : Z) :
  DayFromYear y <= d < DayFromYear (y + 1) → YearFromDay d = y.
Proof.
  intros Hd. pose proof (YearFromDay_spec d) as Hs.
  destruct (Z.lt_trichotomy (YearFromDay d) y) as [Hlt | [Heq | Hgt]]; [|assumption|].
  - pose proof (DayFromYear_mono (YearFromDay d + 1) y ltac:(lia)). lia.
  - pose proof (DayFromYear_mono (y + 1) (YearFromDay d) ltac:(lia)). lia.
Qed.

Lemma real_date_legal (y mo d : Z) : real_date y mo d → legal_date y mo d.
Proof.
  intros (Hy & Hmo & Hd). split; [assumption|]. split; [assumption|].
  unfold days_in_month in Hd.
  assert (Hcase : mo = 1 ∨ mo = 2 ∨ mo = 3 ∨ mo = 4 ∨ mo = 5 ∨ mo = 6 ∨ mo = 7 ∨ mo = 8
                  ∨ mo = 9 ∨ mo = 10 ∨ mo = 11 ∨ mo = 12) by lia.
  destruct (isLeap y);
    repeat (destruct Hcase as [-> | Hcase]; [simpl in Hd; lia|]); subst mo; simpl in Hd; lia.
Qed.

Lemma monthOfDay_unique (leap : bool) (m diy : Z) :
  0 <= m <= 11 → monthStart leap m <= diy < monthStart leap (m + 1) →
  monthOfDay 11 leap 0 diy = m.
Proof.
  intros Hm Hd.
  assert (Hdiy : 0 <= diy < (if leap then 366 else 365)).
  { assert (Hcase : m = 0 ∨ m = 1 ∨ m = 2 ∨ m = 3 ∨ m = 4 ∨ m = 5 ∨ m = 6 ∨ m = 7
                    ∨ m = 8 ∨ m = 9 ∨ m = 10 ∨ m = 11) by lia.
    destruct leap;
      repeat (destruct Hcase as [-> | Hcase]; [simpl in Hd; lia|]); subst m; simpl in Hd; lia. }
  pose proof (monthOfDay_spec leap diy Hdiy) as [Hr Hs]. cbv zeta in Hr, Hs.
  set (m' := monthOfDay 11 leap 0 diy) in *.
  assert (Hcase : m = 0 ∨ m = 1 ∨ m = 2 ∨ m = 3 ∨ m = 4 ∨ m = 5 ∨ m = 6 ∨ m = 7
                  ∨ m = 8 ∨ m = 9 ∨ m = 10 ∨ m = 11) by lia.
  assert (Hcase' : m' = 0 ∨ m' = 1 ∨ m' = 2 ∨ m' = 3 ∨ m' = 4 ∨ m' = 5 ∨ m' = 6 ∨ m' = 7
                  ∨ m' = 8 ∨ m' = 9 ∨ m' = 10 ∨ m' = 11) by lia.
  clearbody m'.
  destruct leap;
    repeat (destruct Hcase as [Hcase | Hcase]);
    repeat (destruct Hcase' as [Hcase' | Hcase']);
    subst m m'; simpl in *; lia.
Qed.

(** The UTC fields of the time value of a calendar date and a time of day
    are that date and that time. *)
Lemma utc_time_fields (y mo d h mi se : Z) :
  real_date y mo d → legal_time h mi se →
  let t := utc_time y mo d h mi se in
  YearFromTime t = y ∧ MonthFromTime t = mo - 1 ∧ DateFromTime t = d
  ∧ HourFromTime t = h ∧ MinFromTime t = mi ∧ SecFromTime t = se ∧ msFromTime t = 0.
Proof.
  intros (Hy & Hmo & Hd) (Hh & Hmi & Hse) t.
  assert (Hday : Day t = DayFromYear y + monthStart (isLeap y) (mo - 1) + d - 1).
  { subst t. unfold utc_time, MakeDate, MakeDay, MakeTime, Day,
      msPerDay, msPerHour, msPerMinute, msPerSecond.
    replace ((mo - 1) / 12) with 0 by (Z.div_mod_to_equations; lia).
    replace ((mo - 1) mod 12) with (mo - 1) by (Z.div_mod_to_equations; lia).
    rewrite Z.add_0_r. Z.div_mod_to_equations. lia. }
  assert (Hin : monthStart (isLeap y) (mo - 1) <= monthStart (isLeap y) (mo - 1) + d - 1
                < monthStart (isLeap y) (mo - 1 + 1)).
  { unfold days_in_month in Hd. replace (mo - 1 + 1) with mo by lia. lia. }
  assert (Hyear : YearFromTime t = y).
  { unfold YearFromTime. apply YearFromDay_unique. rewrite Hday.
    pose proof (year_length y) as Hl.
    pose proof (monthStart_bound (isLeap y) (mo - 1) ltac:(lia)) as Hb.
    assert (monthStart (isLeap y) (mo - 1 + 1) <= if isLeap y then 366 else 365).
    { assert (Hcase : mo = 1 ∨ mo = 2 ∨ mo = 3 ∨ mo = 4 ∨ mo = 5 ∨ mo = 6 ∨ mo = 7 ∨ mo = 8
                  ∨ mo = 9 ∨ mo = 10 ∨ mo = 11 ∨ mo = 12) by lia.
      destruct (isLeap y);
        repeat (destruct Hcase as [-> | Hcase]; [simpl; lia|]); subst mo; simpl; lia. }
    destruct (isLeap y); lia. }
  assert (Hdiy : DayWithinYear t = monthStart (isLeap y) (mo - 1) + d - 1).
  { unfold DayWithinYear. rewrite Hyear, Hday. lia. }
  assert (Hmonth : MonthFromTime t = mo - 1).
  { unfold MonthFromTime. rewrite Hyear, Hdiy. apply monthOfDay_unique; [lia | exact Hin]. }
  split; [assumption|]. split; [assumption|].
  split; [unfold DateFromTime; rewrite Hyear, Hmonth, Hdiy; lia|].
  subst t. unfold utc_time, MakeDate, MakeTime, HourFromTime, MinFromTime, SecFromTime,
    msFromTime, msPerDay, msPerHour, msPerMinute, msPerSecond.
  generalize (MakeDay y (mo - 1) d). intros D.
  Z.div_mod_to_equations. lia.
Qed.

Lemma toISOString_utc_time (y mo d h mi se : Z) :
  real_date y mo d → legal_time h mi se →
  toISOString (utc_time y mo d h mi se)
  = iso_date y mo d +:+ "T" +:+ iso_time h mi se +:+ ".000Z".
Proof.
  intros Hdate Htime.
  destruct (utc_time_fields y mo d h mi se Hdate Htime) as (Hy & Hmo & Hd & Hh & Hmi & Hse & Hms).
  cbv zeta in *. unfold toISOString. rewrite Hy, Hmo, Hd, Hh, Hmi, Hse, Hms.
  destruct Hdate as (Hyr & _).
  replace ((0 <=? y) && (y <=? 9999)) with true
    by (symmetry; apply andb_true_iff; split; apply Z.leb_le; lia).
  replace (mo - 1 + 1) with mo by lia.
  unfold iso_date, iso_time. change (pad 3 0) with "000".
  rewrite !string_app_assoc. reflexivity.
Qed.

End CalendarInverse.

(** ** Timestamps of calendar dates *)

Section RealTimestamps.
Import JSString JSDate JSValue Timestamp Feed Process Spec Readers Notions.
Context `{Runtime}.

Lemma new_Date_date_time (y mo d h mi se : Z) :
  legal_date y mo d → legal_time h mi se →
  new_Date (iso_date y mo d +:+ "T" +:+ iso_time h mi se +:+ "Z")
  = Some (utc_time y mo d h mi se).
Proof.
  intros Hdate Htime. unfold new_Date, parse, iso_date, iso_time.
  rewrite !string_app_assoc.
  rewrite (parse_iso_date_time y mo d h mi se Hdate Htime).
  by rewrite legal_time_value.
Qed.

Lemma date_source_marked (y mo d h mi se : Z) :
  date_source (iso_date y mo d +:+ "T" +:+ iso_time h mi se +:+ "Z")
  = iso_date y mo d +:+ "T" +:+ iso_time h mi se +:+ "Z".
Proof.
  unfold date_source.
  replace (includes "T" _) with true
    by (symmetry; apply includes_later, includes_here).
  replace (includes "Z" _) with true
    by (symmetry; do 3 apply includes_later; reflexivity).
  reflexivity.
Qed.

Lemma date_source_unmarked (y mo d h mi se : Z) :
  legal_date y mo d → legal_time h mi se →
  date_source (iso_date y mo d +:+ "T" +:+ iso_time h mi se)
  = iso_date y mo d +:+ "T" +:+ iso_time h mi se +:+ "Z".
Proof.
  intros Hdate Htime. unfold date_source.
  replace (includes "T" _) with true
    by (symmetry; apply includes_later, includes_here).
  replace (includes "Z" _) with false
    by (symmetry; rewrite !includes_char_app, (iso_time_plain _ _ _ Htime);
        by destruct (iso_date_plain _ _ _ Hdate) as [_ ->]).
  cbv beta iota. change (true && false) with false. change (true && negb false) with true.
  cbv iota. by rewrite !string_app_assoc.
Qed.

Lemma date_source_bare (y mo d : Z) :
  legal_date y mo d →
  date_source (iso_date y mo d) = iso_date y mo d +:+ "T" +:+ iso_time 0 0 0 +:+ "Z".
Proof.
  intros Hdate. unfold date_source.
  destruct (iso_date_plain _ _ _ Hdate) as [-> ->].
  by rewrite (is_date_only_iso_date _ _ _ Hdate).
Qed.

(** X7.  For a date of the calendar and a time of day, written with or without
    the UTC marker, the result is that same date and time in the canonical
    form, with the milliseconds and the marker added; for the bare date it
    is midnight of that day. *)
Theorem real_timestamp_is_normalised (y mo d h mi se : Z) :
  real_date y mo d → legal_time h mi se →
  let canonical := iso_date y mo d +:+ "T" +:+ iso_time h mi se +:+ ".000Z" in
  validateAndFormatTimestamp (iso_date y mo d +:+ "T" +:+ iso_time h mi se +:+ "Z")
  = inr canonical
  ∧ validateAndFormatTimestamp (iso_date y mo d +:+ "T" +:+ iso_time h mi se)
    = inr canonical
  ∧ validateAndFormatTimestamp (iso_date y mo d)
    = inr (iso_date y mo d +:+ "T00:00:00.000Z").
Proof.
  intros Hreal Htime canonical. subst canonical.
  pose proof (real_date_legal _ _ _ Hreal) as Hdate.
  assert (Hmidnight : legal_time 0 0 0) by (repeat split; lia).
  unfold validateAndFormatTimestamp.
  rewrite date_source_marked, (date_source_unmarked _ _ _ _ _ _ Hdate Htime),
    (date_source_bare _ _ _ Hdate).
  rewrite !new_Date_date_time by assumption.
  rewrite !toISOString_utc_time by assumption.
  done.
Qed.

Lemma pad_nonempty (k : nat) (n : Z) (v : Z) (r : string) :
  read_digits (S k) 0 (pad (S k) n) = Some (v, r) → pad (S k) n ≠ "".
Proof. intros Hr Hp. rewrite Hp in Hr. discriminate. Qed.

Lemma string_length_app (a b : string) :
  String.length (a +:+ b) = (String.length a + String.length b)%nat.
Proof.
  induction a as [|c a IH]; [reflexivity|].
  change (String c a +:+ b) with (String c (a +:+ b)). simpl. by rewrite IH.
Qed.

Lemma lengths_all (f : Z → string) (k : nat) (lo bound : nat) :
  forallb (fun i => (String.length (f (Z.of_nat i)) =? k)%nat) (seq lo bound) = true →
  ∀ n, Z.of_nat lo <= n < Z.of_nat (lo + bound) → String.length (f n) = k.
Proof.
  intros Hall n Hn. rewrite forallb_forall in Hall.
  assert (Hin : In (Z.to_nat n) (seq lo bound)) by (apply in_seq; lia).
  specialize (Hall _ Hin). rewrite Z2Nat.id in Hall by lia. by apply Nat.eqb_eq.
Qed.

Lemma pad2_length (n : Z) : 0 <= n < 100 → String.length (pad 2 n) = 2%nat.
Proof.
  intros Hn. apply (lengths_all (pad 2) 2 0 100); [vm_compute; reflexivity|].
  assert (Hhi : Z.of_nat (0 + 100) = 100) by (vm_compute; reflexivity).
  rewrite Hhi. lia.
Qed.

Lemma year_length4 (y : Z) : 1000 <= y <= 9999 → String.length (of_Z y) = 4%nat.
Proof.
  intros Hn. apply (lengths_all of_Z 4 1000 (90 * 100)); [vm_compute; reflexivity|].
  assert (Hlo : Z.of_nat 1000 = 1000) by (vm_compute; reflexivity).
  assert (Hhi : Z.of_nat (1000 + 90 * 100) = 10000) by (vm_compute; reflexivity).
  rewrite Hlo, Hhi. lia.
Qed.

(** X8.  For an issue time that is a date of the calendar with a time of day,
    the time stamp of the radar map is the year, as the number prints,
    followed by the month, day, hour and minute in two digits each: twelve
    digits when the year has four. *)
Theorem radmap_timestamp_digits (y mo d h mi se : Z) :
  real_date y mo d → legal_time h mi se →
  let ts := formatTimestampForRadMap
              (VStr (iso_date y mo d +:+ "T" +:+ iso_time h mi se +:+ "Z")) in
  ts = of_Z y +:+ pad 2 mo +:+ pad 2 d +:+ pad 2 h +:+ pad 2 mi
  ∧ (1000 <= y → String.length ts = 12%nat).
Proof.
  intros Hreal Htime ts.
  pose proof (real_date_legal _ _ _ Hreal) as Hdate.
  assert (Hts : ts = of_Z y +:+ pad 2 mo +:+ pad 2 d +:+ pad 2 h +:+ pad 2 mi).
  { subst ts. unfold formatTimestampForRadMap.
    assert (Htruthy : truthy (VStr (iso_date y mo d +:+ "T" +:+ iso_time h mi se +:+ "Z")) = true).
    { unfold truthy, iso_date. destruct Hdate as (Hy & _).
      pose proof (pad_nonempty 3 y _ _ (pad4_reads y ltac:(lia))) as Hne.
      destruct (pad 4 y) as [|c r]; [done | reflexivity]. }
    rewrite Htruthy. cbv beta iota. unfold new_Date_of.
    rewrite (new_Date_date_time _ _ _ _ _ _ Hdate Htime).
    destruct (utc_time_fields y mo d h mi se Hreal Htime) as (-> & -> & -> & -> & -> & _).
    by replace (mo - 1 + 1) with mo by lia. }
  split; [assumption|]. intros Hy. rewrite Hts.
  destruct Hdate as (Hyr & Hmo & Hd). destruct Htime as (Hh & Hmi & _).
  rewrite !string_length_app, (year_length4 y), !pad2_length by lia. reflexivity.
Qed.

Lemma of_Z_nonempty (z : Z) : of_Z z ≠ "".
Proof.
  unfold of_Z, NilZero.string_of_int.
  destruct (Z.to_int z) as [u|u]; [|discriminate].
  unfold NilZero.string_of_uint. destruct u; discriminate.
Qed.

Lemma string_app_nonempty_r (a b : string) : b ≠ "" → a +:+ b ≠ "".
Proof. intros Hb. destruct a; [exact Hb | discriminate]. Qed.

(** X9.  The time stamp of the radar map is empty exactly when the issue time
    is falsy or is not a date. *)
Theorem radmap_timestamp_empty_iff (ts : value) :
  formatTimestampForRadMap ts = "" ↔ truthy ts = false ∨ new_Date_of ts = None.
Proof.
  unfold formatTimestampForRadMap.
  destruct (truthy ts); simpl negb; cbv iota; [|by split; [left|]].
  destruct (new_Date_of ts) as [t|]; [|by split; [right|]].
  split; [|intros [?|?]; discriminate].
  intros Hempty. exfalso. revert Hempty.
  do 4 apply string_app_nonempty_r. unfold padStart0. apply string_app_nonempty_r, of_Z_nonempty.
Qed.

Lemma iso_date_digits_plain (y mo d : Z) :
  0 <= y <= 9999 → 0 <= mo < 100 → 0 <= d < 100 →
  includes "T" (iso_date y mo d) = false ∧ includes "Z" (iso_date y mo d) = false.
Proof.
  intros Hy Hmo Hd. unfold iso_date.
  destruct (pad4_plain y ltac:(lia)) as (_ & HT4 & HZ4).
  destruct (pad2_plain mo ltac:(lia)) as (_ & HTm & HZm).
  destruct (pad2_plain d ltac:(lia)) as (_ & HTd & HZd).
  rewrite !includes_char_app, HT4, HTm, HTd, HZ4, HZm, HZd. by split.
Qed.

Lemma iso_time_digits_plain (h mi se : Z) :
  0 <= h < 100 → 0 <= mi < 100 → 0 <= se < 100 → includes "Z" (iso_time h mi se) = false.
Proof.
  intros Hh Hmi Hse. unfold iso_time.
  destruct (pad2_plain h ltac:(lia)) as (_ & _ & HZh).
  destruct (pad2_plain mi ltac:(lia)) as (_ & _ & HZm).
  destruct (pad2_plain se ltac:(lia)) as (_ & _ & HZs).
  by rewrite !includes_char_app, HZh, HZm, HZs.
Qed.

Lemma is_date_only_digits (y mo d : Z) :
  0 <= y <= 9999 → 0 <= mo < 100 → 0 <= d < 100 → is_date_only (iso_date y mo d) = true.
Proof.
  intros Hy Hmo Hd. unfold is_date_only, iso_date.
  rewrite (read_pad4 y _ ltac:(lia)).
  change ("-" +:+ ?x) with (String "-" x). cbv beta iota.
  rewrite (read_pad2 mo _ ltac:(lia)).
  change ("-" +:+ ?x) with (String "-" x). cbv beta iota.
  by rewrite (pad2_reads d ltac:(lia)).
Qed.

Lemma date_not_ok (mo d : Z) :
  ¬ (1 <= mo <= 12 ∧ 1 <= d <= 31) →
  true && (1 <=? mo) && (mo <=? 12) && (1 <=? d) && (d <=? 31) = false.
Proof.
  intros Hbad. apply not_true_iff_false. intros Hok. apply Hbad.
  rewrite !andb_true_iff in Hok. destruct Hok as [[[[_ H1] H2] H3] H4].
  apply Z.leb_le in H1, H2, H3, H4. lia.
Qed.

Lemma parse_iso_impossible_date (y mo d h mi se : Z) :
  0 <= y <= 9999 → 0 <= mo < 100 → 0 <= d < 100 →
  0 <= h < 100 → 0 <= mi < 100 → 0 <= se < 100 →
  ¬ (1 <= mo <= 12 ∧ 1 <= d <= 31) →
  parse_iso (iso_date y mo d +:+ "T" +:+ iso_time h mi se +:+ "Z") = ISOIllegal.
Proof.
  intros Hy Hmo Hd Hh Hmi Hse Hbad. unfold iso_date, iso_time.
  rewrite !string_app_assoc. unfold parse_iso.
  rewrite (parse_year_digits _ _ _ (read_pad4 y _ ltac:(lia))).
  rewrite (parse_month_day_pads _ _ _ Hmo Hd).
  change ("T" +:+ ?x) with (String "T" x). cbv beta iota.
  rewrite (parse_time_seconds _ _ _ Hh Hmi Hse).
  change (parse_offset "Z") with (Some (Some (0, true))). cbv beta iota.
  by rewrite (date_not_ok _ _ Hbad).
Qed.

Lemma parse_iso_impossible_bare_date (y mo d : Z) :
  0 <= y <= 9999 → 0 <= mo < 100 → 0 <= d < 100 →
  ¬ (1 <= mo <= 12 ∧ 1 <= d <= 31) →
  parse_iso (iso_date y mo d) = ISOIllegal.
Proof.
  intros Hy Hmo Hd Hbad. unfold iso_date.
  rewrite <- (string_app_nil_r (pad 2 d)).
  unfold parse_iso.
  rewrite (parse_year_digits _ _ _ (read_pad4 y _ ltac:(lia))).
  rewrite (parse_month_day_pads _ _ _ Hmo Hd). cbv beta iota.
  by rewrite (date_not_ok _ _ Hbad).
Qed.

(** X28.  A date with a month outside 1 to 12 or a day outside 1 to 31 is
    rejected with the error message that quotes the input, on every
    engine: as a bare date, and with a time of day, with or without the
    UTC marker. *)
Theorem impossible_date_is_rejected (y mo d h mi se : Z) :
  0 <= y <= 9999 → 0 <= mo < 100 → 0 <= d < 100 →
  0 <= h < 100 → 0 <= mi < 100 → 0 <= se < 100 →
  ¬ (1 <= mo <= 12 ∧ 1 <= d <= 31) →
  let rejected := fun ts =>
    validateAndFormatTimestamp ts = inl (Error ("Invalid timestamp format: " +:+ ts)) in
  rejected (iso_date y mo d)
  ∧ rejected (iso_date y mo d +:+ "T" +:+ iso_time h mi se)
  ∧ rejected (iso_date y mo d +:+ "T" +:+ iso_time h mi se +:+ "Z").
Proof.
  intros Hy Hmo Hd Hh Hmi Hse Hbad rejected. subst rejected. cbv beta.
  assert (Hmidnight : parse_iso (iso_date y mo d +:+ "T00:00:00Z") = ISOIllegal).
  { apply (parse_iso_impossible_date y mo d 0 0 0); (assumption || lia). }
  pose proof (parse_iso_impossible_date y mo d h mi se Hy Hmo Hd Hh Hmi Hse Hbad) as Htime.
  unfold validateAndFormatTimestamp, new_Date, parse.
  split; [|split].
  - unfold date_source.
    destruct (iso_date_digits_plain y mo d Hy Hmo Hd) as [-> ->].
    rewrite (is_date_only_digits y mo d Hy Hmo Hd). cbv beta iota. simpl andb. cbv iota.
    by rewrite Hmidnight.
  - unfold date_source.
    replace (includes "T" _) with true
      by (symmetry; apply includes_later, includes_here).
    replace (includes "Z" _) with false
      by (symmetry; rewrite !includes_char_app, (iso_time_digits_plain _ _ _ Hh Hmi Hse);
          by destruct (iso_date_digits_plain _ _ _ Hy Hmo Hd) as [_ ->]).
    cbv beta iota. simpl andb. cbv iota.
    rewrite !string_app_assoc in *. by rewrite Htime.
  - unfold date_source.
    replace (includes "T" _) with true
      by (symmetry; apply includes_later, includes_here).
    replace (includes "Z" _) with true
      by (symmetry; do 3 apply includes_later; reflexivity).
    cbv beta iota. simpl andb. cbv iota. by rewrite Htime.
Qed.

End RealTimestamps.

(** ** The bounding box outside its regular case *)

Section BoundingBoxEdges.
Import JSString JSDate JSValue Timestamp Feed Process Spec Readers Notions.

(** X10.  A polygon or multi-polygon without any position gets a box that is
    turned inside out: the lower bounds are plus infinity and the upper
    bounds minus infinity. *)
Theorem getBoundingBox_without_positions (g : geometry) :
  flat_coords g = Some [] →
  getBoundingBox (Some g) margin_0_2
  = Some {| xmin := S754_infinity false; ymin := S754_infinity false;
            xmax := S754_infinity true; ymax := S754_infinity true |}.
Proof. intros Hflat. unfold getBoundingBox. by rewrite Hflat. Qed.




End BoundingBoxEdges.

(** ** The markup of a discussion: tags, the image and white space *)

Section Markup.
Import JSString JSDate JSValue Timestamp Feed Process Spec Readers Notions.

Lemma string_app_cons (c : ascii) (a b : string) : String c a +:+ b = String c (a +:+ b).
Proof. reflexivity. Qed.

Lemma strip_open (buf tag rest : string) :
  free_of ">" tag = true →
  strip_tags_from (Some buf) (tag +:+ rest)
  = strip_tags_from (Some (buf +:+ tag)) rest.
Proof.
  revert buf. induction tag as [|c tag IH]; intros buf Hfree.
  - by rewrite string_app_nil_r.
  - simpl in Hfree. apply andb_true_iff in Hfree as [Hc Hfree].
    apply negb_true_iff in Hc.
    rewrite string_app_cons. simpl. rewrite Hc, (IH _ Hfree).
    by rewrite string_app_assoc.
Qed.

Lemma strip_plain (pre rest : string) :
  free_of "<" pre = true →
  strip_tags_from None (pre +:+ rest) = pre +:+ strip_tags_from None rest.
Proof.
  induction pre as [|c pre IH]; intros Hfree; [reflexivity|].
  simpl in Hfree. apply andb_true_iff in Hfree as [Hc Hfree]. apply negb_true_iff in Hc.
  rewrite !string_app_cons. simpl. rewrite Hc. by rewrite (IH Hfree).
Qed.

Lemma strip_tag (tag post : string) :
  tag ≠ "" → free_of ">" tag = true →
  strip_tags_from None ("<" +:+ tag +:+ ">" +:+ post) = strip_tags_from None post.
Proof.
  intros Hne Hfree. change ("<" +:+ ?x) with (String "<" x).
  change (strip_tags_from None (String "<" ?x)) with (strip_tags_from (Some "<") x).
  rewrite (strip_open _ _ _ Hfree).
  change (">" +:+ post) with (String ">" post). simpl.
  destruct tag as [|c tag]; [done|].
  change ("<" +:+ String c tag) with (String "<" (String c tag)).
  replace (String.eqb (String "<" (String c tag)) "<") with false; [reflexivity|].
  symmetry. apply String.eqb_neq. discriminate.
Qed.

(** X12.  Text in front of the first opening bracket is kept, and a tag, an
    opening bracket with one or more characters up to the next closing
    bracket, is removed; text without an opening bracket is kept whole. *)
Theorem strip_tags_removes_tag (pre tag post : string) :
  free_of "<" pre = true → tag ≠ "" → free_of ">" tag = true →
  strip_tags (pre +:+ "<" +:+ tag +:+ ">" +:+ post) = pre +:+ strip_tags post
  ∧ strip_tags pre = pre.
Proof.
  intros Hpre Hne Htag. unfold strip_tags. split.
  - by rewrite (strip_plain _ _ Hpre), (strip_tag _ _ Hne Htag).
  - rewrite <- (string_app_nil_r pre) at 1. rewrite (strip_plain _ _ Hpre).
    apply string_app_nil_r.
Qed.

Lemma strip_unclosed (buf b : string) :
  free_of ">" b = true → strip_tags_from (Some buf) b = buf +:+ b.
Proof.
  intros Hb. rewrite <- (string_app_nil_r b) at 1. rewrite (strip_open _ _ _ Hb).
  reflexivity.
Qed.

Lemma free_of_app (c : ascii) (a b : string) :
  free_of c (a +:+ b) = free_of c a && free_of c b.
Proof.
  induction a as [|x a IH]; [reflexivity|].
  rewrite string_app_cons. simpl. rewrite IH. by rewrite andb_assoc.
Qed.

Lemma strip_again (s : string) :
  strip_tags_from None (strip_tags_from None s) = strip_tags_from None s
  ∧ ∀ b, free_of ">" b = true →
         strip_tags_from None (strip_tags_from (Some ("<" +:+ b)) s)
         = strip_tags_from (Some ("<" +:+ b)) s.
Proof.
  induction s as [|c s [IH0 IH1]].
  - split; [reflexivity|]. intros b Hb. simpl.
    change ("<" +:+ b) with (String "<" b).
    change (strip_tags_from None (String "<" b)) with (strip_tags_from (Some "<") b).
    by apply strip_unclosed.
  - split.
    + simpl. destruct (Ascii.eqb c "<") eqn:Ec.
      * apply (IH1 "" eq_refl).
      * simpl. by rewrite Ec, IH0.
    + intros b Hb. simpl. destruct (Ascii.eqb c ">") eqn:Ec.
      * destruct b as [|x b].
        -- change (String.eqb ("<" +:+ "") "<") with true. cbv iota.
           change ("<>" +:+ ?x) with (String "<" (String ">" x)).
           simpl. by rewrite IH0.
        -- replace (String.eqb ("<" +:+ String x b) "<") with false
             by (symmetry; apply String.eqb_neq; discriminate).
           exact IH0.
      * rewrite string_app_assoc. apply IH1.
        rewrite free_of_app, Hb. simpl. by rewrite Ec.
Qed.

(** X13.  Removing the tags a second time changes nothing: no tag is left in
    the result. *)
Theorem strip_tags_idempotent (s : string) : strip_tags (strip_tags s) = strip_tags s.
Proof. apply strip_again. Qed.

Lemma drop_prefix_app (p rest : string) : drop_prefix p (p +:+ rest) = Some rest.
Proof.
  induction p as [|c p IH]; [reflexivity|].
  rewrite string_app_cons. simpl. by rewrite Ascii.eqb_refl.
Qed.

Lemma span_not_app (c : ascii) (u rest : string) :
  free_of c u = true → span_not c (u +:+ String c rest) = (u, String c rest).
Proof.
  induction u as [|a u IH]; intros Hfree.
  - change ("" +:+ String c rest) with (String c rest). simpl. by rewrite Ascii.eqb_refl.
  - simpl in Hfree. apply andb_true_iff in Hfree as [Ha Hfree]. apply negb_true_iff in Ha.
    rewrite string_app_cons. simpl. by rewrite Ha, (IH Hfree).
Qed.

Lemma img_at_here (u post : string) :
  u ≠ "" → free_of dquote u = true →
  img_at (img_prefix +:+ u +:+ String dquote post) = Some u.
Proof.
  intros Hne Hfree. unfold img_at. rewrite drop_prefix_app.
  unfold mbind, option_bind. cbv beta iota. rewrite (span_not_app _ _ _ Hfree).
  by destruct u.
Qed.

Lemma drop_prefix_prefix (p s r : string) :
  drop_prefix p s = Some r → String.prefix p s = true.
Proof.
  revert s. induction p as [|c p IH]; intros s; [intros _; apply prefix_nil|].
  destruct s as [|a s]; [discriminate|]. simpl.
  destruct (Ascii.eqb_spec c a) as [->|Hne]; [|discriminate].
  intros Hd. destruct (ascii_dec a a); [by eapply IH | congruence].
Qed.

Lemma img_at_includes (s u : string) : img_at s = Some u → String.prefix img_prefix s = true.
Proof.
  unfold img_at. destruct (drop_prefix img_prefix s) as [r|] eqn:E; [|discriminate].
  intros _. by eapply drop_prefix_prefix.
Qed.

Lemma img_match_at (s u : string) : img_at s = Some u → img_match s = Some u.
Proof.
  intros Hat. destruct s as [|c s]; [discriminate|].
  change (img_match (String c s))
    with (match img_at (String c s) with Some u => Some u | None => img_match s end).
  by rewrite Hat.
Qed.

(** X14.  A description in which the text [<img src=] followed by a double
    quote does not occur has no image. *)
Theorem img_match_needs_image_tag (s : string) :
  includes img_prefix s = false → img_match s = None.
Proof.
  induction s as [|c s IH]; intros Hinc.
  - reflexivity.
  - change (includes img_prefix (String c s))
      with (String.prefix img_prefix (String c s) || includes img_prefix s) in Hinc.
    apply orb_false_iff in Hinc as [Hp Hrest].
    change (img_match (String c s))
      with (match img_at (String c s) with Some u => Some u | None => img_match s end).
    destruct (img_at (String c s)) as [u|] eqn:E; [|by apply IH].
    apply img_at_includes in E. congruence.
Qed.

Lemma string_prefix_cons (a b : ascii) (q s : string) :
  String.prefix (String a q) (String b s) = if ascii_dec a b then String.prefix q s else false.
Proof. reflexivity. Qed.

Lemma prefix_straddle (q pre rest : string) :
  free_of "<" q = true → String.prefix q pre = false →
  String.prefix q (pre +:+ String "<" rest) = false.
Proof.
  revert pre. induction q as [|a q IH]; intros pre Hfree Hp.
  - by rewrite prefix_nil in Hp.
  - simpl in Hfree. apply andb_true_iff in Hfree as [Ha Hfree].
    apply negb_true_iff, Ascii.eqb_neq in Ha.
    destruct pre as [|b pre].
    + change ("" +:+ String "<" rest) with (String "<" rest). simpl.
      by destruct (ascii_dec a "<").
    + rewrite string_app_cons. simpl in *. destruct (ascii_dec a b); [by apply IH | reflexivity].
Qed.

Lemma prefix_app_short (pre rest : string) :
  pre ≠ "" → String.prefix img_prefix pre = false →
  String.prefix img_prefix (pre +:+ img_prefix +:+ rest) = false.
Proof.
  intros Hne Hp. destruct pre as [|c pre]; [done|].
  change img_prefix with (String "<" ("img src=" +:+ String dquote "")) in *.
  rewrite !string_app_cons. rewrite string_prefix_cons in *.
  destruct (ascii_dec "<" c); [|reflexivity].
  by apply prefix_straddle.
Qed.

(** X15.  The image of a description is the address in the first image tag:
    when nothing in front of the tag starts one, the address between the
    quotes, one or more characters, is found whatever comes after it. *)
Theorem img_match_finds_first_image (pre u post : string) :
  includes img_prefix pre = false → u ≠ "" → free_of dquote u = true →
  img_match (pre +:+ img_prefix +:+ u +:+ String dquote post) = Some u.
Proof.
  intros Hpre Hne Hfree. induction pre as [|c pre IH].
  - change ("" +:+ ?x) with x.
    apply img_match_at, img_at_here; assumption.
  - change (includes img_prefix (String c pre))
      with (String.prefix img_prefix (String c pre) || includes img_prefix pre) in Hpre.
    apply orb_false_iff in Hpre as [Hp Hrest].
    rewrite string_app_cons.
    change (img_match (String c ?s))
      with (match img_at (String c s) with Some u => Some u | None => img_match s end).
    destruct (img_at (String c (pre +:+ img_prefix +:+ u +:+ String dquote post))) as [v|] eqn:E;
      [|by apply IH].
    apply img_at_includes in E. rewrite <- string_app_cons in E.
    rewrite prefix_app_short in E; [discriminate | discriminate | assumption].
Qed.

Lemma trim_start_spaces (pre r : string) :
  all_space pre = true → trim_start (pre +:+ r) = trim_start r.
Proof.
  induction pre as [|c pre IH]; intros Hsp; [reflexivity|].
  simpl in Hsp. apply andb_true_iff in Hsp as [Hc Hsp].
  rewrite string_app_cons. simpl. by rewrite Hc, (IH Hsp).
Qed.

Lemma trim_start_tight (r : string) : starts_with_space r = false → trim_start r = r.
Proof. destruct r as [|c r]; [reflexivity|]. simpl. by intros ->. Qed.

Lemma trim_end_all_space (post : string) : all_space post = true → trim_end post = "".
Proof.
  induction post as [|c post IH]; intros Hsp; [reflexivity|].
  simpl in Hsp. apply andb_true_iff in Hsp as [Hc Hsp].
  simpl. by rewrite (IH Hsp), Hc.
Qed.

Lemma trim_end_spaces (mid post : string) :
  all_space post = true → trim_end (mid +:+ post) = trim_end mid.
Proof.
  intros Hsp. induction mid as [|c mid IH].
  - change ("" +:+ post) with post. by rewrite trim_end_all_space.
  - rewrite string_app_cons. simpl. by rewrite IH.
Qed.

Lemma trim_end_tight (mid : string) : ends_with_space mid = false → trim_end mid = mid.
Proof.
  induction mid as [|c mid IH]; [reflexivity|].
  destruct mid as [|c' mid'].
  - simpl. by intros ->.
  - intros Hend. change (ends_with_space (String c (String c' mid')))
      with (ends_with_space (String c' mid')) in Hend.
    change (trim_end (String c ?s))
      with (match trim_end s with
            | EmptyString => if is_space c then EmptyString else String c EmptyString
            | r => String c r
            end).
    by rewrite (IH Hend).
Qed.

(** X16.  Of a description without any tag, the text posted is what lies
    between the white space at its two ends. *)
Theorem strip_and_trim_plain_text (pre mid post : string) :
  all_space pre = true → all_space post = true →
  starts_with_space mid = false → ends_with_space mid = false →
  free_of "<" (pre +:+ mid +:+ post) = true →
  strip_and_trim (pre +:+ mid +:+ post) = mid.
Proof.
  intros Hpre Hpost Hstart Hend Hfree. unfold strip_and_trim.
  unfold strip_tags. rewrite <- (string_app_nil_r (pre +:+ mid +:+ post)) at 1.
  rewrite (strip_plain _ _ Hfree). change (strip_tags_from None "") with "".
  rewrite string_app_nil_r.
  rewrite (trim_start_spaces _ _ Hpre).
  destruct mid as [|c mid].
  - change ("" +:+ post) with post.
    assert (Hts : ∀ p, all_space p = true → trim_start p = "").
    { induction p as [|x p IHp]; [done|]. simpl. intros [-> Hp]%andb_true_iff. by apply IHp. }
    by rewrite (Hts _ Hpost).
  - rewrite trim_start_tight by (by rewrite string_app_cons).
    by rewrite (trim_end_spaces _ _ Hpost), (trim_end_tight _ Hend).
Qed.

End Markup.

(** ** The handlers as a whole *)

Section Handlers.
Import JSString JSDate JSValue Timestamp Feed Process Spec Readers Notions.

#[global] Instance keeps_tracked_preorder : PreOrder keeps_tracked.
Proof.
  split.
  - intros s. by split.
  - intros s1 s2 s3 [? ?] [? ?]. split; congruence.
Qed.

#[global] Instance keeps_seen_preorder : PreOrder keeps_seen.
Proof. split; unfold keeps_seen; [intros s | intros s1 s2 s3]; congruence. Qed.

Context `{Runtime} (w : world).

Lemma same_store_call {A} (r : request) (answer : nat → exn + A) :
  preserves same_store (call r answer).
Proof. intros s. by repeat split. Qed.

Lemma same_store_log (e : event) : preserves same_store (log e).
Proof. intros s. by repeat split. Qed.

Lemma keeps_tracked_call {A} (r : request) (answer : nat → exn + A) :
  preserves keeps_tracked (call r answer).
Proof. intros s. by split. Qed.

Lemma keeps_tracked_log (e : event) : preserves keeps_tracked (log e).
Proof. intros s. by split. Qed.

Lemma keeps_tracked_add (g : string) : preserves keeps_tracked (add_md_id g).
Proof. intros s. by split. Qed.

Lemma keeps_seen_call {A} (r : request) (answer : nat → exn + A) :
  preserves keeps_seen (call r answer).
Proof. by intros s. Qed.

Lemma keeps_seen_log (e : event) : preserves keeps_seen (log e).
Proof. by intros s. Qed.

Lemma keeps_seen_set_warnings (ws : list WarningEvent) : preserves keeps_seen (set_warnings ws).
Proof. by intros s. Qed.

Lemma keeps_seen_set_lastUpdate (t : string) : preserves keeps_seen (set_lastUpdate t).
Proof. by intros s. Qed.

Lemma md_grows_add (g : string) : preserves md_grows (add_md_id g).
Proof. intros s. unfold md_grows. simpl. set_solver. Qed.

Local Ltac store_prims := first [apply same_store_call | apply same_store_log].

Lemma fetch_range_same_store (startTime endTime : string) :
  preserves same_store (fetchWarningsForTimeRange w startTime endTime).
Proof. unfold fetchWarningsForTimeRange. respects same_store store_prims. Qed.

Lemma simulate_loop_same_store (ws : list WarningEvent) (sent failed : nat) :
  preserves same_store (simulate_loop w ws sent failed).
Proof.
  intros s. by destruct (simulate_loop_run w ws sent failed s) as (a & b & s' & -> & _ & [Hst _]).
Qed.

Lemma routes_same_store (a : action) :
  a ≠ TornadoTick → a ≠ DiscussionTick → ∀ s, same_store s (perform w a s).
Proof.
  intros Ht Hd. destruct a as [| |start end_|start end_|]; try done; simpl.
  - change (preserves same_store (simulate_route w start end_)).
    unfold simulate_route, warnings_of.
    respects same_store
      ltac:(first [ store_prims | apply simulate_loop_same_store
                  | apply fetch_range_same_store ]).
  - change (preserves same_store (range_route w start end_)).
    unfold range_route, warnings_of.
    respects same_store ltac:(first [ store_prims | apply fetch_range_same_store ]).
  - change (preserves same_store (all_warnings_route w)).
    unfold all_warnings_route, fetchCurrentWarnings.
    respects same_store store_prims.
Qed.

Lemma discussions_keep_tracked : preserves keeps_tracked (monitorMesoscaleDiscussions w).
Proof.
  unfold monitorMesoscaleDiscussions, md_loop_body, send_md.
  respects keeps_tracked
    ltac:(first [apply keeps_tracked_call | apply keeps_tracked_log | apply keeps_tracked_add]).
Qed.

Lemma discussions_md_grows : preserves md_grows (monitorMesoscaleDiscussions w).
Proof.
  unfold monitorMesoscaleDiscussions, md_loop_body.
  respects md_grows
    ltac:(first [ apply md_grows_call | apply md_grows_log | apply md_grows_add
                | apply send_md_md_grows ]).
Qed.

Lemma tornado_cycle_keeps_seen : preserves keeps_seen (monitorTornadoWarnings w).
Proof.
  unfold monitorTornadoWarnings, fetchCurrentWarnings.
  respects keeps_seen
    ltac:(first [ apply keeps_seen_call | apply keeps_seen_log
                | apply keeps_seen_set_warnings | apply keeps_seen_set_lastUpdate ]).
Qed.

Lemma perform_frame (a : action) (s : state) :
  (a ≠ TornadoTick → keeps_tracked s (perform w a s))
  ∧ (a ≠ DiscussionTick → keeps_seen s (perform w a s))
  ∧ md_grows s (perform w a s).
Proof.
  assert (Hroute : a ≠ TornadoTick → a ≠ DiscussionTick →
                   keeps_tracked s (perform w a s) ∧ keeps_seen s (perform w a s)
                   ∧ md_grows s (perform w a s)).
  { intros Ht Hd. destruct (routes_same_store a Ht Hd s) as (Htw & Hlu & Hmd).
    split; [by split|]. split; [done|]. unfold md_grows. by rewrite Hmd. }
  destruct a as [| |start end_|start end_|];
    try (destruct Hroute as (? & ? & ?); [discriminate..|];
         split; [intros _; assumption|]; split; [intros _; assumption | assumption]).
  - pose proof (tornado_cycle_keeps_seen s) as Hk. split; [done|]. split; [done|].
    unfold md_grows. simpl. by rewrite Hk.
  - split; [intros _; apply discussions_keep_tracked|]. split; [done|].
    apply discussions_md_grows.
Qed.

Lemma monitor_outcome (s : state) :
  fst (monitorTornadoWarnings w s)
  = match feed_answer w s with
    | inr (Some body) =>
        match parseTornadoWarnings (Some body) with
        | inl e => inl e
        | inr _ => inr tt
        end
    | _ => inr tt
    end.
Proof.
  destruct (feed_answer w s) as [e|[body|]] eqn:Efeed.
  - by destruct (monitor_no_data w s) as (s' & -> & _); [by rewrite Efeed|].
  - destruct (parseTornadoWarnings (Some body)) as [e|current] eqn:Hparse.
    + by destruct (monitor_throws w s body e Efeed Hparse) as (s' & -> & _).
    + by destruct (monitor_with_data w s body current Efeed Hparse) as (s' & -> & _).
  - by destruct (monitor_no_data w s) as (s' & -> & _); [by rewrite Efeed|].
Qed.

Lemma monitor_thrown (s : state) (e : exn) :
  fst (monitorTornadoWarnings w s) = inl e →
  ∃ body, feed_answer w s = inr (Some body) ∧ parseTornadoWarnings (Some body) = inl e.
Proof.
  rewrite monitor_outcome.
  destruct (feed_answer w s) as [e'|[body|]]; try discriminate.
  destruct (parseTornadoWarnings (Some body)) as [e'|current] eqn:Hparse; [|discriminate].
  intros [= ->]. by exists body.
Qed.

Lemma fetch_range_returns (startTime endTime : string) (s : state) :
  ∃ d, fst (fetchWarningsForTimeRange w startTime endTime s) = inr d.
Proof.
  unfold fetchWarningsForTimeRange. rewrite try_catch_run.
  match goal with |- context [match ?b with _ => _ end] => destruct b as [[e|d] s'] end;
    by eexists.
Qed.

(** X17.  Of the handlers only the tornado cycle can end in an
    exception, and it does so exactly when the extractor throws on the
    body the feed sent: the cycle ends with that exception, right after
    the request for the feed, with the tracked list, the time of the
    last update and the seen-set as they were.  The discussion cycle
    returns and every route gives an answer, whatever the network
    answers. *)
Theorem only_the_extraction_throws (s : state) :
  fst (monitorTornadoWarnings w s)
  = match feed_answer w s with
    | inr (Some body) =>
        match parseTornadoWarnings (Some body) with
        | inl e => inl e
        | inr _ => inr tt
        end
    | _ => inr tt
    end
  ∧ (∀ e, fst (monitorTornadoWarnings w s) = inl e →
          same_store s (snd (monitorTornadoWarnings w s))
          ∧ new_events s (snd (monitorTornadoWarnings w s))
            = [Call (GetFeed (feed_url w s))])
  ∧ fst (monitorMesoscaleDiscussions w s) = inr tt
  ∧ (∀ start end_, ∃ r, fst (simulate_route w start end_ s) = inr r)
  ∧ (∀ start end_, ∃ r, fst (range_route w start end_ s) = inr r)
  ∧ ∃ r, fst (all_warnings_route w s) = inr r.
Proof.
  split; [apply monitor_outcome|]. split.
  { intros e He. destruct (monitor_thrown s e He) as (body & Hfeed & Hparse).
    destruct (monitor_throws w s body e Hfeed Hparse) as (s' & -> & Hst & Htr).
    split; [exact Hst|]. by apply new_events_app. }
  split.
  { unfold monitorMesoscaleDiscussions. rewrite try_catch_run.
    match goal with |- context [match ?b with _ => _ end] => destruct b as [[e|[]] s'] end;
      reflexivity. }
  split; [|split].
  - intros start end_. unfold simulate_route.
    destruct (missing start || missing end_); [by eexists|].
    rewrite try_catch_run.
    match goal with |- context [match ?b with _ => _ end] => destruct b as [[e|r] s'] end;
      by eexists.
  - intros start end_. unfold range_route.
    destruct (missing start || missing end_); [by eexists|].
    rewrite try_catch_run.
    match goal with |- context [match ?b with _ => _ end] => destruct b as [[e|r] s'] end;
      by eexists.
  - unfold all_warnings_route. rewrite try_catch_run.
    match goal with |- context [match ?b with _ => _ end] => destruct b as [[e|r] s'] end;
      by eexists.
Qed.

Lemma warnings_of_run (data : option feed_body) (s : state) :
  warnings_of data s = (parseTornadoWarnings data, s).
Proof. by destruct data. Qed.

Lemma range_body_run (start end_ : string) (data : option feed_body) (s s1 : state) :
  fetchWarningsForTimeRange w start end_ s = (inr data, s1) →
  try_catch
    (data ← fetchWarningsForTimeRange w start end_;
     warnings ← warnings_of data;
     mret {| status_code := 200;
             body := RangeBody (length warnings) start end_ warnings |})
    (fun error => mret {| status_code := 500; body := ErrorBody (message_of error) |}) s
  = match parseTornadoWarnings data with
    | inr ws => (inr {| status_code := 200; body := RangeBody (length ws) start end_ ws |}, s1)
    | inl e => (inr {| status_code := 500; body := ErrorBody (message_of e) |}, s1)
    end.
Proof.
  intros Hfetch. rewrite try_catch_run, bind_run, Hfetch. cbv beta iota.
  rewrite bind_run, warnings_of_run.
  by destruct (parseTornadoWarnings data).
Qed.

Lemma simulate_body_run (start end_ : string) (data : option feed_body) (s s1 : state) :
  fetchWarningsForTimeRange w start end_ s = (inr data, s1) →
  match parseTornadoWarnings data with
  | inr ws =>
      ∃ sent failed s2,
        try_catch
          (data ← fetchWarningsForTimeRange w start end_;
           warnings ← warnings_of data;
           counts ← simulate_loop w warnings 0%nat 0%nat;
           mret {| status_code := 200;
                   body := SimulateBody (fst counts) (snd counts) (length warnings) |})
          (fun error => mret {| status_code := 500; body := ErrorBody (message_of error) |}) s
        = (inr {| status_code := 200; body := SimulateBody sent failed (length ws) |}, s2)
        ∧ (sent + failed = length ws)%nat
  | inl e =>
      try_catch
        (data ← fetchWarningsForTimeRange w start end_;
         warnings ← warnings_of data;
         counts ← simulate_loop w warnings 0%nat 0%nat;
         mret {| status_code := 200;
                 body := SimulateBody (fst counts) (snd counts) (length warnings) |})
        (fun error => mret {| status_code := 500; body := ErrorBody (message_of error) |}) s
      = (inr {| status_code := 500; body := ErrorBody (message_of e) |}, s1)
  end.
Proof.
  intros Hfetch. rewrite try_catch_run, bind_run, Hfetch. cbv beta iota.
  rewrite bind_run, warnings_of_run.
  destruct (parseTornadoWarnings data) as [e|ws]; [reflexivity|].
  cbv beta iota. rewrite bind_run.
  destruct (simulate_loop_run w ws 0 0 s1) as (sent & failed & s2 & -> & Hsum & _).
  exists sent, failed, s2. split; [reflexivity | lia].
Qed.

(** X18.  The range route and the simulate route answer with status 400
    when the start or the end is absent or empty, and then nothing is
    requested and nothing changes.  In every other case they answer with
    status 200, the range route with the extracted events and their
    number and the simulate route with its counts, when the extractor
    returns on what the fetch brought, and with status 500 and the
    message of the exception when the extractor throws. *)
Theorem range_and_simulate_status (start end_ : option string) (s : state) :
  (missing start || missing end_ = true →
   range_route w start end_ s = (inr missing_params, s)
   ∧ simulate_route w start end_ s = (inr missing_params, s))
  ∧ (missing start || missing end_ = false →
     ∃ data s1,
       fetchWarningsForTimeRange w (default "" start) (default "" end_) s = (inr data, s1)
       ∧ match parseTornadoWarnings data with
         | inr ws =>
             range_route w start end_ s
             = (inr {| status_code := 200;
                       body := RangeBody (length ws) (default "" start) (default "" end_) ws |},
                s1)
             ∧ ∃ sent failed s2,
                 simulate_route w start end_ s
                 = (inr {| status_code := 200;
                           body := SimulateBody sent failed (length ws) |}, s2)
                 ∧ (sent + failed = length ws)%nat
         | inl e =>
             range_route w start end_ s
             = (inr {| status_code := 500; body := ErrorBody (message_of e) |}, s1)
             ∧ simulate_route w start end_ s
               = (inr {| status_code := 500; body := ErrorBody (message_of e) |}, s1)
         end).
Proof.
  unfold range_route, simulate_route.
  destruct (missing start || missing end_); (split; [try done | try done]).
  intros _.
  destruct (fetchWarningsForTimeRange w (default "" start) (default "" end_) s)
    as [[e|data] s1] eqn:Hfetch.
  { destruct (fetch_range_returns (default "" start) (default "" end_) s) as (d & Hd).
    rewrite Hfetch in Hd. discriminate. }
  exists data, s1. split; [reflexivity|].
  pose proof (range_body_run _ _ data s s1 Hfetch) as Hrange.
  pose proof (simulate_body_run _ _ data s s1 Hfetch) as Hsim.
  destruct (parseTornadoWarnings data) as [e|ws]; by split.
Qed.

(** X19.  With both timestamps accepted, the range route makes one
    request, for the range in canonical timestamps.  When the answer is a
    feed document, or the request fails or brings nothing, the route
    lists the events of exactly the records of the answer that are
    labelled as tornado warnings, in feed order, with their number; a
    failed request gives the empty list.  The same holds of any other
    body on which the extractor returns; and when the extractor throws,
    the route answers with status 500 and the message of the
    exception. *)
Theorem range_route_lists_labelled (start end_ a b : string) (s : state) :
  start ≠ "" → end_ ≠ "" →
  validateAndFormatTimestamp start = inr a →
  validateAndFormatTimestamp end_ = inr b →
  let url := API_BASE_URL +:+ "?sts=" +:+ a +:+ "&ets=" +:+ b in
  let data := match get_feed w (calls s) url with inr d => d | inl _ => None end in
  ((data = None ∨ ∃ doc : feed_document, data = Some (document doc)) →
   ∃ ws,
     range_route w (Some start) (Some end_) s
     = (inr {| status_code := 200; body := RangeBody (length ws) start end_ ws |},
        snd (axios_get_feed w url s))
     ∧ Forall2 extracted_from (filter labelled_tornado (records data)) ws)
  ∧ (∀ ws, parseTornadoWarnings data = inr ws →
           range_route w (Some start) (Some end_) s
           = (inr {| status_code := 200; body := RangeBody (length ws) start end_ ws |},
              snd (axios_get_feed w url s))
           ∧ Forall2 extracted_from (filter labelled_tornado (records data)) ws)
  ∧ (∀ e, parseTornadoWarnings data = inl e →
          range_route w (Some start) (Some end_) s
          = (inr {| status_code := 500; body := ErrorBody (message_of e) |},
             snd (axios_get_feed w url s))).
Proof.
  intros Hs He Ha Hb url data.
  assert (Hroute : range_route w (Some start) (Some end_) s
                   = match parseTornadoWarnings data with
                     | inr ws =>
                         (inr {| status_code := 200;
                                 body := RangeBody (length ws) start end_ ws |},
                          snd (axios_get_feed w url s))
                     | inl e =>
                         (inr {| status_code := 500; body := ErrorBody (message_of e) |},
                          snd (axios_get_feed w url s))
                     end).
  { unfold range_route, missing.
    apply String.eqb_neq in Hs, He. rewrite Hs, He.
    change (false || false) with false. cbv beta iota.
    change (default "" (Some start)) with start.
    change (default "" (Some end_)) with end_.
    apply range_body_run. by rewrite (fetch_range_valid w _ _ a b s Ha Hb). }
  assert (Hreturns : ∀ ws, parseTornadoWarnings data = inr ws →
            range_route w (Some start) (Some end_) s
            = (inr {| status_code := 200; body := RangeBody (length ws) start end_ ws |},
               snd (axios_get_feed w url s))
            ∧ Forall2 extracted_from (filter labelled_tornado (records data)) ws).
  { intros ws Hparse. split; [by rewrite Hroute, Hparse | by apply parse_extracts]. }
  split; [|split; [exact Hreturns|]].
  - intros [Hnone | (doc & Hdoc)].
    + exists []. apply Hreturns. by rewrite Hnone.
    + destruct (parse_document doc) as (ws & Hparse).
      exists ws. apply Hreturns. by rewrite Hdoc.
  - intros e Hparse. by rewrite Hroute, Hparse.
Qed.

Lemma fetchCurrentWarnings_state (s : state) :
  fetchCurrentWarnings w s
  = (inr match feed_answer w s with inr d => d | inl _ => None end,
     snd (axios_get_feed w (feed_url w s) s)).
Proof.
  unfold fetchCurrentWarnings, feed_answer, feed_url.
  rewrite try_catch_run. unfold getCurrentUTCTimestamp, now.
  rewrite !bind_run. simpl.
  by destruct (get_feed w (calls s) _) as [e|d].
Qed.

(** X20.  The route of all warnings makes the request of the tornado
    cycle; it answers with status 200, the body itself, the length of
    its features and the time of the answer when a body came back, and
    with status 500 when the request failed or brought nothing.  For a
    feed document that length is the number of its records.  The stored
    state is not touched. *)
Theorem all_warnings_route_answers (s : state) :
  let s' := snd (axios_get_feed w (feed_url w s) s) in
  all_warnings_route w s
  = (inr match feed_answer w s with
         | inr (Some d) =>
             {| status_code := 200;
                body := AllBody (features_length d)
                                (toISOString (clock w (calls s'))) d |}
         | _ => {| status_code := 500; body := ErrorBody "Failed to fetch data from API" |}
         end, s')
  ∧ (∀ doc : feed_document,
        features_length (document doc)
        = VNum (b64_of_Z (Z.of_nat (length (records (Some (document doc)))))))
  ∧ same_store s s'.
Proof.
  intros s'. split; [|split; [|by repeat split]].
  - unfold all_warnings_route. rewrite try_catch_run, bind_run, fetchCurrentWarnings_state.
    fold s'. unfold feed_answer.
    by destruct (get_feed w (calls s) (feed_url w s)) as [e|[d|]].
  - by intros [[fs|]].
Qed.

(** X21.  Each handler changes only the variables that are its own: the
    tracked list and the time of the last update are written by the
    tornado cycle alone, the seen-set by the discussion cycle alone, and
    the seen-set never loses an identifier. *)
Theorem handlers_keep_to_their_variables (a : action) (s : state) :
  (a ≠ TornadoTick →
   tornadoWarnings (perform w a s) = tornadoWarnings s
   ∧ lastUpdate (perform w a s) = lastUpdate s)
  ∧ (a ≠ DiscussionTick → lastMdIds (perform w a s) = lastMdIds s)
  ∧ lastMdIds s ⊆ lastMdIds (perform w a s).
Proof. apply perform_frame. Qed.

Lemma extracted_is_tornado (fs : list record) (ws : list WarningEvent) :
  Forall labelled_tornado fs → Forall2 extracted_from fs ws → Forall is_tornado_event ws.
Proof.
  intros Hl Hx. revert Hl. induction Hx as [|f e fs ws Hfe _ IH]; intros Hl.
  - constructor.
  - apply Forall_cons in Hl as [Hf Hl]. constructor; [|by apply IH].
    destruct f as [| |i properties geom]; try done.
    destruct Hfe as (_ & Hp & _). simpl in Hf. rewrite Hp in Hf. simpl in Hf.
    unfold is_tornado_event, get. by rewrite Hf.
Qed.

Lemma tornado_cycle_invariant (s : state) :
  Forall is_tornado_event (tornadoWarnings s)
  ∧ (lastUpdate s = None → tornadoWarnings s = []) →
  let s' := snd (monitorTornadoWarnings w s) in
  Forall is_tornado_event (tornadoWarnings s')
  ∧ (lastUpdate s' = None → tornadoWarnings s' = []).
Proof.
  intros [Hall Hnone] s'. subst s'.
  destruct (feed_answer w s) as [e|[body|]] eqn:Efeed.
  - destruct (monitor_no_data w s) as (s' & -> & (Htw & Hlu & _) & _); [by rewrite Efeed|].
    simpl. by rewrite Htw, Hlu.
  - destruct (parseTornadoWarnings (Some body)) as [e|current] eqn:Hparse.
    { destruct (monitor_throws w s body e Efeed Hparse) as (s' & -> & (Htw & Hlu & _) & _).
      simpl. by rewrite Htw, Hlu. }
    pose proof (parse_extracts _ _ Hparse) as Hx.
    destruct (monitor_with_data w s body current Efeed Hparse) as (s' & -> & Htw & Hlu & _).
    simpl. rewrite Htw, Hlu. split; [|discriminate].
    eapply extracted_is_tornado; [|exact Hx].
    apply list.Forall_forall. intros f Hf. by apply list_elem_of_filter in Hf as [? _].
  - destruct (monitor_no_data w s) as (s' & -> & (Htw & Hlu & _) & _); [by rewrite Efeed|].
    simpl. by rewrite Htw, Hlu.
Qed.

Lemma run_invariant (actions : list action) (s : state) :
  Forall is_tornado_event (tornadoWarnings s)
  ∧ (lastUpdate s = None → tornadoWarnings s = []) →
  Forall is_tornado_event (tornadoWarnings (run w actions s))
  ∧ (lastUpdate (run w actions s) = None → tornadoWarnings (run w actions s) = []).
Proof.
  revert s. induction actions as [|a actions IH]; intros s Hinv; [exact Hinv|].
  simpl. apply IH.
  assert (Hother : a ≠ TornadoTick →
                   Forall is_tornado_event (tornadoWarnings (perform w a s))
                   ∧ (lastUpdate (perform w a s) = None
                      → tornadoWarnings (perform w a s) = [])).
  { intros Ha. destruct (perform_frame a s) as ([Htw Hlu] & _); [assumption|].
    by rewrite Htw, Hlu. }
  destruct a; try (apply Hother; discriminate).
  by apply tornado_cycle_invariant.
Qed.

(** X22.  Whatever cycles and requests a fresh process has gone through, every
    tracked event comes from a record labelled as a tornado warning, and
    the tracked list is empty as long as no update time is set. *)
Theorem tracked_events_are_tornado_warnings (actions : list action) :
  let s := run w actions initial in
  Forall is_tornado_event (tornadoWarnings s)
  ∧ (lastUpdate s = None → tornadoWarnings s = []).
Proof. apply run_invariant. split; [constructor | reflexivity]. Qed.

(** X23.  After a cycle whose fetch brought a document, the route of the
    tracked warnings and the health route report the extraction of that
    document: its events, their number, and the time of the update. *)
Theorem readers_report_last_extraction (s : state) (doc : feed_document) (uptime : spec_float) :
  feed_answer w s = inr (Some (document doc)) →
  let s' := snd (monitorTornadoWarnings w s) in
  ∃ current,
    parseTornadoWarnings (Some (document doc)) = inr current
    ∧ tornado_warnings_route s'
      = (inr {| report_count := length current;
                report_lastUpdate := Some (toISOString (clock w (calls s')));
                report_warnings := current |}, s')
    ∧ health_route uptime s'
      = (inr {| health_uptime := uptime;
                health_lastUpdate := Some (toISOString (clock w (calls s')));
                health_currentWarnings := length current |}, s').
Proof.
  intros Hfeed s'. destruct (parse_document doc) as (current & Hparse).
  exists current. split; [assumption|]. subst s'.
  destruct (monitor_with_data w s _ current Hfeed Hparse) as (s' & -> & Htw & Hlu & _).
  unfold tornado_warnings_route, health_route, read. simpl. by rewrite Htw, Hlu.
Qed.

End Handlers.

(** ** The discussion cycle without failures, and what is posted *)

Ltac gained_log :=
  erewrite new_events_app;
  [| cbn [snd fst Process.call Process.log Process.trace]; rewrite <- ?app_assoc; reflexivity];
  cbn [app];
  rewrite ?elem_of_cons, ?elem_of_nil.

Section Discussions.
Import JSString JSDate JSValue Timestamp Feed Process Spec Readers Notions.





Context `{Runtime} (w : world).

(** X24.  In a cycle whose items all carry an identifier that has been seen,
    nothing is requested after the feed itself, and nothing changes. *)
Theorem seen_discussions_are_skipped (items : list md_item) (s : state) :
  get_rss w (calls s) MD_RSS_URL = inr (RssItems (Some items)) →
  Forall (fun item => ∃ g, item_guid item = inr g ∧ g ∈ lastMdIds s) items →
  monitorMesoscaleDiscussions w s = (inr tt, snd (axios_get_rss w MD_RSS_URL s)).
Proof.
  intros Hrss Hseen. unfold monitorMesoscaleDiscussions.
  rewrite try_catch_run, bind_run. unfold axios_get_rss. rewrite call_run, Hrss.
  cbv beta iota. rewrite bind_run, ret_run. cbv beta iota. simpl default.
  set (s1 := snd (call _ _ s)).
  assert (Hloop : ∀ s1, lastMdIds s1 = lastMdIds s →
                        for_of items (md_loop_body w) s1 = (inr tt, s1)).
  { clear s1 Hrss. induction Hseen as [|item items (g & Hg & Hin) _ IH]; intros s1 Hs1; [reflexivity|].
    simpl. rewrite bind_run, md_loop_body_run, Hg. unfold has.
    rewrite bool_decide_eq_true_2 by (by rewrite Hs1). cbv beta iota. by apply IH. }
  by rewrite (Hloop s1).
Qed.




Lemma nonempty_img (o : option string) :
  (match o with
   | Some d => if String.eqb d "" then None else Some d
   | None => None
   end) ≫= img_match = o ≫= img_match.
Proof.
  destruct o as [d|]; [|reflexivity].
  destruct (String.eqb d "") eqn:E; [|reflexivity].
  apply String.eqb_eq in E. by rewrite E.
Qed.

Lemma nonempty_text (o : option string) :
  default "" (strip_and_trim <$>
                match o with
                | Some d => if String.eqb d "" then None else Some d
                | None => None
                end) = default "" (strip_and_trim <$> o).
Proof.
  destruct o as [d|]; [|reflexivity].
  destruct (String.eqb d "") eqn:E; [|reflexivity].
  apply String.eqb_eq in E. by rewrite E.
Qed.

(** X26.  What is posted for a discussion: the form goes to the webhook of the
    discussions; its text is the heading, the title and the description
    without tags and surrounding white space; and its file is the image
    downloaded from the first image address of the description, absent
    when the description has none.  No form is posted for an item
    without title or when the download fails. *)
Theorem discussion_post_content
    (item : md_item) (g : string) (s : state) (url : string) (f : form) :
  Call (Post url f) ∈ new_events s (snd (send_md w item g s)) →
  url = MD_WEBHOOK
  ∧ (∃ t, title item = Some t
          ∧ content f = md_content t (default "" (strip_and_trim <$> description item)))
  ∧ match description item ≫= img_match with
    | Some address => ∃ b, get_binary w (calls s) address = inr b ∧ file f = Some (b, "md.png")
    | None => file f = None
    end.
Proof.
  unfold send_md, item_title.
  rewrite nonempty_img, nonempty_text.
  rewrite bind_run. change (lift ?r s) with (r, s).
  destruct (title item) as [t|]; cbv beta iota.
  2:{ unfold new_events. simpl. rewrite drop_all. by intros ?%elem_of_nil. }
  rewrite bind_run.
  destruct (description item ≫= img_match) as [address|].
  - rewrite bind_run. unfold axios_get_binary. rewrite call_run.
    destruct (get_binary w (calls s) address) as [e|b]; cbv beta iota.
    { gained. intros [Hin|[]]. discriminate. }
    rewrite ret_run. cbv beta iota. rewrite bind_run. unfold axios_post. rewrite call_run.
    match goal with |- context [post w ?n ?u ?x] => destruct (post w n u x) as [e|[]] end;
      cbv beta iota.
    + gained. intros [Hin|[Hin|[]]]; [discriminate|]. injection Hin as -> ->.
      split; [reflexivity|]. split; [by exists t|]. by exists b.
    + gained_log. intros [Hin|[Hin|[Hin|[]]]]; try discriminate. injection Hin as -> ->.
      split; [reflexivity|]. split; [by exists t|]. by exists b.
  - rewrite ret_run. cbv beta iota. rewrite bind_run. unfold axios_post. rewrite call_run.
    match goal with |- context [post w ?n ?u ?x] => destruct (post w n u x) as [e|[]] end;
      cbv beta iota.
    + gained. intros [Hin|[]]. injection Hin as -> ->.
      split; [reflexivity|]. split; [by exists t|]. reflexivity.
    + gained_log. intros [Hin|[Hin|[]]]; try discriminate. injection Hin as -> ->.
      split; [reflexivity|]. split; [by exists t|]. reflexivity.
Qed.

(** X27.  What is posted for a warning besides its text: the form goes to the
    webhook of the warnings, and only after the raw text and the plot
    image, for each that the warning has an address of, have been
    downloaded; its file is that image under the name [plot.png], absent
    when the warning has no plot-image address. *)
Theorem warning_post_follows_downloads
    (warning : WarningEvent) (s : state) (url : string) (f : form) :
  Call (Post url f) ∈ new_events s (snd (send_warning w warning s)) →
  url = WARNING_WEBHOOK
  ∧ (∀ address, nwstextUrl warning = Some address →
                ∃ r, get_text w (calls s) address = inr r)
  ∧ match plotImageUrl warning with
    | Some address =>
        ∃ b, get_binary w (calls s + match nwstextUrl warning with Some _ => 1 | None => 0 end)%nat address = inr b
             ∧ file f = Some (b, "plot.png")
    | None => file f = None
    end.
Proof.
  unfold send_warning, axios_get_text, axios_get_binary, axios_post.
  rewrite bind_run.
  destruct (nwstextUrl warning) as [turl|].
  - rewrite bind_run, call_run. destruct (get_text w (calls s) turl) as [e|r] eqn:Et; cbv beta iota.
    { gained. intros [Hin|[]]. discriminate. }
    rewrite ret_run; cbv beta iota.
    rewrite bind_run.
    destruct (plotImageUrl warning) as [purl|].
    + rewrite bind_run, call_run. cbn [calls snd call].
      replace (calls s + 1)%nat with (S (calls s)) by lia.
      destruct (get_binary w (S (calls s)) purl) as [e|b]; cbv beta iota.
      { gained. intros [Hin|[Hin|[]]]; discriminate. }
      rewrite ret_run; cbv beta iota.
      gained. intros [Hin|[Hin|[Hin|[]]]]; try discriminate. injection Hin as -> ->.
      split; [reflexivity|]. split; [intros ? [= <-]; by exists r|]. by exists b.
    + rewrite ret_run; cbv beta iota.
      gained. intros [Hin|[Hin|[]]]; try discriminate. injection Hin as -> ->.
      split; [reflexivity|]. split; [intros ? [= <-]; by exists r|]. reflexivity.
  - rewrite ret_run; cbv beta iota.
    rewrite bind_run.
    destruct (plotImageUrl warning) as [purl|].
    + rewrite bind_run, call_run. replace (calls s + 0)%nat with (calls s) by lia.
      destruct (get_binary w (calls s) purl) as [e|b]; cbv beta iota.
      { gained. intros [Hin|[]]; discriminate. }
      rewrite ret_run; cbv beta iota.
      gained. intros [Hin|[Hin|[]]]; try discriminate. injection Hin as -> ->.
      split; [reflexivity|]. split; [discriminate|]. by exists b.
    + rewrite ret_run; cbv beta iota.
      gained. intros [Hin|[]]; try discriminate. injection Hin as -> ->.
      split; [reflexivity|]. split; [discriminate|]. reflexivity.
Qed.

(** X29.  When the feed of the discussions cannot be fetched or cannot
    be parsed, or when the parsed feed is empty, has no [rss] element or
    has an [rss] element without a channel, the cycle prints the message
    of that error and ends; nothing is posted and the stored state is
    unchanged. *)
Theorem discussion_feed_failure_is_logged (s : state) (message : string) :
  match get_rss w (calls s) MD_RSS_URL with
  | inl e => message = message_of e
  | inr (RssParseError m) => message = m
  | inr RssEmpty => message = "Cannot read properties of null (reading 'rss')"
  | inr RssNoRss => message = "Cannot read properties of undefined (reading 'channel')"
  | inr RssNoChannel => message = "Cannot read properties of undefined (reading '0')"
  | inr (RssItems _) => False
  end →
  let s' := snd (monitorMesoscaleDiscussions w s) in
  fst (monitorMesoscaleDiscussions w s) = inr tt
  ∧ new_events s s' = [Call (GetRss MD_RSS_URL); ErrorMD message]
  ∧ same_store s s'.
Proof.
  intros Hfail s'. subst s'. unfold monitorMesoscaleDiscussions.
  rewrite try_catch_run, bind_run. unfold axios_get_rss. rewrite call_run.
  destruct (get_rss w (calls s) MD_RSS_URL) as [e|[m| | | |items]];
    try contradiction; subst message; cbv beta iota;
    try (rewrite bind_run; unfold throw at 1; cbv beta iota);
    (split; [reflexivity|]; split; [|by repeat split];
     apply new_events_app; simpl; by rewrite <- app_assoc).
Qed.

End Discussions.

(** ** The results on sample inputs *)

Section Samples.
Import JSString JSDate JSValue Timestamp Feed Process Spec.




Lemma offset_timestamp_rejected_witness :
  new_Date "2024-05-26T19:00:00+05:00" = Some 1716732000000
  ∧ toISOString 1716732000000 = "2024-05-26T14:00:00.000Z"
  ∧ validateAndFormatTimestamp "2024-05-26T19:00:00+05:00"
    = inl (Error "Invalid timestamp format: 2024-05-26T19:00:00+05:00").
Proof. apply offset_timestamp_rejected. reflexivity. Defined.

Lemma range_route_hides_invalid_timestamp_witness :
  range_route world_AB_BC (Some "2024-13-45") (Some "2024-05-26") initial
  = (inr {| status_code := 200; body := RangeBody 0 "2024-13-45" "2024-05-26" [] |},
     initial)
  ∧ simulate_route world_AB_BC (Some "2024-13-45") (Some "2024-05-26") initial
    = (inr {| status_code := 200; body := SimulateBody 0 0 0 |}, initial).
Proof.
  apply range_route_hides_invalid_timestamp.
  - discriminate.
  - discriminate.
  - left. eexists. reflexivity.
Defined.

(** The first of two unseen discussions fails at its POST: the cycle ends
    with the error line, in the state that failure left. *)
Lemma discussion_recorded_before_dispatch_witness :
  let s0 := snd (axios_get_rss world_md_fail MD_RSS_URL initial) in
  let s1 := snd (md_loop_body world_md_fail (discussion "md-1" "MD 1") s0) in
  monitorMesoscaleDiscussions world_md_fail initial
  = (inr tt, snd (log (ErrorMD "socket hang up") s1)).
Proof.
  intros s0 s1.
  destruct (discussion_recorded_before_dispatch world_md_fail) as (_ & _ & Habort).
  apply (Habort initial [] (discussion "md-1" "MD 1") [discussion "md-2" "MD 2"]
                s0 (Error "socket hang up") s1).
  - reflexivity.
  - reflexivity.
  - vm_compute. reflexivity.
Defined.

Lemma posted_text_is_truncated_witness :
  let f := {| content := warning_content warning_with_text long_text; file := None |} in
  let text := fetched_text world_long_text initial warning_with_text in
  ∃ shown,
    content f = warning_content warning_with_text "" +:+ shown
    ∧ (((String.length text ≤ 1800)%nat ∧ shown = text)
       ∨ ((1800 < String.length text)%nat
          ∧ ∃ kept rest,
              text = kept +:+ rest ∧ String.length kept = 1800%nat
              ∧ shown = kept +:+ "...")).
Proof.
  intros f.
  apply (posted_text_is_truncated world_long_text warning_with_text initial WARNING_WEBHOOK f).
  vm_compute. apply list_elem_of_further, list_elem_of_here.
Defined.


(** C4 fails for a value that is present and falsy.  The record has all
    five identification properties, the event number being 0, and gets
    no plot-image URL. *)
Lemma plot_url_absent_though_all_present :
  Forall (fun k => ∃ v, record_with_event_zero !! k = Some v ∧ v ≠ VNull ∧ v ≠ VUndefined)
         plot_keys
  ∧ plotImageUrl (to_warning (tornado_record "A") record_with_event_zero) = None.
Proof.
  split; [|vm_compute; reflexivity].
  repeat constructor; eexists; (split; [vm_compute; reflexivity|]); split; discriminate.
Qed.

Lemma canonical_timestamp_is_kept_witness :
  validateAndFormatTimestamp "2024-05-26T19:00:00.000Z" = inr "2024-05-26T19:00:00.000Z".
Proof.
  apply (canonical_timestamp_is_kept 1716750000000). vm_compute. split; discriminate.
Defined.

Lemma marked_timestamp_is_utc_witness :
  validateAndFormatTimestamp "2024-05-26T19:00:00Z" = inr "2024-05-26T19:00:00.000Z".
Proof.
  apply (marked_timestamp_is_utc 2024 5 26 19 0 0); repeat split; lia.
Defined.

Lemma unmarked_timestamp_is_utc_witness :
  validateAndFormatTimestamp "2024-05-26T19:00:00" = inr "2024-05-26T19:00:00.000Z".
Proof.
  apply (unmarked_timestamp_is_utc 2024 5 26 19 0 0); repeat split; lia.
Defined.

Lemma bare_date_is_utc_midnight_witness :
  validateAndFormatTimestamp "2024-05-26" = inr "2024-05-26T00:00:00.000Z".
Proof.
  apply (bare_date_is_utc_midnight 2024 5 26); repeat split; lia.
Defined.

Lemma simulate_route_dispatches_all_witness :
  ∃ current sent failed s',
    parseTornadoWarnings (Some (document (feed_of ["A"; "B"]))) = inr current
    ∧ simulate_route world_AB_BC (Some "2024-05-26") (Some "2024-05-27") initial
      = (inr {| status_code := 200; body := SimulateBody sent failed (length current) |}, s')
    ∧ (sent + failed = length current)%nat
    ∧ same_store initial s'.
Proof.
  apply (simulate_route_dispatches_all world_AB_BC "2024-05-26" "2024-05-27"
           "2024-05-26T00:00:00.000Z" "2024-05-27T00:00:00.000Z").
  - discriminate.
  - discriminate.
  - reflexivity.
  - reflexivity.
  - reflexivity.
Defined.

End Samples.

(** ** The further results on sample inputs *)

Section FurtherSamples.
Import JSString JSDate JSValue Timestamp Feed Process Spec Readers Notions.

(** The last second of a leap day *)
Lemma real_timestamp_is_normalised_witness :
  validateAndFormatTimestamp "2024-02-29T23:59:59Z" = inr "2024-02-29T23:59:59.000Z"
  ∧ validateAndFormatTimestamp "2024-02-29T23:59:59" = inr "2024-02-29T23:59:59.000Z"
  ∧ validateAndFormatTimestamp "2024-02-29" = inr "2024-02-29T00:00:00.000Z".
Proof.
  apply (real_timestamp_is_normalised 2024 2 29 23 59 59).
  - vm_compute. repeat split; discriminate.
  - repeat split; lia.
Defined.

Lemma radmap_timestamp_digits_witness :
  formatTimestampForRadMap (VStr "2024-05-26T19:04:00Z") = "202405261904"
  ∧ (1000 <= 2024 →
     String.length (formatTimestampForRadMap (VStr "2024-05-26T19:04:00Z")) = 12%nat).
Proof.
  apply (radmap_timestamp_digits 2024 5 26 19 4 0).
  - vm_compute. repeat split; discriminate.
  - repeat split; lia.
Defined.

Lemma getBoundingBox_without_positions_witness :
  getBoundingBox (Some (Polygon (Some [[]; []]))) margin_0_2
  = Some {| xmin := S754_infinity false; ymin := S754_infinity false;
            xmax := S754_infinity true; ymax := S754_infinity true |}.
Proof. apply getBoundingBox_without_positions. reflexivity. Defined.


Lemma strip_tags_removes_tag_witness :
  strip_tags "Storms <b>likely</b>" = "Storms " +:+ strip_tags "likely</b>"
  ∧ strip_tags "Storms " = "Storms ".
Proof. apply (strip_tags_removes_tag "Storms " "b" "likely</b>"); [reflexivity | discriminate | reflexivity]. Defined.

Lemma img_match_needs_image_tag_witness : img_match "<p>Storms likely</p>" = None.
Proof. apply img_match_needs_image_tag. reflexivity. Defined.

Lemma img_match_finds_first_image_witness :
  img_match ("<p>" +:+ img_prefix +:+ image_address +:+ String dquote "></p>Storms likely. ")
  = Some image_address.
Proof.
  apply (img_match_finds_first_image "<p>" image_address "></p>Storms likely. ");
    [reflexivity | discriminate | reflexivity].
Defined.

Lemma strip_and_trim_plain_text_witness :
  strip_and_trim ("  " +:+ "Storms likely." +:+ " ") = "Storms likely.".
Proof. apply (strip_and_trim_plain_text "  " "Storms likely." " "); reflexivity. Defined.

Lemma range_route_lists_labelled_witness :
  let url := API_BASE_URL +:+ "?sts=" +:+ "2024-05-26T00:00:00.000Z"
               +:+ "&ets=" +:+ "2024-05-27T00:00:00.000Z" in
  let data := match get_feed world_AB_BC (calls initial) url with
              | inr d => d
              | inl _ => None
              end in
  ∃ ws,
    range_route world_AB_BC (Some "2024-05-26") (Some "2024-05-27") initial
    = (inr {| status_code := 200;
              body := RangeBody (length ws) "2024-05-26" "2024-05-27" ws |},
       snd (axios_get_feed world_AB_BC url initial))
    ∧ Forall2 extracted_from (filter labelled_tornado (records data)) ws.
Proof.
  intros url data.
  destruct (range_route_lists_labelled world_AB_BC "2024-05-26" "2024-05-27"
              "2024-05-26T00:00:00.000Z" "2024-05-27T00:00:00.000Z" initial)
    as (Hdocument & _ & _).
  - discriminate.
  - discriminate.
  - reflexivity.
  - reflexivity.
  - apply Hdocument. right. exists (feed_of ["A"; "B"]). reflexivity.
Defined.

(** The feed sends a body with a [null] record: the tornado cycle ends in
    the exception of the extractor, and has changed nothing. *)
Lemma only_the_extraction_throws_witness :
  let s' := snd (monitorTornadoWarnings world_with_null initial) in
  fst (monitorTornadoWarnings world_with_null initial)
  = inl (TypeError "Cannot read properties of null (reading 'properties')")
  ∧ same_store initial s'
  ∧ new_events initial s' = [Call (GetFeed (feed_url world_with_null initial))].
Proof.
  intros s'.
  destruct (only_the_extraction_throws world_with_null initial) as (Hout & Hthrown & _).
  split; [exact Hout|]. by apply Hthrown in Hout.
Defined.

(** The same body in answer to a request for a range: both routes answer
    with status 500 and the message of the exception. *)
Lemma range_and_simulate_status_witness :
  let failure :=
    {| status_code := 500;
       body := ErrorBody "Cannot read properties of null (reading 'properties')" |} in
  fst (range_route world_with_null (Some "2024-05-26") (Some "2024-05-27") initial)
  = inr failure
  ∧ fst (simulate_route world_with_null (Some "2024-05-26") (Some "2024-05-27") initial)
    = inr failure.
Proof.
  intros failure.
  destruct (range_and_simulate_status world_with_null
              (Some "2024-05-26") (Some "2024-05-27") initial) as [_ Hgiven].
  destruct (Hgiven eq_refl) as (data & s1 & Hfetch & Houtcome).
  vm_compute in Hfetch. injection Hfetch as <- <-.
  change (parseTornadoWarnings (Some body_with_null))
    with (inl (TypeError "Cannot read properties of null (reading 'properties')")
          : exn + list WarningEvent) in Houtcome.
  destruct Houtcome as [-> ->]. by split.
Defined.

Lemma readers_report_last_extraction_witness :
  let s' := snd (monitorTornadoWarnings world_AB_BC initial) in
  ∃ current,
    parseTornadoWarnings (Some (document (feed_of ["A"; "B"]))) = inr current
    ∧ tornado_warnings_route s'
      = (inr {| report_count := length current;
                report_lastUpdate := Some (toISOString (clock world_AB_BC (calls s')));
                report_warnings := current |}, s')
    ∧ health_route (b64_of_Z 60) s'
      = (inr {| health_uptime := b64_of_Z 60;
                health_lastUpdate := Some (toISOString (clock world_AB_BC (calls s')));
                health_currentWarnings := length current |}, s').
Proof.
  apply (readers_report_last_extraction world_AB_BC initial (feed_of ["A"; "B"])).
  reflexivity.
Defined.

Lemma seen_discussions_are_skipped_witness :
  monitorMesoscaleDiscussions world_md_repeat seen_both
  = (inr tt, snd (axios_get_rss world_md_repeat MD_RSS_URL seen_both)).
Proof.
  apply (seen_discussions_are_skipped world_md_repeat repeated_discussions).
  - reflexivity.
  - repeat constructor; eexists; (split; [reflexivity|]); vm_compute; reflexivity.
Defined.


Lemma discussion_post_content_witness :
  let f := {| content := md_content "MD 7" "Storms likely.";
              file := Some ("", "md.png") |} in
  MD_WEBHOOK = MD_WEBHOOK
  ∧ (∃ t, title discussion_with_image = Some t
          ∧ content f
            = md_content t (default "" (strip_and_trim <$> description discussion_with_image)))
  ∧ ∃ b, get_binary world_md_repeat (calls initial) image_address = inr b
         ∧ file f = Some (b, "md.png").
Proof.
  intros f.
  apply (discussion_post_content world_md_repeat discussion_with_image "md-7" initial
           MD_WEBHOOK f).
  vm_compute. apply list_elem_of_further, list_elem_of_here.
Defined.

Lemma warning_post_follows_downloads_witness :
  let f := {| content := warning_content warning_with_plot long_text;
              file := Some ("", "plot.png") |} in
  WARNING_WEBHOOK = WARNING_WEBHOOK
  ∧ (∀ address, nwstextUrl warning_with_plot = Some address →
                ∃ r, get_text world_long_text (calls initial) address = inr r)
  ∧ ∃ b, get_binary world_long_text (calls initial + 1)%nat (plot_url record_with_event_12)
         = inr b
         ∧ file f = Some (b, "plot.png").
Proof.
  intros f.
  apply (warning_post_follows_downloads world_long_text warning_with_plot initial
           WARNING_WEBHOOK f).
  vm_compute. do 2 apply list_elem_of_further. apply list_elem_of_here.
Defined.

Lemma impossible_date_is_rejected_witness :
  validateAndFormatTimestamp "2024-13-45"
  = inl (Error ("Invalid timestamp format: " +:+ "2024-13-45"))
  ∧ validateAndFormatTimestamp "2024-13-45T19:00:00"
    = inl (Error ("Invalid timestamp format: " +:+ "2024-13-45T19:00:00"))
  ∧ validateAndFormatTimestamp "2024-13-45T19:00:00Z"
    = inl (Error ("Invalid timestamp format: " +:+ "2024-13-45T19:00:00Z")).
Proof.
  apply (impossible_date_is_rejected 2024 13 45 19 0 0); lia.
Defined.

Lemma discussion_feed_failure_is_logged_witness :
  let s' := snd (monitorMesoscaleDiscussions world_offline initial) in
  fst (monitorMesoscaleDiscussions world_offline initial) = inr tt
  ∧ new_events initial s'
    = [Call (GetRss MD_RSS_URL); ErrorMD "getaddrinfo ENOTFOUND"]
  ∧ same_store initial s'.
Proof.
  apply (discussion_feed_failure_is_logged world_offline initial "getaddrinfo ENOTFOUND").
  reflexivity.
Defined.

End FurtherSamples.
